(** * WorkTwins: snapshot and aggregation engine

    A shallow embedding of the scanning code of
    [com_worktwins_shooter/SnapshotGenerator.py] and of the aggregation code
    of [com_worktwins_data_sources/WorkTwinsDataSource.py], together with the
    properties of the specification that concern them.

    Conventions of the embedding:
    - Python [str] values are [string]s; a character is a code point in the
      range U+0000..U+00FF, so [str.lower] and the regular expression class
      [\s] are given for that range.
    - Python [int] values are [Z].
    - Python [dict]s and [defaultdict]s keep insertion order, which the
      code observes when it lists their items; they are association lists
      in which a new key goes to the end and an existing key is updated in
      place.
    - Python [float] values are the binary64 numbers of the library's
      specification of floating-point arithmetic ([SpecFloat]).
    - Paths follow [posixpath]. *)

From Stdlib Require Import List String Ascii ZArith NArith Bool Lia Arith.
From Stdlib Require Import Sorting.Permutation Sorting.Sorted.
From Stdlib Require Import Floats.SpecFloat.
From Stdlib Require Reals Lra.
Import ListNotations.

Local Open Scope string_scope.
Local Open Scope list_scope.

(* ================================================================== *)
(** ** Text *)

Module Text.

Definition code (c : ascii) : N := N_of_ascii c.

(** [str.isspace] on one character, which is also the class [\s] of [re]
    on [str] patterns. *)
Definition py_isspace (c : ascii) : bool :=
  let n := code c in
  (((9 <=? n) && (n <=? 13)) || ((28 <=? n) && (n <=? 32))
   || (n =? 133) || (n =? 160))%N.

Definition lower_char (c : ascii) : ascii :=
  let n := code c in
  if ((((65 <=? n) && (n <=? 90))
       || ((192 <=? n) && (n <=? 222) && negb (n =? 215))))%N
  then ascii_of_N (n + 32) else c.

(** [s.lower()] *)
Fixpoint lower (s : string) : string :=
  match s with
  | EmptyString => EmptyString
  | String c s' => String (lower_char c) (lower s')
  end.

(** [needle in hay] for two strings *)
Fixpoint contains (needle hay : string) : bool :=
  if String.prefix needle hay then true
  else match hay with
       | EmptyString => false
       | String _ hay' => contains needle hay'
       end.

(** [s.startswith(p)] and [s.endswith(p)] *)
Definition startswith (s p : string) : bool := String.prefix p s.

Definition endswith (s p : string) : bool :=
  let n := String.length s in
  let m := String.length p in
  (m <=? n)%nat && String.eqb (String.substring (n - m) m s) p.

(** [x in l] for a list or set of strings *)
Definition mem (x : string) (l : list string) : bool :=
  existsb (String.eqb x) l.

(** [s.rfind(c)] for a single character: the last index, or -1 *)
Fixpoint rfind_from (c : ascii) (s : string) (i : Z) (found : Z) : Z :=
  match s with
  | EmptyString => found
  | String d s' =>
      rfind_from c s' (i + 1) (if Ascii.eqb d c then i else found)
  end.

Definition rfind (c : ascii) (s : string) : Z := rfind_from c s 0 (-1).

(** [s[i:]] and [s[i:j]] for indices that are not negative *)
Definition from (i : Z) (s : string) : string :=
  String.substring (Z.to_nat i) (String.length s - Z.to_nat i) s.

Definition slice (i j : Z) (s : string) : string :=
  String.substring (Z.to_nat i) (Z.to_nat j - Z.to_nat i) s.

Definition chars (s : string) : list ascii := list_ascii_of_string s.
Definition text (l : list ascii) : string := string_of_list_ascii l.

(** The longest prefix whose characters satisfy [p], and what follows. *)
Fixpoint take_while (p : ascii -> bool) (s : list ascii) : list ascii :=
  match s with
  | [] => []
  | c :: s' => if p c then c :: take_while p s' else []
  end.

Fixpoint drop_while (p : ascii -> bool) (s : list ascii) : list ascii :=
  match s with
  | [] => []
  | c :: s' => if p c then drop_while p s' else s
  end.

(** What follows the prefix [w] of [s], when [s] starts with [w]. *)
Fixpoint strip_prefix (w s : list ascii) : option (list ascii) :=
  match w with
  | [] => Some s
  | a :: w' =>
      match s with
      | [] => None
      | c :: s' => if Ascii.eqb a c then strip_prefix w' s' else None
      end
  end.

End Text.

(* ================================================================== *)
(** ** Paths ([posixpath]) *)

Module Path.

Definition sep : ascii := "/"%char.
Definition extsep : ascii := "."%char.

(** [os.path.join(a, b)] *)
Definition join (a b : string) : string :=
  if Text.startswith b "/" then b
  else if String.eqb a EmptyString || Text.endswith a "/" then a ++ b
  else a ++ "/" ++ b.

(** [os.path.basename(p)] *)
Definition basename (p : string) : string :=
  Text.from (Text.rfind sep p + 1) p.

(** [os.path.splitext(p)[1]], after [genericpath._splitext]: the extension
    starts at the last dot after the last separator, unless only dots
    come before it in the file name. *)
Definition splitext_ext (p : string) : string :=
  let sepIndex := Text.rfind sep p in
  let dotIndex := Text.rfind extsep p in
  if (sepIndex <? dotIndex)%Z then
    let lead := Text.slice (sepIndex + 1) dotIndex p in
    if existsb (fun c => negb (Ascii.eqb c extsep)) (Text.chars lead)
    then Text.from dotIndex p
    else EmptyString
  else EmptyString.

End Path.

(* ================================================================== *)
(** ** Ordered dictionaries *)

Module Dict.

Section WithKey.
Context {K V : Type} (eqb : K -> K -> bool).

(** [d.get(k)] *)
Fixpoint get (k : K) (d : list (K * V)) : option V :=
  match d with
  | [] => None
  | (k', v) :: d' => if eqb k' k then Some v else get k d'
  end.

(** [k in d] *)
Definition has (k : K) (d : list (K * V)) : bool :=
  match get k d with Some _ => true | None => false end.

(** [d[k] = f(d[k])] on a [defaultdict] whose factory returns [dflt]: the
    first key object stays, a new key is appended. *)
Fixpoint update (k : K) (dflt : V) (f : V -> V) (d : list (K * V))
  : list (K * V) :=
  match d with
  | [] => [(k, f dflt)]
  | (k', v) :: d' =>
      if eqb k' k then (k', f v) :: d'
      else (k', v) :: update k dflt f d'
  end.

(** Reading [d[k]] on a [defaultdict]: a missing key is inserted with the
    default. *)
Definition touch (k : K) (dflt : V) (d : list (K * V)) : list (K * V) :=
  update k dflt (fun v => v) d.

End WithKey.

End Dict.

(* ================================================================== *)
(** ** Regular expressions

    The fragment of [re] that the three import patterns use, with the
    backtracking order of [re]: alternatives left to right, greedy
    repetition longest first, lazy repetition shortest first.  A position
    in the subject is the text that remains together with a flag telling
    whether [^] holds there under [re.MULTILINE]: at the start of the
    subject and right after a line feed. *)

Module Re.

Definition is_nl (c : ascii) : bool := Ascii.eqb c "010"%char.

Inductive re : Type :=
| Eps
| Chr (p : ascii -> bool)
| Bol
| Seq (r1 r2 : re)
| Alt (r1 r2 : re)
| Star (p : ascii -> bool)
| LazyStar (p : ascii -> bool)
| Grp (n : nat) (r : re).

(** one or more, greedy *)
Definition Plus (p : ascii -> bool) : re := Seq (Chr p) (Star p).

(** a literal *)
Fixpoint Lit (s : string) : re :=
  match s with
  | EmptyString => Eps
  | String c s' => Seq (Chr (Ascii.eqb c)) (Lit s')
  end.

(** Text of the groups that took part in a match, the latest first. *)
Definition caps := list (nat * list ascii).

Section Run.
Context {A : Type}.

Definition cont := bool -> list ascii -> caps -> option A.

Fixpoint star (p : ascii -> bool) (k : cont) (b : bool) (s : list ascii)
  (g : caps) : option A :=
  match s with
  | c :: s' =>
      if p c then
        match star p k (is_nl c) s' g with
        | Some r => Some r
        | None => k b s g
        end
      else k b s g
  | [] => k b s g
  end.

Fixpoint lazy_star (p : ascii -> bool) (k : cont) (b : bool)
  (s : list ascii) (g : caps) : option A :=
  match k b s g with
  | Some r => Some r
  | None =>
      match s with
      | c :: s' => if p c then lazy_star p k (is_nl c) s' g else None
      | [] => None
      end
  end.

Fixpoint run (r : re) (k : cont) (b : bool) (s : list ascii) (g : caps)
  : option A :=
  match r with
  | Eps => k b s g
  | Chr p =>
      match s with
      | c :: s' => if p c then k (is_nl c) s' g else None
      | [] => None
      end
  | Bol => if b then k b s g else None
  | Seq r1 r2 => run r1 (run r2 k) b s g
  | Alt r1 r2 =>
      match run r1 k b s g with
      | Some x => Some x
      | None => run r2 k b s g
      end
  | Star p => star p k b s g
  | LazyStar p => lazy_star p k b s g
  | Grp n r =>
      run r (fun b' s' g' =>
               k b' s' ((n, firstn (List.length s - List.length s') s) :: g'))
        b s g
  end.

End Run.

(** One attempt at a position: the text left after the match and the
    groups. *)
Definition attempt (r : re) (b : bool) (s : list ascii)
  : option (list ascii * caps) :=
  run r (fun _ s' g => Some (s', g)) b s [].

(** The scan of [finditer]: attempts from left to right, the search
    resuming where a match ended.  [skip] counts the characters of the
    last match still to be passed.  (None of the patterns below matches
    the empty string.) *)
Fixpoint scan (r : re) (b : bool) (s : list ascii) (skip : nat)
  : list caps :=
  match skip with
  | S n =>
      match s with
      | [] => []
      | c :: t => scan r (is_nl c) t n
      end
  | O =>
      match attempt r b s with
      | Some (s', g) =>
          g :: match s with
               | [] => []
               | c :: t =>
                   scan r (is_nl c) t (List.length s - List.length s' - 1)
               end
      | None =>
          match s with
          | [] => []
          | c :: t => scan r (is_nl c) t 0
          end
      end
  end.

Definition finditer (r : re) (content : string) : list caps :=
  scan r true (Text.chars content) 0.

(** [m.group(n)] as [findall] reports it: the empty string for a group
    that did not take part. *)
Fixpoint group (n : nat) (g : caps) : string :=
  match g with
  | [] => EmptyString
  | (m, t) :: g' => if Nat.eqb m n then Text.text t else group n g'
  end.

(** [re.findall] with one group, and with two *)
Definition findall1 (r : re) (content : string) : list string :=
  map (group 1) (finditer r content).

Definition findall2 (r : re) (content : string) : list (string * string) :=
  map (fun g => (group 1 g, group 2 g)) (finditer r content).

(** Character classes *)
Definition space : ascii -> bool := Text.py_isspace.
Definition any_but_nl (c : ascii) : bool := negb (is_nl c).
Definition none_of (l : list ascii) (c : ascii) : bool :=
  negb (existsb (Ascii.eqb c) l).
Definition not_space_nor (l : list ascii) (c : ascii) : bool :=
  negb (space c) && none_of l c.
Definition one_of (l : list ascii) (c : ascii) : bool :=
  existsb (Ascii.eqb c) l.

Definition quotes : list ascii := ["'"%char; "034"%char].

(** [r'^\s*(?:import|from)\s+([^\s,]+)'] *)
Definition py_import : re :=
  Seq Bol
   (Seq (Star space)
    (Seq (Alt (Lit "import") (Lit "from"))
     (Seq (Plus space)
          (Grp 1 (Plus (not_space_nor [","%char])))))).

(** [r'^\s*(?:import\s.*?from\s+[\'"]([^\'"]+)[\'"])|(?:require\([\'"]([^\'"]+)[\'"]\))'] *)
Definition js_import : re :=
  Alt
   (Seq Bol
    (Seq (Star space)
     (Seq (Lit "import")
      (Seq (Chr space)
       (Seq (LazyStar any_but_nl)
        (Seq (Lit "from")
         (Seq (Plus space)
          (Seq (Chr (one_of quotes))
           (Seq (Grp 1 (Plus (none_of quotes)))
                (Chr (one_of quotes)))))))))))
   (Seq (Lit "require(")
    (Seq (Chr (one_of quotes))
     (Seq (Grp 2 (Plus (none_of quotes)))
      (Seq (Chr (one_of quotes)) (Lit ")"))))).

(** [r'^\s*import\s+([^\s;]+);'] *)
Definition java_import : re :=
  Seq Bol
   (Seq (Star space)
    (Seq (Lit "import")
     (Seq (Plus space)
      (Seq (Grp 1 (Plus (not_space_nor [";"%char])))
           (Lit ";"))))).

End Re.

(* ================================================================== *)
(** ** [SnapshotGenerator]: the scan of one project *)

Module SnapshotGenerator.

Definition COMMON_AVOID_FOLDERS : list string :=
  [ "node_modules"; "venv"; "env"; "__pycache__"; "site-packages"; "myenv";
    "target"; "bin"; "build";
    "obj";
    "vendor"; ".git"; ".hg"; ".svn" ].

Definition COMMON_AVOID_FILES : list string :=
  [ "package-lock.json"; "yarn.lock"; "pnpm-lock.yaml"; "Cargo.lock";
    "Pipfile.lock"; "composer.lock"; ".DS_Store"; "thumbs.db"; "Thumbs.db";
    "npm-debug.log"; "yarn-error.log"; "Dockerfile"; "docker-compose.yml";
    ".env"; ".gitignore"; ".gitattributes"; "Makefile" ].

Definition KEY_FILES : list string :=
  [ "Dockerfile"; ".dockerignore"; "package.json"; "requirements.txt";
    "Pipfile"; "composer.json"; "Gemfile"; "build.gradle"; "pom.xml";
    "Cargo.toml"; "Makefile" ].

Definition INCLUDE_EXTENSIONS : list string :=
  [ ".js"; ".mjs"; ".jsx";
    ".ts"; ".tsx";
    ".py";
    ".java";
    ".cs"; ".csproj";
    ".cpp"; ".hpp"; ".h"; ".cc";
    ".c"; ".h";
    ".rb"; ".erb"; ".rake";
    ".php"; ".phtml"; ".php3"; ".php4"; ".php5"; ".phps";
    ".swift";
    ".kt"; ".kts";
    ".go";
    ".R"; ".r";
    ".pl"; ".pm"; ".t";
    ".sh"; ".bash";
    ".html"; ".htm";
    ".css"; ".scss"; ".sass"; ".less";
    ".sql";
    ".scala"; ".sc";
    ".hs"; ".lhs";
    ".lua";
    ".rs";
    ".dart";
    ".m";
    ".jl";
    ".vb"; ".vbs";
    ".asm"; ".s";
    ".fs"; ".fsi"; ".fsx";
    ".groovy"; ".gvy"; ".gy"; ".gsh";
    ".erl"; ".hrl";
    ".ex"; ".exs";
    ".cob"; ".cbl";
    ".f"; ".for"; ".f90"; ".f95";
    ".adb"; ".ads";
    ".pl"; ".pro"; ".P";
    ".lisp"; ".lsp";
    ".scm"; ".ss";
    ".rkt";
    ".v"; ".vh";
    ".vhdl"; ".vhd";
    ".md"; ".markdown";
    ".vue";
    ".svelte";
    ".ipynb";
    ".json";
    ".yaml"; ".yml";
    ".xml";
    ".gitignore"; ".gitattributes";
    ".travis.yml"; "Jenkinsfile"; ".circleci/config.yml"; ".gitlab-ci.yml";
    "azure-pipelines.yml" ].

Definition BINARY_EXTENSIONS : list string :=
  [ ".png"; ".jpg"; ".jpeg"; ".gif"; ".bmp"; ".pdf"; ".exe"; ".dll"; ".so";
    ".zip"; ".tar"; ".gz"; ".7z"; ".rar"; ".mp3"; ".mp4"; ".avi"; ".mov";
    ".wmv"; ".flv"; ".mkv"; ".iso"; ".jar"; ".war"; ".ear"; ".class"; ".o";
    ".obj"; ".pyc"; ".pyo"; ".apk"; ".dmg"; ".pkg"; ".app"; ".deb"; ".rpm";
    ".psd"; ".ai"; ".eps"; ".ps"; ".ttf"; ".woff"; ".woff2"; ".eot"; ".otf";
    ".ico"; ".icns"; ".swf"; ".fla"; ".cab"; ".sys"; ".msi"; ".msp"; ".msm";
    ".crx"; ".xpi"; ".vsix"; ".doc"; ".docx"; ".xls"; ".xlsx"; ".ppt";
    ".pptx"; ".odt"; ".ods"; ".odp"; ".odg"; ".odb"; ".odf"; ".rtf" ].

(** The part of the [config] dictionary that the scan reads. *)
Record config : Type := {
  root_dir : string;
  avoid_folders : list string;
  avoid_files : list string;
  include_extensions : list string;
  key_files : list string
}.

(** The configuration that [WorkTwinsDataSource.generate_json_report]
    builds for a project. *)
Definition default_config (project_path : string) : config := {|
  root_dir := project_path;
  avoid_folders := COMMON_AVOID_FOLDERS;
  avoid_files := COMMON_AVOID_FILES;
  include_extensions := INCLUDE_EXTENSIONS;
  key_files := KEY_FILES
|}.

Definition language_extensions : list (string * string) :=
  [ (".py", "Python");
    (".js", "JavaScript");
    (".java", "Java");
    (".cpp", "C++");
    (".c", "C");
    (".cs", "C#");
    (".php", "PHP");
    (".rb", "Ruby");
    (".go", "Go");
    (".swift", "Swift");
    (".ts", "TypeScript");
    (".kt", "Kotlin");
    (".rs", "Rust");
    (".dart", "Dart") ].

(** [detect_programming_language]: the extension is looked up as it is
    written, without lowering its case. *)
Definition detect_programming_language (filename : string) : option string :=
  Dict.get String.eqb (Path.splitext_ext filename) language_extensions.

(** The decision that [generate_context_data] takes for each file name
    before it opens the file.  The code processes a file when
    [extension in self.include_extensions or file in self.key_files]; the
    two ways of being included are told apart by the order of that
    disjunction. *)
Inductive outcome : Type := Skip | IncludeSource | IncludeKeyFile.

Definition classify (cfg : config) (file : string) : outcome :=
  if Text.mem file (avoid_files cfg) then Skip
  else
    let extension := Text.lower (Path.splitext_ext file) in
    if Text.mem extension BINARY_EXTENSIONS then Skip
    else if Text.mem extension (include_extensions cfg) then IncludeSource
    else if Text.mem file (key_files cfg) then IncludeKeyFile
    else Skip.

(** [self.imports[imp] += 1] *)
Definition count_import (imports : list (string * Z)) (imp : string)
  : list (string * Z) :=
  Dict.update String.eqb imp 0%Z (fun n => (n + 1)%Z) imports.

(** The names that [extract_imports] counts in one file, in order. *)
Definition imported_names (content extension : string) : list string :=
  if String.eqb extension ".py" then Re.findall1 Re.py_import content
  else if Text.mem extension [".js"; ".jsx"; ".ts"; ".tsx"] then
    filter (fun imp => negb (String.eqb imp EmptyString))
      (map (fun t => if String.eqb (fst t) EmptyString then snd t else fst t)
         (Re.findall2 Re.js_import content))
  else if String.eqb extension ".java" then
    Re.findall1 Re.java_import content
  else [].

Definition extract_imports (imports : list (string * Z))
  (content extension : string) : list (string * Z) :=
  fold_left count_import (imported_names content extension) imports.

(** [len(content.splitlines())] *)
Definition is_linebreak (c : ascii) : bool :=
  let n := Text.code c in
  (((10 <=? n) && (n <=? 13)) || ((28 <=? n) && (n <=? 30)) || (n =? 133))%N.

Fixpoint count_lines (s : list ascii) (pending : bool) : nat :=
  match s with
  | [] => if pending then 1 else 0
  | c :: s' =>
      if Ascii.eqb c "013"%char then
        match s' with
        | d :: s'' =>
            if Ascii.eqb d "010"%char then S (count_lines s'' false)
            else S (count_lines s' false)
        | [] => 1
        end
      else if is_linebreak c then S (count_lines s' false)
      else count_lines s' true
  end.

(** What the file system holds under the project root.  A file comes with
    what [open], [read] and [os.stat] give for it: its decoded text, size
    and formatted modification time, or the failure of one of them (any
    exception of the [try] block, all of which are raised before the
    record is appended). *)
Inductive read_result : Type :=
| ReadOk (content : string) (st_size : Z) (last_modified : string)
| ReadFails.

#[warnings="-register-all"]
Inductive node : Type :=
| File (name : string) (r : read_result)
| Dir (name : string) (entries : list node).

(** One file as [os.walk] hands it to the loop body. *)
Record visit : Type := {
  v_root : string;       (* [root] *)
  v_rel : string;        (* [root] relative to [root_dir] *)
  v_file : string;       (* [file] *)
  v_read : read_result
}.

(** [os.path.relpath] of an entry that the walk reaches, with respect to
    [root_dir]: the names of the directories below the root and the name
    of the entry, joined by the separator. *)
Definition rel_join (rel name : string) : string :=
  if String.eqb rel EmptyString then name else rel ++ "/" ++ name.

Definition files_of (top rel : string) (entries : list node) : list visit :=
  flat_map (fun e =>
              match e with
              | File f r =>
                  [{| v_root := top; v_rel := rel; v_file := f; v_read := r |}]
              | Dir _ _ => []
              end) entries.

(** [os.walk], top down: the files of a directory first, in listing order,
    then its subdirectories that are not in [avoid_folders]. *)
Fixpoint walk (avoid : list string) (top rel : string) (n : node)
  : list visit :=
  match n with
  | File _ _ => []
  | Dir _ entries =>
      files_of top rel entries ++
      flat_map (fun e =>
                  match e with
                  | Dir d _ =>
                      if Text.mem d avoid then []
                      else walk avoid (Path.join top d) (rel_join rel d) e
                  | File _ _ => []
                  end) entries
  end.

Record file_record : Type := {
  File_ : string;
  Full_Path : string;
  Relative_Path : string;
  Size : Z;
  Last_Modified : string;
  Lines : Z;
  Source_Code : string
}.

(** The state that the loop of [generate_context_data] updates. *)
Record scan_state : Type := {
  project_sources : list file_record;
  imports : list (string * Z);
  detected_language : option string
}.

Definition initial_state : scan_state := {|
  project_sources := [];
  imports := [];
  detected_language := None
|}.

(** [not self.detected_language] *)
Definition unset (l : option string) : bool :=
  match l with
  | None => true
  | Some s => String.eqb s EmptyString
  end.

(** The body of the loop over [files]. *)
Definition visit_file (cfg : config) (st : scan_state) (v : visit)
  : scan_state :=
  let file := v_file v in
  match classify cfg file with
  | Skip => st
  | IncludeSource | IncludeKeyFile =>
      let file_path := Path.join (v_root v) file in
      let extension := Text.lower (Path.splitext_ext file) in
      match v_read v with
      | ReadFails => st
      | ReadOk content st_size last_modified =>
          let source_data := {|
            File_ := file;
            Full_Path := file_path;
            Relative_Path := rel_join (v_rel v) file;
            Size := st_size;
            Last_Modified := last_modified;
            Lines := Z.of_nat (count_lines (Text.chars content) false);
            Source_Code := content
          |} in
          {| project_sources := project_sources st ++ [source_data];
             imports := extract_imports (imports st) content extension;
             detected_language :=
               if unset (detected_language st)
               then detect_programming_language file
               else detected_language st |}
      end
  end.

Record project_data : Type := {
  project_name : string;
  pd_project_sources : list file_record;
  external_libraries : list (string * Z);
  observations : list string;
  programming_language : string;
  file_count : Z
}.

Definition no_imports_note : string :=
  "No external libraries or imports were detected in the source code.".

(** [self.detected_language or 'unknown'] *)
Definition language_or_unknown (l : option string) : string :=
  match l with
  | None => "unknown"
  | Some s => if String.eqb s EmptyString then "unknown" else s
  end.

Definition finish (cfg : config) (st : scan_state) : project_data := {|
  project_name := Path.basename (root_dir cfg);
  pd_project_sources := project_sources st;
  external_libraries := imports st;
  observations :=
    match imports st with [] => [no_imports_note] | _ :: _ => [] end;
  programming_language := language_or_unknown (detected_language st);
  file_count := Z.of_nat (List.length (project_sources st))
|}.

Definition scan_visits (cfg : config) (vs : list visit) : scan_state :=
  fold_left (visit_file cfg) vs initial_state.

(** The files of the project in walk order. *)
Definition walk_project (cfg : config) (entries : list node) : list visit :=
  walk (avoid_folders cfg) (root_dir cfg) EmptyString
    (Dir EmptyString entries).

(** [generate_context_data] of a fresh generator, for a root directory
    that holds [entries]. *)
Definition generate_context_data (cfg : config) (entries : list node)
  : project_data :=
  finish cfg (scan_visits cfg (walk_project cfg entries)).

End SnapshotGenerator.

(* ================================================================== *)
(** ** JSON values as [json.load] returns them

    Numbers are integers, as in the snapshots that the generator writes
    ([file_count] and the counts of the imports are Python [int]s); an
    object is the list of the items of the [dict].  A document that holds
    a number with a fraction or an exponent, [Infinity] or [NaN], which
    [json.load] returns as a [float], is outside this model: what is
    proved of a listing of snapshot files is proved of files whose
    numbers are integers. *)

Module Json.

#[warnings="-register-all"]
Inductive json : Type :=
| JNull
| JBool (b : bool)
| JNum (n : Z)
| JStr (s : string)
| JArr (l : list json)
| JObj (kvs : list (string * json)).

(** [key in j]; [None] stands for the [TypeError] of a value that is not
    a container. *)
Definition py_in (key : string) (j : json) : option bool :=
  match j with
  | JObj kvs => Some (Dict.has String.eqb key kvs)
  | JArr l =>
      Some (existsb (fun e => match e with
                              | JStr s => String.eqb s key
                              | _ => false
                              end) l)
  | JStr s => Some (Text.contains key s)
  | JNull | JBool _ | JNum _ => None
  end.

(** [j.get(key, dflt)]; [None] stands for the [AttributeError] of a value
    that is not a [dict]. *)
Definition py_get (key : string) (dflt : json) (j : json) : option json :=
  match j with
  | JObj kvs =>
      Some (match Dict.get String.eqb key kvs with
            | Some v => v
            | None => dflt
            end)
  | _ => None
  end.

(** [j.lower()] *)
Definition py_lower (j : json) : option string :=
  match j with
  | JStr s => Some (Text.lower s)
  | _ => None
  end.

(** [n + j] for an [int] on the left *)
Definition py_add (n : Z) (j : json) : option Z :=
  match j with
  | JNum m => Some (n + m)%Z
  | JBool b => Some (n + (if b then 1 else 0))%Z
  | _ => None
  end.

(** The items that [for x in j] goes through. *)
Definition py_iter (j : json) : option (list json) :=
  match j with
  | JArr l => Some l
  | JObj kvs => Some (map (fun kv => JStr (fst kv)) kvs)
  | JStr s =>
      Some (map (fun c => JStr (String c EmptyString)) (Text.chars s))
  | JNull | JBool _ | JNum _ => None
  end.

(** Values that can be keys of a [dict] *)
Definition hashable (j : json) : bool :=
  match j with
  | JArr _ | JObj _ => false
  | _ => true
  end.

(** Equality of keys: [True == 1] and [False == 0]. *)
Definition key_eqb (a b : json) : bool :=
  match a, b with
  | JNull, JNull => true
  | JStr s, JStr t => String.eqb s t
  | JNum n, JNum m => Z.eqb n m
  | JBool x, JBool y => Bool.eqb x y
  | JBool x, JNum m | JNum m, JBool x => Z.eqb m (if x then 1 else 0)
  | _, _ => false
  end.

(** [len(j)]; [None] stands for the [TypeError] of a value without a
    length. *)
Definition py_len (j : json) : option Z :=
  match j with
  | JStr s => Some (Z.of_nat (String.length s))
  | JArr l => Some (Z.of_nat (List.length l))
  | JObj kvs => Some (Z.of_nat (List.length kvs))
  | JNull | JBool _ | JNum _ => None
  end.

(** The truth value of [j] in a condition. *)
Definition py_truth (j : json) : bool :=
  match j with
  | JNull => false
  | JBool b => b
  | JNum n => negb (n =? 0)%Z
  | JStr s => negb (String.eqb s EmptyString)
  | JArr l => match l with [] => false | _ :: _ => true end
  | JObj kvs => match kvs with [] => false | _ :: _ => true end
  end.

(** [j[0]] and [j[key]] for a string [key]; [None] stands for the
    [IndexError], [KeyError] or [TypeError]. *)
Definition py_first (j : json) : option json :=
  match j with
  | JArr (x :: _) => Some x
  | JStr (String c _) => Some (JStr (String c EmptyString))
  | _ => None
  end.

Definition py_item (key : string) (j : json) : option json :=
  match j with
  | JObj kvs => Dict.get String.eqb key kvs
  | _ => None
  end.

End Json.

(* ================================================================== *)
(** ** [WorkTwinsDataSource.aggregate_snapshots] *)

Module WorkTwinsDataSource.

Import Json.

(** The two dictionaries that the loop over the snapshot files updates. *)
Record agg_state : Type := {
  imports_agg : list (string * list (json * Z));
  file_counts : list (string * Z)
}.

Definition empty_state : agg_state :=
  {| imports_agg := []; file_counts := [] |}.

(** Statements that update the dictionaries and may raise: the state
    that comes back is the one at the point of the exception. *)
Definition M (A : Type) : Type := agg_state -> agg_state * option A.

Definition ret {A} (a : A) : M A := fun st => (st, Some a).
Definition raise {A} : M A := fun st => (st, None).
Definition bind {A B} (c : M A) (k : A -> M B) : M B :=
  fun st =>
    match c st with
    | (st', Some a) => k a st'
    | (st', None) => (st', None)
    end.
Definition lift {A} (o : option A) : M A :=
  match o with
  | Some a => ret a
  | None => raise
  end.
Definition assert (b : bool) : M unit := if b then ret tt else raise.
Definition modify (f : agg_state -> agg_state) : M unit :=
  fun st => (f st, Some tt).
Definition gets {A} (f : agg_state -> A) : M A := fun st => (st, Some (f st)).

Notation "x <- c ;; k" := (bind c (fun x => k))
  (at level 61, c at next level, right associativity).
Notation "c ;;; k" := (bind c (fun _ => k))
  (at level 61, right associativity).

(** [for x in l: body x] *)
Fixpoint for_each {A} (l : list A) (body : A -> M unit) : M unit :=
  match l with
  | [] => ret tt
  | x :: l' => body x ;;; for_each l' body
  end.

Definition set_file_counts (f : list (string * Z) -> list (string * Z))
  : M unit :=
  modify (fun st =>
            {| imports_agg := imports_agg st;
               file_counts := f (file_counts st) |}).

Definition set_imports_agg
  (f : list (string * list (json * Z)) -> list (string * list (json * Z)))
  : M unit :=
  modify (fun st =>
            {| imports_agg := f (imports_agg st);
               file_counts := file_counts st |}).

(** [file_counts[lang] += file_count]: the read inserts the default
    before the addition can fail. *)
Definition add_file_count (lang : string) (file_count : json) : M unit :=
  set_file_counts (Dict.touch String.eqb lang 0%Z) ;;;
  cur <- gets (fun st =>
                 match Dict.get String.eqb lang (file_counts st) with
                 | Some n => n
                 | None => 0%Z
                 end) ;;
  new <- lift (py_add cur file_count) ;;
  set_file_counts (Dict.update String.eqb lang 0%Z (fun _ => new)).

(** [imports_agg[lang][import_name] += count]: the outer read, the inner
    read and the addition, in that order. *)
Definition add_import (lang : string) (import_name count : json) : M unit :=
  set_imports_agg (Dict.touch String.eqb lang []) ;;;
  assert (hashable import_name) ;;;
  set_imports_agg
    (Dict.update String.eqb lang [] (Dict.touch key_eqb import_name 0%Z)) ;;;
  cur <- gets (fun st =>
                 match Dict.get String.eqb lang (imports_agg st) with
                 | Some libs =>
                     match Dict.get key_eqb import_name libs with
                     | Some n => n
                     | None => 0%Z
                     end
                 | None => 0%Z
                 end) ;;
  new <- lift (py_add cur count) ;;
  set_imports_agg
    (Dict.update String.eqb lang []
       (Dict.update key_eqb import_name 0%Z (fun _ => new))).

(** The body of the loop over [external_libraries]. *)
Definition aggregate_library (lang : string) (lib : json) : M unit :=
  match lib with
  | JObj kvs =>
      match Dict.get String.eqb "import_name" kvs,
            Dict.get String.eqb "count" kvs with
      | Some import_name, Some count => add_import lang import_name count
      | _, _ => ret tt
      end
  | _ => ret tt
  end.

(** The body of the [try] for one snapshot that was opened and parsed. *)
Definition aggregate_project (project_data : json) : M unit :=
  (has <- lift (py_in "programming_language" project_data) ;; assert has) ;;;
  (has <- lift (py_in "file_count" project_data) ;; assert has) ;;;
  (has <- lift (py_in "external_libraries" project_data) ;; assert has) ;;;
  v <- lift (py_get "programming_language" (JStr EmptyString) project_data) ;;
  programming_language <- lift (py_lower v) ;;
  if String.eqb programming_language EmptyString then ret tt
  else
    file_count <- lift (py_get "file_count" (JNum 0) project_data) ;;
    add_file_count programming_language file_count ;;;
    external_libraries <-
      lift (py_get "external_libraries" (JArr []) project_data) ;;
    libs <- lift (py_iter external_libraries) ;;
    for_each libs (aggregate_library programming_language).

(** One entry of the snapshot directory: its name, and what opening and
    parsing it gives ([None] when either raises). *)
Definition snapshot_file : Type := (string * option json)%type.

Definition is_snapshot_name (file : string) : bool :=
  Text.contains "_snapshot_" file && Text.endswith file ".json".

(** The body of the loop over [os.listdir]: every exception is caught and
    logged, the dictionaries stay as they were when it was raised. *)
Definition aggregate_file (st : agg_state) (f : snapshot_file) : agg_state :=
  if is_snapshot_name (fst f) then
    match snd f with
    | Some project_data => fst (aggregate_project project_data st)
    | None => st
    end
  else st.

(** A stable sort by decreasing key, as [sorted(..., reverse=True)] and
    [list.sort(reverse=True)] are. *)
Section Sort.
Context {A : Type} (key : A -> Z).

Fixpoint insert_desc (x : A) (l : list A) : list A :=
  match l with
  | [] => [x]
  | y :: l' =>
      if (key y <=? key x)%Z then x :: y :: l' else y :: insert_desc x l'
  end.

Definition sort_desc (l : list A) : list A := fold_right insert_desc [] l.

End Sort.

Record language_summary : Type := {
  programming_language : string;
  libraries_used : list (json * Z);
  file_count : Z
}.

(** [file_counts[lang]] on the [defaultdict] *)
Definition file_count_of (st : agg_state) (lang : string) : Z :=
  match Dict.get String.eqb lang (file_counts st) with
  | Some n => n
  | None => 0%Z
  end.

Definition summarize (st : agg_state) (entry : string * list (json * Z))
  : language_summary :=
  {| programming_language := fst entry;
     libraries_used := sort_desc snd (snd entry);
     file_count := file_count_of st (fst entry) |}.

(** The report is built from the items of [imports_agg]. *)
Definition overall_data (st : agg_state) : list language_summary :=
  sort_desc file_count (map (summarize st) (imports_agg st)).

(** [aggregate_snapshots] over the entries of the snapshot directory in
    listing order. *)
Definition aggregate_snapshots (listing : list snapshot_file)
  : list language_summary :=
  overall_data (fold_left aggregate_file listing empty_state).

(** *** Progress of [generate_json_report] *)

(** [float(k)] for an [int] below 2^53, the range in which the true
    division of two [int]s is the binary64 division of their conversions,
    and [int(x)] for a [float], which truncates and raises on an infinity
    or a NaN. *)
Definition float_of_int (k : Z) : spec_float :=
  binary_normalize 53 1024 k 0 false.

Definition int_of_float (x : spec_float) : option Z :=
  match x with
  | S754_zero _ => Some 0%Z
  | S754_finite s m e =>
      Some (cond_Zopp s
              (if (0 <=? e)%Z then (Zpos m * 2 ^ e)%Z
               else Z.quot (Zpos m) (2 ^ (- e))))
  | S754_infinity _ | S754_nan => None
  end.

(** [int((self.scanned_projects / self.total_projects) * 100)] *)
Definition progress_value (scanned_projects total_projects : Z) : option Z :=
  int_of_float
    (SFmul 53 1024
       (SFdiv 53 1024 (float_of_int scanned_projects)
          (float_of_int total_projects))
       (float_of_int 100)).

(** A data source when [generate_json_report] is called on it for the
    first time: the top-level directories under [source_code_dir], whether
    a progress callback was given, and whether [__init__] set [compress],
    [amount_of_chunks] and [size_of_chunk]. *)
Record data_source : Type := {
  source_code_dir : string;
  top_level_dirs : list string;
  has_progress_callback : bool;
  has_chunk_settings : bool
}.

Definition GitHubDataSource (dir : string) (dirs : list string)
  (callback : bool) : data_source :=
  {| source_code_dir := dir; top_level_dirs := dirs;
     has_progress_callback := callback; has_chunk_settings := true |}.

Definition LocalFoldersDataSource (dir : string) (dirs : list string)
  (callback : bool) : data_source :=
  {| source_code_dir := dir; top_level_dirs := dirs;
     has_progress_callback := callback; has_chunk_settings := true |}.

Definition GitLabDataSource (dir : string) (dirs : list string)
  (callback : bool) : data_source :=
  {| source_code_dir := dir; top_level_dirs := dirs;
     has_progress_callback := callback; has_chunk_settings := false |}.

(** [scan_projects] *)
Definition scan_projects (ds : data_source) : list string :=
  match top_level_dirs ds with
  | [] => [source_code_dir ds]
  | dirs => map (Path.join (source_code_dir ds)) dirs
  end.

(** What a run leaves behind: the values passed to the callback and the
    log of the snapshot generations, in order, and whether the loop came
    to its end or an exception left it. *)
Inductive ending : Type := Finished | Raised.

Record progress_run : Type := {
  reported : list Z;
  generation_log : list (string * bool);
  run_ending : ending
}.

(** The loop over [self.projects].  [generates p] tells whether the
    snapshot generation of project [p] succeeds; its exceptions are caught
    and logged. *)
Fixpoint report_loop (ds : data_source) (generates : string -> bool)
  (total_projects : Z) (projects : list string) (scanned_projects : Z)
  (reported : list Z) (log : list (string * bool)) : progress_run :=
  match projects with
  | [] =>
      {| reported := reported; generation_log := log;
         run_ending := Finished |}
  | project_path :: rest =>
      if negb (has_chunk_settings ds) then
        (* [self.compress] while the [config] is built *)
        {| reported := reported; generation_log := log;
           run_ending := Raised |}
      else
        let log := log ++ [(project_path, generates project_path)] in
        let scanned_projects := (scanned_projects + 1)%Z in
        if has_progress_callback ds && (0 <? total_projects)%Z then
          match progress_value scanned_projects total_projects with
          | Some progress_value =>
              report_loop ds generates total_projects rest scanned_projects
                (reported ++ [progress_value]) log
          | None =>
              {| reported := reported; generation_log := log;
                 run_ending := Raised |}
          end
        else
          report_loop ds generates total_projects rest scanned_projects
            reported log
  end.

Definition generate_json_report (ds : data_source)
  (generates : string -> bool) : progress_run :=
  let projects := scan_projects ds in
  report_loop ds generates (Z.of_nat (List.length projects)) projects 0%Z
    [] [].

(** *** The counters of the object

    [__init__] sets [projects] to the empty list and both counters to
    zero; [scan_projects] appends to [projects] and [generate_json_report]
    goes on counting in [scanned_projects], so a later call on the same
    object starts from what the earlier one left. *)
Record counters : Type := {
  projects : list string;
  total_projects : Z;
  scanned_projects : Z
}.

(** The object after [__init__]. *)
Definition initial_counters : counters :=
  {| projects := []; total_projects := 0; scanned_projects := 0 |}.

(** [scan_projects] on an object in state [c]. *)
Definition scan_projects_on (ds : data_source) (c : counters) : counters :=
  let appended :=
    projects c ++ map (Path.join (source_code_dir ds)) (top_level_dirs ds) in
  let projects :=
    match appended with
    | [] => [source_code_dir ds]
    | _ :: _ => appended
    end in
  {| projects := projects;
     total_projects := Z.of_nat (List.length projects);
     scanned_projects := scanned_projects c |}.

(** The loop over [self.projects], with the value of
    [self.scanned_projects] when it is left. *)
Fixpoint report_loop_on (ds : data_source) (generates : string -> bool)
  (total_projects : Z) (projects : list string) (scanned_projects : Z)
  (reported : list Z) (log : list (string * bool)) : Z * progress_run :=
  match projects with
  | [] =>
      (scanned_projects,
       {| reported := reported; generation_log := log;
          run_ending := Finished |})
  | project_path :: rest =>
      if negb (has_chunk_settings ds) then
        (scanned_projects,
         {| reported := reported; generation_log := log;
            run_ending := Raised |})
      else
        let log := log ++ [(project_path, generates project_path)] in
        let scanned_projects := (scanned_projects + 1)%Z in
        if has_progress_callback ds && (0 <? total_projects)%Z then
          match progress_value scanned_projects total_projects with
          | Some progress_value =>
              report_loop_on ds generates total_projects rest
                scanned_projects (reported ++ [progress_value]) log
          | None =>
              (scanned_projects,
               {| reported := reported; generation_log := log;
                  run_ending := Raised |})
          end
        else
          report_loop_on ds generates total_projects rest scanned_projects
            reported log
  end.

(** [generate_json_report] on an object in state [c]: the state it leaves
    and what the run reports. *)
Definition generate_json_report_on (ds : data_source)
  (generates : string -> bool) (c : counters) : counters * progress_run :=
  let c1 := scan_projects_on ds c in
  let (scanned, run) :=
    report_loop_on ds generates (total_projects c1) (projects c1)
      (scanned_projects c1) [] [] in
  ({| projects := projects c1;
      total_projects := total_projects c1;
      scanned_projects := scanned |}, run).

(** *** The files of a run

    The directories that [__init__] sets, and the name under which
    [generate_json_report] has the snapshot of a project written:
    [f"{project_name}_snapshot_{timestamp}.json"] in the directory of the
    temporary snapshots, [project_name] being the base name of the
    project's path and [timestamp] the minute at which the run started. *)
Definition temp_snapshots_dir : string := "com_worktwins_data_tmp".
Definition reports_dir : string := "com_worktwins_data_reports".

Definition snapshot_file_name (project_path timestamp : string) : string :=
  Path.basename project_path ++ "_snapshot_" ++ timestamp ++ ".json".

Definition snapshot_file_path (project_path timestamp : string) : string :=
  Path.join temp_snapshots_dir (snapshot_file_name project_path timestamp).

(** [is_external_library] *)
Definition EXCLUDE_SUBSTRINGS : list string :=
  [ "com_goldenthinker_";
    "brainboost";
    "goldenthinker";
    "smartband";
    "papitomarket";
    "pelucadorada";
    "formate" ].

Fixpoint excluded_by (substrings : list string) (lib_name : string) : bool :=
  match substrings with
  | [] => false
  | substring :: rest =>
      if Text.contains (Text.lower substring) (Text.lower lib_name) then true
      else excluded_by rest lib_name
  end.

Definition is_external_library (lib_name : string) : bool :=
  negb (excluded_by EXCLUDE_SUBSTRINGS lib_name).

(** The report that [generate_json_report] dumps: [overall_summary]. *)
Definition library_used_json (e : json * Z) : json :=
  JObj [("library_name", fst e); ("times_imported", JNum (snd e))].

Definition language_summary_json (s : language_summary) : json :=
  JObj [("programming_language", JStr (programming_language s));
        ("libraries_used", JArr (map library_used_json (libraries_used s)));
        ("file_count", JNum (file_count s))].

Definition overall_summary (github_user_name : string)
  (aggregated_data : list language_summary) : json :=
  JObj [("github_user_name", JStr github_user_name);
        ("programming_languages",
         JArr (map language_summary_json aggregated_data))].

End WorkTwinsDataSource.

(* ================================================================== *)
(** ** The snapshot file of a project

    [generate_context_file] dumps the dictionary that
    [generate_context_data] returns; [aggregate_snapshots] loads it. *)

Module Snapshot.

Import Json SnapshotGenerator.

Definition file_record_json (r : file_record) : json :=
  JObj [("file",
         JObj [("File", JStr (File_ r));
               ("Full Path", JStr (Full_Path r));
               ("Relative Path", JStr (Relative_Path r));
               ("Size", JNum (Size r));
               ("Last Modified", JStr (Last_Modified r));
               ("Lines", JNum (Lines r));
               ("Source_Code", JStr (Source_Code r))])].

Definition library_json (e : string * Z) : json :=
  JObj [("import_name", JStr (fst e)); ("count", JNum (snd e))].

Definition to_json (d : project_data) : json :=
  JObj [("project_name", JStr (project_name d));
        ("project_sources", JArr (map file_record_json (pd_project_sources d)));
        ("external_libraries", JArr (map library_json (external_libraries d)));
        ("observations", JArr (map JStr (observations d)));
        ("programming_language", JStr (programming_language d));
        ("file_count", JNum (file_count d))].

(** The value of a field of a snapshot on disk *)
Definition field (name : string) (snapshot : json) : option json :=
  match snapshot with
  | JObj kvs => Dict.get String.eqb name kvs
  | _ => None
  end.

(** The snapshot that a scan of the project writes. *)
Definition written (cfg : config) (entries : list node) : json :=
  to_json (generate_context_data cfg entries).

End Snapshot.

(* ================================================================== *)
(** ** [GitLabDataSource]: cloning and updating the repositories

    [git] is run through [subprocess.run]; what it answers is given from
    outside, for each repository in turn. *)

Module GitLab.

Import Json WorkTwinsDataSource.

(** [s.replace(old, new)] for an [old] that is not empty: the occurrences
    are taken from left to right and do not overlap.  [skip] counts the
    characters of the occurrence just replaced that are still to be
    passed. *)
Fixpoint replace_from (old new s : list ascii) (skip : nat) : list ascii :=
  match s with
  | [] => []
  | c :: s' =>
      match skip with
      | S k => replace_from old new s' k
      | O =>
          match Text.strip_prefix old s with
          | Some _ => new ++ replace_from old new s' (List.length old - 1)
          | None => c :: replace_from old new s' 0
          end
      end
  end.

Definition replace (old new s : string) : string :=
  Text.text (replace_from (Text.chars old) (Text.chars new) (Text.chars s) 0).

(** [s.split('/')[-1]]: what follows the last separator. *)
Definition last_segment (s : string) : string :=
  Text.from (Text.rfind "/"%char s + 1) s.

(** [s.strip()] *)
Definition strip (s : string) : string :=
  Text.text
    (rev (Text.drop_while Text.py_isspace
            (rev (Text.drop_while Text.py_isspace (Text.chars s))))).

(** [repo_url.split('/')[-1].replace('.git', '')] *)
Definition repo_name (repo_url : string) : string :=
  replace ".git" EmptyString (last_segment repo_url).

Definition repo_path (repo_url dest_dir : string) : string :=
  Path.join dest_dir (repo_name repo_url).

(** What [subprocess.run] gives: the return code and the decoded standard
    output of a command that was started, or the exception of one that
    could not be. *)
Inductive run_result : Type :=
| Completed (returncode : Z) (stdout : string)
| NotStarted.

(** What the environment answers while one repository is handled:
    whether its directory exists, and the outcome of each [git] command
    that may be run, the last two depending on the branch. *)
Record answers : Type := {
  path_exists : bool;
  git_clone : run_result;
  git_fetch : run_result;
  git_symbolic_ref : run_result;
  git_checkout : string -> run_result;
  git_pull : string -> run_result
}.

(** How [_clone_or_update_repo] goes before it counts the repository:
    it reaches the count, returns early, or an exception leaves it. *)
Inductive step : Type := Counted | Returned | Failed.

Definition on_success (r : run_result) (k : step) : step :=
  match r with
  | Completed returncode _ => if (returncode =? 0)%Z then k else Returned
  | NotStarted => Failed
  end.

Definition clone_or_update (a : answers) : step :=
  if negb (path_exists a) then on_success (git_clone a) Counted
  else
    on_success (git_fetch a)
      match git_symbolic_ref a with
      | NotStarted => Failed
      | Completed returncode stdout =>
          let default_branch :=
            if (returncode =? 0)%Z then last_segment (strip stdout)
            else "master" in
          on_success (git_checkout a default_branch)
            (on_success (git_pull a default_branch) Counted)
      end.

(** The two counters of the object, and what was passed to the
    callback. *)
Record progress : Type := {
  total_repos : Z;
  cloned_repos : Z;
  reported : list Z
}.

(** [_clone_repos]: the loop over [clone_urls], each with the answers of
    the environment during its turn.  [None] is an exception that leaves
    the loop: of [subprocess.run], or of the computation of the
    percentage. *)
Fixpoint clone_repos (has_progress_callback : bool)
  (turns : list (string * answers)) (p : progress) : progress * ending :=
  match turns with
  | [] => (p, Finished)
  | (repo_url, a) :: rest =>
      match clone_or_update a with
      | Failed => (p, Raised)
      | Returned => clone_repos has_progress_callback rest p
      | Counted =>
          let cloned := (cloned_repos p + 1)%Z in
          if has_progress_callback then
            match
              (if (total_repos p =? 0)%Z then None
               else progress_value cloned (total_repos p))
            with
            | Some progress_value =>
                clone_repos has_progress_callback rest
                  {| total_repos := total_repos p;
                     cloned_repos := cloned;
                     reported := reported p ++ [progress_value] |}
            | None =>
                ({| total_repos := total_repos p;
                    cloned_repos := cloned;
                    reported := reported p |}, Raised)
            end
          else
            clone_repos has_progress_callback rest
              {| total_repos := total_repos p;
                 cloned_repos := cloned;
                 reported := reported p |}
      end
  end.

(** [fetch_data], once the list of the repositories is known. *)
Definition fetch_data (has_progress_callback : bool)
  (turns : list (string * answers)) : progress * ending :=
  let repo_count := Z.of_nat (List.length turns) in
  let p := {| total_repos := repo_count; cloned_repos := 0; reported := [] |} in
  if (0 <? repo_count)%Z then clone_repos has_progress_callback turns p
  else (p, Finished).

(** *** The list of the repositories

    What [requests.get] answers is given from outside: for the look-up of
    a user by name, and for each page of the projects of a user id.  A
    response is its status code and what [response.json()] gives. *)
Record response : Type := {
  status_code : Z;
  body : json
}.

Record api : Type := {
  users_by_name : string -> response;
  projects_page : json -> nat -> response
}.

(** How a method ends: with a value, with an exception, or not within
    the number of requests that the model allows for. *)
Inductive outcome (A : Type) : Type :=
| Returns (a : A)
| Raises
| Unfinished.
Arguments Returns {A} a.
Arguments Raises {A}.
Arguments Unfinished {A}.

Definition or_raise {A B} (o : option A) (k : A -> outcome B) : outcome B :=
  match o with
  | Some a => k a
  | None => Raises
  end.

(** [_get_user_id]: the id of the first user found, or [None]. *)
Definition get_user_id (g : api) (username : string)
  : outcome (option json) :=
  let response := users_by_name g username in
  if (status_code response =? 200)%Z && py_truth (body response) then
    or_raise (py_first (body response)) (fun user =>
    or_raise (py_item "id" user) (fun id => Returns (Some id)))
  else Returns None.

(** The [while True] loop over the pages of one user.  [page_repos] is
    the local variable of that name, [None] while it is not bound; it is
    not reset from one user to the next. *)
Fixpoint pages (requests : nat) (g : api) (user_id : json) (page : nat)
  (all_repos : list json) (page_repos : option json)
  : outcome (list json * option json) :=
  match requests with
  | O => Unfinished
  | S requests' =>
      let response := projects_page g user_id page in
      if negb (status_code response =? 200)%Z then
        Returns (all_repos, page_repos)
      else
        let page_repos := body response in
        if negb (py_truth page_repos) then
          Returns (all_repos, Some page_repos)
        else
          (* [all_repos.extend(page_repos)] *)
          or_raise (py_iter page_repos) (fun items =>
          pages requests' g user_id (S page) (all_repos ++ items)
            (Some page_repos))
  end.

(** [_get_list_of_repositories_for_usernames]; [requests] bounds the
    number of page requests for each user. *)
Fixpoint list_of_repositories (requests : nat) (g : api)
  (usernames : list string) (all_repos : list json)
  (page_repos : option json) : outcome (list json) :=
  match usernames with
  | [] => Returns all_repos
  | username :: rest =>
      match get_user_id g username with
      | Raises => Raises
      | Unfinished => Unfinished
      | Returns user_id =>
          match user_id with
          | Some id =>
              if py_truth id then
                match pages requests g id 1 all_repos page_repos with
                | Raises => Raises
                | Unfinished => Unfinished
                | Returns (all_repos, page_repos) =>
                    (* [len(page_repos)] in the message that is logged *)
                    or_raise page_repos (fun bound =>
                    or_raise (py_len bound) (fun _ =>
                    list_of_repositories requests g rest all_repos
                      page_repos))
                end
              else list_of_repositories requests g rest all_repos page_repos
          | None => list_of_repositories requests g rest all_repos page_repos
          end
      end
  end.

Fixpoint clone_urls_of (repos : list json) : option (list json) :=
  match repos with
  | [] => Some []
  | repo :: rest =>
      match py_item "http_url_to_repo" repo, clone_urls_of rest with
      | Some url, Some urls => Some (url :: urls)
      | _, _ => None
      end
  end.

(** [_get_gitlab_repos]: the number of the repositories and their URLs. *)
Definition get_gitlab_repos (requests : nat) (g : api)
  (usernames : list string) : outcome (Z * list json) :=
  match list_of_repositories requests g usernames [] None with
  | Raises => Raises
  | Unfinished => Unfinished
  | Returns repos =>
      or_raise (clone_urls_of repos) (fun clone_urls =>
      Returns (Z.of_nat (List.length clone_urls), clone_urls))
  end.

End GitLab.

(* ================================================================== *)
(** ** [TechReporter.generate_pdf_report]

    The calls to [FPDF] are kept as the list of the cells that are
    written, each with the values that its text is formatted from; they
    are taken to succeed, except [pdf.output], whose failure is caught. *)

Module TechReporter.

Import Json.

(** An entry of [reports_dir]: its name, its modification time, and what
    opening and parsing it gives ([None] when either raises). *)
Record report_file : Type := {
  name : string;
  mtime : Z;
  content : option json
}.

Definition is_report_name (f : string) : bool :=
  Text.startswith f "report_" && Text.endswith f ".json".

(** [max(l, key=...)]: the first of the entries with the greatest key. *)
Fixpoint max_by_mtime (best : report_file) (l : list report_file)
  : report_file :=
  match l with
  | [] => best
  | f :: l' => max_by_mtime (if (mtime best <? mtime f)%Z then f else best) l'
  end.

Inductive cell : Type :=
| Title
| GeneratedOn
| Project (project_name : json)
| Language (programming_language : json)
| SourceFiles (number : Z)
| LibrariesHeading
| Library (import_name count : json)
| NoLibraries
| ObservationsHeading
| Observation (obs : json).

(** The cells written so far, and whether an exception was raised. *)
Definition W (A : Type) : Type := list cell -> list cell * option A.

Definition ret {A} (a : A) : W A := fun cells => (cells, Some a).
Definition bind {A B} (c : W A) (k : A -> W B) : W B :=
  fun cells =>
    match c cells with
    | (cells', Some a) => k a cells'
    | (cells', None) => (cells', None)
    end.
Definition lift {A} (o : option A) : W A :=
  fun cells => (cells, o).
Definition write (c : cell) : W unit := fun cells => (cells ++ [c], Some tt).

Notation "x <- c ;; k" := (bind c (fun x => k))
  (at level 61, c at next level, right associativity).
Notation "c ;;; k" := (bind c (fun _ => k))
  (at level 61, right associativity).

Fixpoint for_each {A} (l : list A) (body : A -> W unit) : W unit :=
  match l with
  | [] => ret tt
  | x :: l' => body x ;;; for_each l' body
  end.

Definition write_library (lib : json) : W unit :=
  import_name <- lift (py_get "import_name" (JStr "N/A") lib) ;;
  count <- lift (py_get "count" (JNum 0) lib) ;;
  write (Library import_name count).

(** The body of the loop over [data]. *)
Definition write_project (project : json) : W unit :=
  project_name <- lift (py_get "project_name" (JStr "N/A") project) ;;
  write (Project project_name) ;;;
  programming_language <-
    lift (py_get "programming_language" (JStr "N/A") project) ;;
  write (Language programming_language) ;;;
  project_sources <- lift (py_get "project_sources" (JArr []) project) ;;
  number <- lift (py_len project_sources) ;;
  write (SourceFiles number) ;;;
  external_libs <- lift (py_get "external_libraries" (JArr []) project) ;;
  (if py_truth external_libs then
     write LibrariesHeading ;;;
     libs <- lift (py_iter external_libs) ;;
     for_each libs write_library
   else write NoLibraries) ;;;
  observations <- lift (py_get "observations" (JArr []) project) ;;
  if py_truth observations then
    write ObservationsHeading ;;;
    items <- lift (py_iter observations) ;;
    for_each items (fun obs => write (Observation obs))
  else ret tt.

Inductive outcome : Type :=
| NoReportFound
| NotLoaded
| Raised (cells : list cell)
| Written (cells : list cell)
| NotWritten (cells : list cell).

(** [generate_pdf_report] over the listing of [reports_dir];
    [output_succeeds] tells whether [pdf.output] does. *)
Definition generate_pdf_report (listing : list report_file)
  (output_succeeds : bool) : outcome :=
  match filter (fun f => is_report_name (name f)) listing with
  | [] => NoReportFound
  | first :: others =>
      let latest_report := max_by_mtime first others in
      match content latest_report with
      | None => NotLoaded
      | Some data =>
          match
            (write Title ;;;
             write GeneratedOn ;;;
             projects <- lift (py_iter data) ;;
             for_each projects write_project) []
          with
          | (cells, None) => Raised cells
          | (cells, Some _) =>
              if output_succeeds then Written cells else NotWritten cells
          end
      end
  end.

End TechReporter.

(* ================================================================== *)
(** ** What the specification says, in its own words

    Definitions that follow the text of the specification, to be compared
    with the code above. *)

Module Spec.

Import SnapshotGenerator.

(** A file of the walk that the scan reads successfully: it passes the
    classifier and opening, decoding and [os.stat] succeed. *)
Definition successfully_read (cfg : config) (v : visit) : bool :=
  match classify cfg (v_file v), v_read v with
  | Skip, _ => false
  | _, ReadFails => false
  | _, ReadOk _ _ _ => true
  end.

(** "The file's extension (lowercased)": the extension under which the
    specification classifies a file and keys the import extractor, and
    from which it sets the language. *)
Definition extension (file : string) : string :=
  Text.lower (Path.splitext_ext file).

(** "Whose extension maps to a known language": the entry of the table of
    languages at the extension of the file. *)
Definition language_of (file : string) : option string :=
  Dict.get String.eqb (extension file) language_extensions.

(** "The language tag of the first file encountered whose extension maps
    to a known language". *)
Fixpoint first_mapped (vs : list visit) : option string :=
  match vs with
  | [] => None
  | v :: vs' =>
      match language_of (v_file v) with
      | Some l => Some l
      | None => first_mapped vs'
      end
  end.

Definition first_match_language (cfg : config) (vs : list visit)
  : option string :=
  first_mapped (filter (successfully_read cfg) vs).

(** "Lines matching [import X] or [from X import ...] at (optionally
    indented) line start; capture [X] up to first whitespace/comma."  A
    line is a piece of the content between line feeds. *)
Definition nl : string := String "010"%char EmptyString.

Definition join_lines (lines : list string) : string := String.concat nl lines.

Definition one_line (line : string) : bool :=
  forallb (fun c => negb (Re.is_nl c)) (Text.chars line).

Definition name_char (c : ascii) : bool :=
  negb (Text.py_isspace c) && negb (Ascii.eqb c ","%char).

Definition after_keyword (l : list ascii) : option (list ascii) :=
  match Text.strip_prefix (Text.chars "import") l with
  | Some r => Some r
  | None => Text.strip_prefix (Text.chars "from") l
  end.

(** The name [X] of a line that starts, after its indentation, with
    [import X] or [from X]. *)
Definition line_import (line : string) : option string :=
  match after_keyword (Text.drop_while Text.py_isspace (Text.chars line)) with
  | Some (c :: r) =>
      if Text.py_isspace c then
        match Text.take_while name_char (Text.drop_while Text.py_isspace r) with
        | [] => None
        | x => Some (Text.text x)
        end
      else None
  | _ => None
  end.

(** A line that holds a keyword and nothing after it but white space. *)
Definition bare_keyword (line : string) : bool :=
  match after_keyword (Text.drop_while Text.py_isspace (Text.chars line)) with
  | Some r => forallb Text.py_isspace r
  | None => false
  end.

(** A line of the content as the specification reads it: no line feed
    inside, and more on it than a keyword. *)
Definition plain_line (line : string) : bool :=
  one_line line && negb (bare_keyword line).

(** The names of the lines that import one, in order. *)
Fixpoint names_of (lines : list string) : list string :=
  match lines with
  | [] => []
  | l :: ls =>
      match line_import l with
      | Some X => X :: names_of ls
      | None => names_of ls
      end
  end.

(** The number of lines that import [X]. *)
Definition import_lines (X : string) (lines : list string) : nat :=
  List.length
    (filter (fun l => match line_import l with
                      | Some Y => String.eqb Y X
                      | None => false
                      end) lines).

(** [imports[X]] on the [defaultdict] *)
Definition count_of (X : string) (imports : list (string * Z)) : Z :=
  match Dict.get String.eqb X imports with
  | Some n => n
  | None => 0%Z
  end.

(** The language under which the specification groups a snapshot file:
    the lowered [programming_language] of a snapshot that has the three
    required fields. *)
Definition grouped_language (f : WorkTwinsDataSource.snapshot_file)
  : option string :=
  match snd f with
  | Some (Json.JObj kvs) =>
      if WorkTwinsDataSource.is_snapshot_name (fst f)
         && Dict.has String.eqb "programming_language" kvs
         && Dict.has String.eqb "file_count" kvs
         && Dict.has String.eqb "external_libraries" kvs
      then
        match Dict.get String.eqb "programming_language" kvs with
        | Some (Json.JStr s) =>
            if String.eqb (Text.lower s) EmptyString then None
            else Some (Text.lower s)
        | _ => None
        end
      else None
  | _ => None
  end.

(** Each string once, in the order of first occurrence. *)
Fixpoint first_seen (seen l : list string) : list string :=
  match l with
  | [] => []
  | x :: l' =>
      if Text.mem x seen then first_seen seen l'
      else x :: first_seen (x :: seen) l'
  end.

Fixpoint keep_some {A : Type} (l : list (option A)) : list A :=
  match l with
  | [] => []
  | Some a :: l' => a :: keep_some l'
  | None :: l' => keep_some l'
  end.

(** "One per distinct [detected_language] seen across all snapshots", in
    first-seen order. *)
Definition languages_seen (listing : list WorkTwinsDataSource.snapshot_file)
  : list string :=
  first_seen [] (keep_some (map grouped_language listing)).

(** A snapshot as the generator writes it, for the aggregator: the name
    of its file, its language, its number of files and its imports with
    their counts. *)
Record valid_snapshot : Type := {
  vs_file : string;
  vs_language : string;
  vs_file_count : Z;
  vs_libraries : list (string * Z)
}.

Definition snapshot_entry (s : valid_snapshot)
  : WorkTwinsDataSource.snapshot_file :=
  (vs_file s,
   Some (Json.JObj
           [("project_name", Json.JStr "p");
            ("project_sources", Json.JArr []);
            ("external_libraries",
             Json.JArr (map Snapshot.library_json (vs_libraries s)));
            ("observations", Json.JArr []);
            ("programming_language", Json.JStr (vs_language s));
            ("file_count", Json.JNum (vs_file_count s))])).

(** "Group valid snapshots by [detected_language] (case-normalized to
    lowercase)." *)
Definition group_of (s : valid_snapshot) : string :=
  Text.lower (vs_language s).

(** "Accumulate [file_count] sums ... across all snapshots of that
    language." *)
Fixpoint total_files (lang : string) (snaps : list valid_snapshot) : Z :=
  match snaps with
  | [] => 0%Z
  | s :: rest =>
      ((if String.eqb (group_of s) lang then vs_file_count s else 0)
       + total_files lang rest)%Z
  end.

Fixpoint total_count (name : string) (libs : list (string * Z)) : Z :=
  match libs with
  | [] => 0%Z
  | e :: rest =>
      ((if String.eqb (fst e) name then snd e else 0)
       + total_count name rest)%Z
  end.

(** "Merge [import_counts] maps by summing counts per identical key,
    across all snapshots of that language." *)
Fixpoint total_imports (lang name : string) (snaps : list valid_snapshot)
  : Z :=
  match snaps with
  | [] => 0%Z
  | s :: rest =>
      ((if String.eqb (group_of s) lang
        then total_count name (vs_libraries s) else 0)
       + total_imports lang name rest)%Z
  end.

(** The languages that have at least one import, each once, in the order
    in which their first import is seen. *)
Definition languages_with_libraries (snaps : list valid_snapshot)
  : list string :=
  first_seen []
    (map group_of
       (filter (fun s =>
                  negb (String.eqb (group_of s) EmptyString)
                  && match vs_libraries s with [] => false | _ :: _ => true end)
          snaps)).

(** The names of the imports of the snapshots of a language, in the order
    in which the snapshots list them, with their repetitions. *)
Definition imports_of (lang : string) (snaps : list valid_snapshot)
  : list string :=
  List.concat
    (map (fun s => if String.eqb (group_of s) lang
                   then map fst (vs_libraries s) else [])
       snaps).

(** The libraries of a language, each once, in the order in which they
    are first seen. *)
Definition library_names (lang : string) (snaps : list valid_snapshot)
  : list string :=
  first_seen [] (imports_of lang snaps).

End Spec.

(* ================================================================== *)
(** * Properties *)

Import SnapshotGenerator.

(** ** Text and paths *)

Lemma mem_In (x : string) (l : list string) : Text.mem x l = true <-> In x l.
Proof.
  unfold Text.mem. rewrite existsb_exists. split.
  - intros [y [Hy He]]. apply String.eqb_eq in He. now subst.
  - intros H. exists x. split; [assumption | apply String.eqb_refl].
Qed.

Example splitext_py : Path.splitext_ext "b.py" = ".py".
Proof. reflexivity. Qed.

Example splitext_tar_gz : Path.splitext_ext "a.tar.gz" = ".gz".
Proof. reflexivity. Qed.

Example splitext_hidden : Path.splitext_ext ".gitignore" = EmptyString.
Proof. reflexivity. Qed.

Example splitext_dir_dot : Path.splitext_ext "a.b/c" = EmptyString.
Proof. reflexivity. Qed.

Example join_plain : Path.join "proj" "a.py" = "proj/a.py".
Proof. reflexivity. Qed.

Example join_slash : Path.join "proj/" "a.py" = "proj/a.py".
Proof. reflexivity. Qed.

Example basename_ex : Path.basename "/home/u/proj" = "proj".
Proof. reflexivity. Qed.

(** ** The file classifier *)

Lemma classify_avoided cfg file :
  Text.mem file (avoid_files cfg) = true -> classify cfg file = Skip.
Proof. unfold classify. now intros ->. Qed.

Lemma classify_binary cfg file :
  Text.mem (Text.lower (Path.splitext_ext file)) BINARY_EXTENSIONS = true ->
  classify cfg file = Skip.
Proof.
  unfold classify. intros H.
  destruct (Text.mem file (avoid_files cfg)); [reflexivity |].
  now rewrite H.
Qed.

Lemma visit_skipped cfg st v :
  classify cfg (v_file v) = Skip -> visit_file cfg st v = st.
Proof. unfold visit_file. now intros ->. Qed.

(** C5. The classifier is total: every (path, file name) pair gets exactly
    one of the three outcomes.  Binary exclusion takes precedence: a file
    name that is not in the excluded-file list and whose lowered extension
    is in the binary set is skipped, whatever the include-extension set
    and the key-file list hold, and the scan passes over it. *)
Theorem classify_total_binary_precedence :
  forall (cfg : config) (path file : string),
    (exists! o : outcome, classify cfg file = o) /\
    (classify cfg file = Skip \/ classify cfg file = IncludeSource
     \/ classify cfg file = IncludeKeyFile) /\
    (Text.mem file (avoid_files cfg) = false ->
     Text.mem (Text.lower (Path.splitext_ext file)) BINARY_EXTENSIONS = true ->
     classify cfg file = Skip /\
     forall st rel r,
       visit_file cfg st
         {| v_root := path; v_rel := rel; v_file := file; v_read := r |} = st).
Proof.
  intros cfg path file. split; [| split].
  - exists (classify cfg file). split; [reflexivity | now intros o <-].
  - destruct (classify cfg file); auto.
  - intros _ Hbin. pose proof (classify_binary cfg file Hbin) as Hs.
    split; [assumption |]. intros st rel r. now apply visit_skipped.
Qed.

(** A configuration in which a binary extension is also an included
    extension and the file is also a key file. *)
Definition binary_clash_config : config := {|
  root_dir := "proj";
  avoid_folders := [];
  avoid_files := ["yarn.lock"];
  include_extensions := [".png"; ".py"];
  key_files := ["logo.PNG"]
|}.

Lemma classify_total_binary_precedence_witness :
  Text.mem ".png" (include_extensions binary_clash_config) = true /\
  Text.mem "logo.PNG" (key_files binary_clash_config) = true /\
  classify binary_clash_config "logo.PNG" = Skip.
Proof.
  split; [reflexivity | split; [reflexivity |]].
  apply (classify_total_binary_precedence binary_clash_config "proj"
           "logo.PNG"); reflexivity.
Defined.

(** Every file that the scan records passed the classifier. *)
Lemma sources_classified cfg vs :
  forall st,
    (forall r, In r (project_sources st) -> classify cfg (File_ r) <> Skip) ->
    forall r, In r (project_sources (fold_left (visit_file cfg) vs st)) ->
              classify cfg (File_ r) <> Skip.
Proof.
  induction vs as [| v vs IH]; intros st Hst r Hr; [now apply Hst |].
  simpl in Hr. revert Hr. apply IH. clear r. intros r Hr.
  unfold visit_file in Hr.
  destruct (classify cfg (v_file v)) eqn:Hc; [now apply Hst | |];
    (destruct (v_read v); [| now apply Hst]);
    simpl in Hr; apply in_app_or in Hr; destruct Hr as [Hr | [<- | []]];
    try (now apply Hst); simpl; congruence.
Qed.

(** C9. Under the default configuration ["Dockerfile"] and ["Makefile"] are
    in the excluded-file list and in the key-file list; the excluded-file
    check comes first, so a file with either name is skipped and no record
    of [project_sources] carries that name. *)
Theorem dockerfile_makefile_never_recorded :
  forall (name : string),
    name = "Dockerfile" \/ name = "Makefile" ->
    In name COMMON_AVOID_FILES /\ In name KEY_FILES /\
    (forall project_path,
        classify (default_config project_path) name = Skip) /\
    (forall project_path entries r,
        In r (pd_project_sources
                (generate_context_data (default_config project_path)
                   entries)) ->
        File_ r <> name).
Proof.
  intros name Hname.
  assert (Hav : Text.mem name COMMON_AVOID_FILES = true)
    by (destruct Hname as [-> | ->]; reflexivity).
  assert (Hkey : Text.mem name KEY_FILES = true)
    by (destruct Hname as [-> | ->]; reflexivity).
  split; [now apply mem_In | split; [now apply mem_In | split]].
  - intros project_path. now apply classify_avoided.
  - intros project_path entries r Hr Heq.
    unfold generate_context_data, finish, scan_visits in Hr. simpl in Hr.
    apply (sources_classified (default_config project_path)) in Hr.
    + apply Hr. rewrite Heq. now apply classify_avoided.
    + intros r' [].
Qed.

Definition docker_project : list node :=
  [ File "Dockerfile" (ReadOk "FROM python:3" 13 "2024-01-01 00:00:00");
    File "main.py" (ReadOk "import os" 9 "2024-01-01 00:00:00");
    Dir "src" [ File "Makefile" (ReadOk "all:" 4 "2024-01-01 00:00:00") ] ].

Lemma dockerfile_makefile_never_recorded_witness :
  map File_
    (pd_project_sources
       (generate_context_data (default_config "proj") docker_project))
  = ["main.py"] /\
  In "Dockerfile" COMMON_AVOID_FILES /\ In "Dockerfile" KEY_FILES.
Proof.
  split; [reflexivity |].
  destruct (dockerfile_makefile_never_recorded "Dockerfile" (or_introl eq_refl))
    as [Ha [Hk _]].
  split; assumption.
Defined.

(** ** Language detection *)

Lemma get_In {V : Type} (k : string) (d : list (string * V)) (v : V) :
  Dict.get String.eqb k d = Some v -> In v (map snd d).
Proof.
  induction d as [| [k' v'] d IH]; simpl; [discriminate |].
  destruct (String.eqb k' k).
  - intros [= ->]. now left.
  - intros H. right. now apply IH.
Qed.

Lemma detect_known file l :
  detect_programming_language file = Some l ->
  In l (map snd language_extensions).
Proof. apply get_In. Qed.

Lemma known_not_empty l :
  In l (map snd language_extensions) -> String.eqb l EmptyString = false.
Proof.
  simpl. intros H.
  repeat (destruct H as [<- | H]; [reflexivity |]). destruct H.
Qed.

Lemma detect_not_empty file l :
  detect_programming_language file = Some l ->
  String.eqb l EmptyString = false.
Proof. intros H. apply known_not_empty. now apply detect_known in H. Qed.

(** What a scan may hold as its language: nothing yet, or a value of
    [language_extensions]. *)
Definition language_ok (d : option string) : Prop :=
  match d with
  | None => True
  | Some l => In l (map snd language_extensions)
  end.

Lemma visit_language cfg st v :
  language_ok (detected_language st) ->
  detected_language (visit_file cfg st v) =
    match detected_language st with
    | Some l => Some l
    | None =>
        if Spec.successfully_read cfg v
        then detect_programming_language (v_file v)
        else None
    end.
Proof.
  intros Hok. unfold visit_file, Spec.successfully_read.
  destruct (detected_language st) as [l |] eqn:Hd.
  - simpl in Hok. apply known_not_empty in Hok.
    destruct (classify cfg (v_file v)); [assumption | |];
      (destruct (v_read v); [| assumption]); simpl; now rewrite Hok.
  - destruct (classify cfg (v_file v)); [assumption | |];
      (destruct (v_read v); [| assumption]); reflexivity.
Qed.

Lemma visit_language_ok cfg st v :
  language_ok (detected_language st) ->
  language_ok (detected_language (visit_file cfg st v)).
Proof.
  intros Hok. rewrite visit_language by assumption.
  destruct (detected_language st); [assumption |].
  destruct (Spec.successfully_read cfg v); [| exact I].
  destruct (detect_programming_language (v_file v)) eqn:Hd; [| exact I].
  simpl. now apply detect_known in Hd.
Qed.

Lemma fold_language_ok cfg vs :
  forall st,
    language_ok (detected_language st) ->
    language_ok (detected_language (fold_left (visit_file cfg) vs st)).
Proof.
  induction vs as [| v vs IH]; intros st Hok; [assumption |].
  simpl. apply IH. now apply visit_language_ok.
Qed.

Lemma scan_language_ok cfg vs :
  language_ok (detected_language (scan_visits cfg vs)).
Proof. apply fold_language_ok. exact I. Qed.

(** What the loop computes: the answer of [detect_programming_language]
    for the first file, among those read, for which it has one. *)
Fixpoint first_detected (vs : list visit) : option string :=
  match vs with
  | [] => None
  | v :: vs' =>
      match detect_programming_language (v_file v) with
      | Some l => Some l
      | None => first_detected vs'
      end
  end.

Definition first_detected_language (cfg : config) (vs : list visit)
  : option string :=
  first_detected (filter (Spec.successfully_read cfg) vs).

Lemma fold_first_match cfg vs :
  forall st,
    language_ok (detected_language st) ->
    detected_language (fold_left (visit_file cfg) vs st) =
      match detected_language st with
      | Some l => Some l
      | None => first_detected_language cfg vs
      end.
Proof.
  induction vs as [| v vs IH]; intros st Hok.
  - simpl. now destruct (detected_language st).
  - simpl. rewrite IH by now apply visit_language_ok.
    rewrite visit_language by assumption.
    destruct (detected_language st); [reflexivity |].
    unfold first_detected_language. simpl.
    destruct (Spec.successfully_read cfg v); [| reflexivity].
    simpl. now destruct (detect_programming_language (v_file v)).
Qed.

Lemma scan_first_detected cfg vs :
  detected_language (scan_visits cfg vs) = first_detected_language cfg vs.
Proof. unfold scan_visits. now rewrite fold_first_match. Qed.

(** The keys of [language_extensions] are in lower case, so a language
    that [detect_programming_language] finds is the one of the table at
    the lowered extension. *)
Lemma get_key_In {V : Type} (k : string) (d : list (string * V)) (v : V) :
  Dict.get String.eqb k d = Some v -> In k (map fst d).
Proof.
  induction d as [| [k' v'] d IH]; cbn; [discriminate |].
  destruct (String.eqb_spec k' k) as [-> | _]; [now left |].
  intros H. right. now apply IH.
Qed.

Lemma detected_extension_is_lower file l :
  detect_programming_language file = Some l ->
  Text.lower (Path.splitext_ext file) = Path.splitext_ext file.
Proof.
  unfold detect_programming_language. intros H. apply get_key_In in H.
  cbn in H.
  repeat (destruct H as [<- | H]; [reflexivity |]). contradiction.
Qed.

Lemma detected_is_mapped file l :
  detect_programming_language file = Some l ->
  Spec.language_of file = Some l.
Proof.
  intros H. unfold Spec.language_of, Spec.extension.
  rewrite (detected_extension_is_lower file l H). exact H.
Qed.

Lemma lowercase_extension_detected file :
  Text.lower (Path.splitext_ext file) = Path.splitext_ext file ->
  detect_programming_language file = Spec.language_of file.
Proof.
  intros H. unfold Spec.language_of, Spec.extension. now rewrite H.
Qed.

(** On files whose extensions are written in lower case the loop computes
    the first match of the specification. *)
Lemma first_detected_lowercase vs :
  (forall v, In v vs ->
     Text.lower (Path.splitext_ext (v_file v)) = Path.splitext_ext (v_file v)) ->
  first_detected vs = Spec.first_mapped vs.
Proof.
  induction vs as [| v vs IH]; intros H; [reflexivity |].
  cbn [first_detected Spec.first_mapped].
  rewrite (lowercase_extension_detected (v_file v)) by (apply H; now left).
  destruct (Spec.language_of (v_file v)); [reflexivity |].
  apply IH. intros w Hw. apply H. now right.
Qed.

(** A language that the loop finds is the language of a file that was
    read. *)
Lemma first_detected_In vs l :
  first_detected vs = Some l ->
  exists v, In v vs /\ detect_programming_language (v_file v) = Some l.
Proof.
  induction vs as [| v vs IH]; cbn [first_detected]; [discriminate |].
  destruct (detect_programming_language (v_file v)) as [l' |] eqn:Hd.
  - intros [= <-]. exists v. split; [now left | assumption].
  - intros H. destruct (IH H) as [w [Hw Hl]]. exists w.
    split; [now right | assumption].
Qed.

Lemma scan_visits_app cfg vs ws :
  scan_visits cfg (vs ++ ws) =
  fold_left (visit_file cfg) ws (scan_visits cfg vs).
Proof. unfold scan_visits. now rewrite fold_left_app. Qed.

(** C3, as the specification states it, fails: the scan of a project that
    holds the single file [b.py] writes ["Python"], which is neither in
    lower case nor ["unknown"]. *)
Lemma snapshot_language_not_lowercase :
  ~ (forall (cfg : config) (entries : list node) (s : string),
        Snapshot.field "programming_language" (Snapshot.written cfg entries)
          = Some (Json.JStr s) ->
        s = Text.lower s \/ s = "unknown").
Proof.
  intros H.
  specialize (H (default_config "proj")
                [File "b.py" (ReadOk "import os" 9 "2024-01-01 00:00:00")]
                "Python" eq_refl).
  destruct H as [H | H]; discriminate H.
Qed.

(** C3, amended.  The [programming_language] field of the snapshot that a
    scan writes is a string: ["unknown"], or one of the display names of
    [language_extensions], which are capitalised (["Python"],
    ["JavaScript"], ...).  [aggregate_snapshots] lowers it when it reads
    the snapshot. *)
Theorem snapshot_language_known_or_unknown :
  forall (cfg : config) (entries : list node),
    exists s : string,
      Snapshot.field "programming_language" (Snapshot.written cfg entries)
        = Some (Json.JStr s) /\
      (s = "unknown" \/ In s (map snd language_extensions)).
Proof.
  intros cfg entries.
  exists (programming_language (generate_context_data cfg entries)).
  split; [reflexivity |].
  unfold generate_context_data, finish. simpl.
  pose proof (scan_language_ok cfg (walk_project cfg entries)) as Hok.
  destruct (detected_language (scan_visits cfg (walk_project cfg entries)))
    as [l |]; simpl in *.
  - right. now rewrite (known_not_empty l Hok).
  - now left.
Qed.

(** The three files of the example of the specification, with any
    contents. *)
Definition first_match_project (a b c : string) : list node :=
  [ File "a.json" (ReadOk a 0 "2024-01-01 00:00:00");
    File "b.py" (ReadOk b 0 "2024-01-01 00:00:00");
    File "c.js" (ReadOk c 0 "2024-01-01 00:00:00") ].

(** A project whose first file has its extension in capital letters. *)
Definition capital_first_project : list node :=
  [ File "A.PY" (ReadOk "import os" 9 "2024-01-01 00:00:00");
    File "c.js" (ReadOk "import x from 'y'" 17 "2024-01-01 00:00:00") ].

(** C4. Language detection is not first-match for the specification's
    notion of extension.  In the project whose files in walk order are
    [A.PY] and [c.js], both files are read and recorded, and the imports
    of [A.PY] are counted with the pattern of Python, under its lowered
    extension [.py]; [A.PY] is the first file read whose extension maps to
    a known language, Python.  The scan nevertheless writes
    ["JavaScript"]: [detect_programming_language] looks the extension up
    as it is written, finds nothing for [.PY], and the language is set by
    [c.js]. *)
Theorem first_match_passes_over_capital_extension :
  let cfg := default_config "proj" in
  let d := generate_context_data cfg capital_first_project in
  map v_file (filter (Spec.successfully_read cfg)
                (walk_project cfg capital_first_project))
    = ["A.PY"; "c.js"] /\
  SnapshotGenerator.file_count d = 2%Z /\
  imported_names "import os" (Spec.extension "A.PY") = ["os"] /\
  external_libraries d = [("os", 1%Z); ("y", 1%Z)] /\
  Spec.language_of "A.PY" = Some "Python" /\
  Spec.first_match_language cfg (walk_project cfg capital_first_project)
    = Some "Python" /\
  detect_programming_language "A.PY" = None /\
  programming_language d = "JavaScript".
Proof. repeat split; reflexivity. Qed.

(** Language detection is first-match among files whose extensions are
    written in lower case.  When every file that the scan reads has its
    extension in lower case, the language that the scan detects is that of
    the first file in walk order, among the files it reads successfully,
    whose extension maps to a known language, and ["unknown"] is written
    when there is none.  For every scan: a language that is detected is
    the language to which the extension of a file that was read maps; a
    file whose extension is not mapped leaves the language as it is; once
    set it stays for the rest of the scan.  For [a.json], [b.py], [c.js]
    in walk order the scan writes ["Python"], which the aggregator reads
    as ["python"]. *)
Theorem first_match_among_lowercase_extensions :
  forall (cfg : config),
    (forall vs,
        (forall v, In v vs -> Spec.successfully_read cfg v = true ->
           Text.lower (Path.splitext_ext (v_file v))
           = Path.splitext_ext (v_file v)) ->
        detected_language (scan_visits cfg vs)
        = Spec.first_match_language cfg vs) /\
    (forall entries,
        (forall v, In v (walk_project cfg entries) ->
           Spec.successfully_read cfg v = true ->
           Text.lower (Path.splitext_ext (v_file v))
           = Path.splitext_ext (v_file v)) ->
        programming_language (generate_context_data cfg entries) =
        language_or_unknown
          (Spec.first_match_language cfg (walk_project cfg entries))) /\
    (forall vs l,
        detected_language (scan_visits cfg vs) = Some l ->
        exists v, In v vs /\ Spec.successfully_read cfg v = true /\
                  Spec.language_of (v_file v) = Some l) /\
    (forall vs v,
        Spec.language_of (v_file v) = None ->
        detected_language (scan_visits cfg (vs ++ [v]))
        = detected_language (scan_visits cfg vs)) /\
    (forall vs l,
        detected_language (scan_visits cfg vs) = Some l ->
        forall ws, detected_language (scan_visits cfg (vs ++ ws)) = Some l) /\
    (forall project_path a b c,
        let d := generate_context_data (default_config project_path)
                   (first_match_project a b c) in
        programming_language d = "Python" /\
        Text.lower (programming_language d) = "python").
Proof.
  intros cfg.
  assert (Hscan : forall vs,
             (forall v, In v vs -> Spec.successfully_read cfg v = true ->
                Text.lower (Path.splitext_ext (v_file v))
                = Path.splitext_ext (v_file v)) ->
             detected_language (scan_visits cfg vs)
             = Spec.first_match_language cfg vs).
  { intros vs H. rewrite scan_first_detected.
    unfold first_detected_language, Spec.first_match_language.
    apply first_detected_lowercase. intros v Hv.
    apply filter_In in Hv. destruct Hv as [Hin Hread]. now apply H. }
  split; [exact Hscan | split; [| split; [| split; [| split]]]].
  - intros entries H. unfold generate_context_data, finish. simpl.
    now rewrite (Hscan _ H).
  - intros vs l Hl. rewrite scan_first_detected in Hl.
    apply first_detected_In in Hl. destruct Hl as [v [Hv Hd]].
    apply filter_In in Hv. destruct Hv as [Hin Hread].
    exists v. split; [assumption | split; [assumption |]].
    now apply detected_is_mapped.
  - intros vs v Hnone. rewrite scan_visits_app. simpl.
    rewrite visit_language by apply scan_language_ok.
    destruct (detected_language (scan_visits cfg vs)); [reflexivity |].
    destruct (Spec.successfully_read cfg v); [| reflexivity].
    destruct (detect_programming_language (v_file v)) as [l |] eqn:Hd;
      [| reflexivity].
    apply detected_is_mapped in Hd. congruence.
  - intros vs l Hl ws. rewrite scan_visits_app.
    rewrite fold_first_match by apply scan_language_ok. now rewrite Hl.
  - intros project_path a b c d. subst d.
    pose proof (fold_first_match (default_config project_path)
                  (walk_project (default_config project_path)
                     (first_match_project a b c))
                  initial_state I) as Hd.
    unfold generate_context_data, finish, scan_visits.
    cbn [programming_language]. rewrite Hd.
    split; reflexivity.
Qed.

Lemma first_match_among_lowercase_extensions_witness :
  detected_language
    (scan_visits (default_config "proj")
       (walk_project (default_config "proj")
          (first_match_project "{}" "import os" "import x from 'y'")))
  = Some "Python" /\
  Spec.first_match_language (default_config "proj")
    (walk_project (default_config "proj")
       (first_match_project "{}" "import os" "import x from 'y'"))
  = Some "Python".
Proof.
  split; [| reflexivity].
  rewrite (proj1 (first_match_among_lowercase_extensions
                    (default_config "proj"))).
  - reflexivity.
  - intros v [<- | [<- | [<- | []]]] _; reflexivity.
Defined.

(** ** Aggregation: snapshots that leave the dictionaries as they are *)

Import Json WorkTwinsDataSource.

Lemma aggregate_snapshots_app (pre post : list snapshot_file) :
  aggregate_snapshots (pre ++ post) =
  overall_data
    (fold_left aggregate_file post (fold_left aggregate_file pre empty_state)).
Proof. unfold aggregate_snapshots. now rewrite fold_left_app. Qed.

(** An entry that leaves the dictionaries as they are can be taken out of
    the listing. *)
Lemma ignored_file_absent (f : snapshot_file) (pre post : list snapshot_file) :
  (forall st, aggregate_file st f = st) ->
  aggregate_snapshots (pre ++ f :: post) = aggregate_snapshots (pre ++ post).
Proof.
  intros H. rewrite !aggregate_snapshots_app. simpl. now rewrite H.
Qed.

(** [key in project_data] holds: the assertion on [key] passes. *)
Definition has_field (key : string) (project_data : json) : bool :=
  match py_in key project_data with
  | Some true => true
  | _ => false
  end.

Definition has_required_fields (project_data : json) : bool :=
  has_field "programming_language" project_data
  && has_field "file_count" project_data
  && has_field "external_libraries" project_data.

Lemma missing_field_raises (project_data : json) (st : agg_state) :
  has_required_fields project_data = false ->
  aggregate_project project_data st = (st, None).
Proof.
  unfold has_required_fields, has_field, aggregate_project.
  unfold bind, lift, assert, ret, raise.
  destruct (py_in "programming_language" project_data) as [[|] |];
    try reflexivity.
  destruct (py_in "file_count" project_data) as [[|] |]; try reflexivity.
  destruct (py_in "external_libraries" project_data) as [[|] |];
    try reflexivity.
  discriminate.
Qed.

(** C2. A snapshot file that parses as JSON but lacks
    [programming_language], [file_count] or [external_libraries] fails an
    assertion before either dictionary is touched; the exception is caught,
    so the loop goes on, and the report is the one of the listing without
    that file. *)
Theorem malformed_snapshot_excluded :
  forall (project_data : json) (name : string)
         (pre post : list snapshot_file),
    has_required_fields project_data = false ->
    (forall st, aggregate_file st (name, Some project_data) = st) /\
    aggregate_snapshots (pre ++ (name, Some project_data) :: post)
    = aggregate_snapshots (pre ++ post).
Proof.
  intros project_data name pre post H.
  assert (Hst : forall st, aggregate_file st (name, Some project_data) = st).
  { intros st. unfold aggregate_file. simpl.
    destruct (is_snapshot_name name); [| reflexivity].
    now rewrite missing_field_raises. }
  split; [exact Hst | now apply ignored_file_absent].
Qed.

Definition library (name : string) (count : Z) : json :=
  JObj [("import_name", JStr name); ("count", JNum count)].

Definition snapshot (language : string) (files : Z) (libs : list json)
  : json :=
  JObj [("project_name", JStr "p");
        ("project_sources", JArr []);
        ("external_libraries", JArr libs);
        ("observations", JArr []);
        ("programming_language", JStr language);
        ("file_count", JNum files)].

(** A snapshot without [file_count] that would otherwise count for
    Python. *)
Definition no_file_count : list (string * json) :=
  [("project_name", JStr "p");
   ("external_libraries", JArr [library "os" 7]);
   ("programming_language", JStr "Python")].

Lemma malformed_snapshot_excluded_witness :
  aggregate_snapshots
    ([("a_snapshot_1.json", Some (snapshot "Python" 2 [library "os" 1]))]
     ++ ("b_snapshot_1.json", Some (JObj no_file_count))
     :: [("c_snapshot_1.json", Some (snapshot "python" 1 [library "sys" 1]))])
  = [ {| programming_language := "python";
         libraries_used := [(JStr "os", 1%Z); (JStr "sys", 1%Z)];
         file_count := 3 |} ].
Proof.
  refine (eq_trans
            (proj2 (malformed_snapshot_excluded (JObj no_file_count)
                      "b_snapshot_1.json"
                      [("a_snapshot_1.json",
                        Some (snapshot "Python" 2 [library "os" 1]))]
                      [("c_snapshot_1.json",
                        Some (snapshot "python" 1 [library "sys" 1]))]
                      eq_refl)) _).
  reflexivity.
Defined.

Lemma empty_language_ignored_by_project (kvs : list (string * json))
  (st : agg_state) :
  Dict.get String.eqb "programming_language" kvs = Some (JStr EmptyString) ->
  fst (aggregate_project (JObj kvs) st) = st.
Proof.
  intros H. unfold aggregate_project, bind, lift, assert, ret, raise. simpl.
  unfold Dict.has. rewrite H.
  destruct (Dict.get String.eqb "file_count" kvs); [| reflexivity].
  destruct (Dict.get String.eqb "external_libraries" kvs); reflexivity.
Qed.

(** C10. A snapshot whose [programming_language] is the empty string, with
    [file_count] and [external_libraries] present, is ignored: the
    dictionaries stay as they are and the report is the one of the listing
    without that file. *)
Theorem empty_language_snapshot_ignored :
  forall (kvs : list (string * json)) (name : string)
         (pre post : list snapshot_file),
    Dict.get String.eqb "programming_language" kvs = Some (JStr EmptyString) ->
    Dict.has String.eqb "file_count" kvs = true ->
    Dict.has String.eqb "external_libraries" kvs = true ->
    (forall st, aggregate_file st (name, Some (JObj kvs)) = st) /\
    aggregate_snapshots (pre ++ (name, Some (JObj kvs)) :: post)
    = aggregate_snapshots (pre ++ post).
Proof.
  intros kvs name pre post Hl _ _.
  assert (Hst : forall st, aggregate_file st (name, Some (JObj kvs)) = st).
  { intros st. unfold aggregate_file. simpl.
    destruct (is_snapshot_name name); [| reflexivity].
    now apply empty_language_ignored_by_project. }
  split; [exact Hst | now apply ignored_file_absent].
Qed.

Definition empty_language : list (string * json) :=
  [("project_name", JStr "p");
   ("project_sources", JArr []);
   ("external_libraries", JArr [library "os" 7]);
   ("observations", JArr []);
   ("programming_language", JStr EmptyString);
   ("file_count", JNum 5)].

Lemma empty_language_snapshot_ignored_witness :
  aggregate_snapshots
    ([("a_snapshot_1.json", Some (snapshot "Python" 2 [library "os" 1]))]
     ++ ("b_snapshot_1.json", Some (JObj empty_language))
     :: [("c_snapshot_1.json", Some (snapshot "python" 1 [library "sys" 1]))])
  = [ {| programming_language := "python";
         libraries_used := [(JStr "os", 1%Z); (JStr "sys", 1%Z)];
         file_count := 3 |} ].
Proof.
  refine (eq_trans
            (proj2 (empty_language_snapshot_ignored empty_language
                      "b_snapshot_1.json"
                      [("a_snapshot_1.json",
                        Some (snapshot "Python" 2 [library "os" 1]))]
                      [("c_snapshot_1.json",
                        Some (snapshot "python" 1 [library "sys" 1]))]
                      eq_refl eq_refl eq_refl)) _).
  reflexivity.
Defined.

(** ** Aggregation: the languages of the report *)

(** A project that holds one Python file without imports, and the
    snapshot directory after its scan. *)
Definition plain_python_project : list node :=
  [ File "main.py" (ReadOk "print(1)" 8 "2024-01-01 00:00:00") ].

Definition plain_python_listing : list snapshot_file :=
  [ ("proj_snapshot_202401010000.json",
     Some (Snapshot.written (default_config "proj") plain_python_project)) ].

(** C1 fails on the code.  The snapshot of a project with one Python file
    and no imports is valid: it names Python, counts one file and lists no
    library.  The report is built from the items of [imports_agg], which
    has no key for a language until a library of it is counted, so the
    report has no entry for [python]. *)
Theorem language_without_libraries_dropped :
  Snapshot.field "programming_language"
    (Snapshot.written (default_config "proj") plain_python_project)
    = Some (JStr "Python") /\
  Snapshot.field "file_count"
    (Snapshot.written (default_config "proj") plain_python_project)
    = Some (JNum 1) /\
  Snapshot.field "external_libraries"
    (Snapshot.written (default_config "proj") plain_python_project)
    = Some (JArr []) /\
  Spec.languages_seen plain_python_listing = ["python"] /\
  file_counts (fold_left aggregate_file plain_python_listing empty_state)
    = [("python", 1%Z)] /\
  aggregate_snapshots plain_python_listing = [].
Proof. repeat split; reflexivity. Qed.

(** Two languages with three files each; Java is seen first, but its first
    snapshot lists no library. *)
Definition tie_listing : list snapshot_file :=
  [ ("a_snapshot_202401010000.json", Some (snapshot "Java" 2 []));
    ("b_snapshot_202401010000.json",
     Some (snapshot "Python" 3 [library "os" 1]));
    ("c_snapshot_202401010000.json",
     Some (snapshot "Java" 1 [library "java.util.List" 1])) ].

(** C7 fails on the code.  Java and Python tie at three files and Java is
    encountered first, yet the report lists Python before Java: the list
    that is sorted comes from the items of [imports_agg], where a language
    enters when its first library is counted. *)
Theorem tie_order_follows_first_library :
  Spec.languages_seen tie_listing = ["java"; "python"] /\
  map file_count (aggregate_snapshots tie_listing) = [3%Z; 3%Z] /\
  map programming_language (aggregate_snapshots tie_listing)
    = ["python"; "java"].
Proof. repeat split; reflexivity. Qed.

(** ** The regular expression engine *)

Section Engine.

Import Re.

(** The [^] flag after the characters of [u] have been consumed. *)
Fixpoint bol_after (b : bool) (u : list ascii) : bool :=
  match u with
  | [] => b
  | c :: u' => bol_after (is_nl c) u'
  end.

Lemma bol_after_app b u v :
  bol_after b (u ++ v) = bol_after (bol_after b u) v.
Proof. revert b. induction u as [| c u IH]; intros b; simpl; auto. Qed.

Lemma bol_after_last b u c : bol_after b (u ++ [c]) = is_nl c.
Proof. now rewrite bol_after_app. Qed.

Lemma take_drop_while p s :
  Text.take_while p s ++ Text.drop_while p s = s.
Proof.
  induction s as [| c s IH]; simpl; [reflexivity |].
  destruct (p c); simpl; [now rewrite IH | reflexivity].
Qed.

Lemma drop_while_length p s :
  (List.length (Text.drop_while p s) <= List.length s)%nat.
Proof.
  induction s as [| c s IH]; simpl; [lia |].
  destruct (p c); simpl; lia.
Qed.

Lemma firstn_take_while p s :
  firstn (List.length s - List.length (Text.drop_while p s)) s
  = Text.take_while p s.
Proof.
  rewrite <- (take_drop_while p s) at 1 3.
  rewrite length_app.
  replace (List.length (Text.take_while p s)
           + List.length (Text.drop_while p s)
           - List.length (Text.drop_while p s))%nat
    with (List.length (Text.take_while p s) + 0)%nat by lia.
  rewrite firstn_app_2. simpl. now rewrite app_nil_r.
Qed.

Lemma take_while_all p s : forallb p (Text.take_while p s) = true.
Proof.
  induction s as [| c s IH]; simpl; [reflexivity |].
  destruct (p c) eqn:Hc; simpl; [now rewrite Hc | reflexivity].
Qed.

Section Star.
Context {A : Type} (p : ascii -> bool) (k : @cont A).

(** When what follows cannot start with a character of the class, a
    greedy repetition never gives characters back. *)
Lemma star_no_give_back :
  (forall b c s g, p c = true -> k b (c :: s) g = None) ->
  forall s b g,
    star p k b s g =
    k (bol_after b (Text.take_while p s)) (Text.drop_while p s) g.
Proof.
  intros Hk. induction s as [| c s IH]; intros b g; simpl; [reflexivity |].
  destruct (p c) eqn:Hc; simpl; [| reflexivity].
  rewrite IH.
  destruct (k (bol_after (is_nl c) (Text.take_while p s))
              (Text.drop_while p s) g) eqn:Hr; [reflexivity |].
  now apply Hk.
Qed.

(** When what follows accepts the longest repetition, that is the
    match. *)
Lemma star_longest :
  forall s b g r,
    k (bol_after b (Text.take_while p s)) (Text.drop_while p s) g = Some r ->
    star p k b s g = Some r.
Proof.
  induction s as [| c s IH]; intros b g r; simpl; [auto |].
  destruct (p c) eqn:Hc; simpl; [| auto].
  intros Hr. now rewrite (IH _ _ _ Hr).
Qed.

End Star.

Lemma run_lit {A : Type} (w : string) (k : @cont A) :
  forall b s g,
    run (Lit w) k b s g =
    match Text.strip_prefix (Text.chars w) s with
    | Some s' => k (bol_after b (Text.chars w)) s' g
    | None => None
    end.
Proof.
  induction w as [| a w IH]; intros b s g; simpl; [reflexivity |].
  destruct s as [| c s]; [reflexivity |].
  destruct (Ascii.eqb_spec a c) as [<- | _]; [apply IH | reflexivity].
Qed.

(** The scan passes the characters of a match and goes on after it. *)
Lemma scan_skip r u :
  forall b v,
    scan r b (u ++ v) (List.length u) = scan r (bol_after b u) v 0.
Proof.
  induction u as [| c u IH]; intros b v; [reflexivity |].
  simpl. apply IH.
Qed.

Lemma scan_zero r b s :
  scan r b s 0 =
  match attempt r b s with
  | Some (s', g) =>
      g :: match s with
           | [] => []
           | c :: t => scan r (is_nl c) t (List.length s - List.length s' - 1)
           end
  | None =>
      match s with
      | [] => []
      | c :: t => scan r (is_nl c) t 0
      end
  end.
Proof. destruct s; reflexivity. Qed.

Lemma scan_hit r b u s' g :
  u <> [] ->
  attempt r b (u ++ s') = Some (s', g) ->
  scan r b (u ++ s') 0 = g :: scan r (bol_after b u) s' 0.
Proof.
  intros Hu Ha. destruct u as [| c u]; [congruence |].
  simpl app in *. rewrite scan_zero, Ha. f_equal.
  change (bol_after b (c :: u)) with (bol_after (is_nl c) u).
  replace (List.length (c :: u ++ s') - List.length s' - 1)%nat
    with (List.length u)
    by (change (List.length (c :: u ++ s')) with (S (List.length (u ++ s')));
        rewrite length_app; lia).
  apply scan_skip.
Qed.

Lemma scan_miss r b c t :
  attempt r b (c :: t) = None ->
  scan r b (c :: t) 0 = scan r (is_nl c) t 0.
Proof. intros Ha. now rewrite scan_zero, Ha. Qed.

End Engine.

(** ** The Python import pattern

    [py_import] backtracks nowhere: white space, keywords and names do not
    overlap, so one attempt is a deterministic reading of the text. *)

Section PyImport.
Import Re.

Definition name : ascii -> bool := not_space_nor [","%char].

Definition py_attempt (s : list ascii) : option (list ascii * caps) :=
  match Spec.after_keyword (Text.drop_while space s) with
  | Some (c :: s3) =>
      if space c then
        match Text.drop_while space s3 with
        | d :: s5 =>
            if name d
            then Some (Text.drop_while name s5,
                       [(1%nat, d :: Text.take_while name s5)])
            else None
        | [] => None
        end
      else None
  | _ => None
  end.

Lemma attempt_py_import_false s : attempt py_import false s = None.
Proof. reflexivity. Qed.

Lemma space_not_name c : space c = true -> name c = false.
Proof. unfold name, not_space_nor. now intros ->. Qed.

Lemma keyword_not_space w c s s' :
  w = "import" \/ w = "from" ->
  Text.strip_prefix (Text.chars w) (c :: s) = Some s' -> space c = false.
Proof.
  intros [-> | ->]; cbn [Text.strip_prefix Text.chars list_ascii_of_string].
  - destruct (Ascii.eqb_spec "i" c) as [<- | _]; intros H;
      [reflexivity | discriminate H].
  - destruct (Ascii.eqb_spec "f" c) as [<- | _]; intros H;
      [reflexivity | discriminate H].
Qed.

Lemma import_not_from s s' :
  Text.strip_prefix (Text.chars "import") s = Some s' ->
  Text.strip_prefix (Text.chars "from") s = None.
Proof.
  destruct s as [| c s];
    cbn [Text.strip_prefix Text.chars list_ascii_of_string]; [discriminate |].
  destruct (Ascii.eqb_spec "i" c) as [<- | _]; intros H;
    [reflexivity | discriminate H].
Qed.


Definition k0 : @cont (list ascii * caps) := fun _ s' g => Some (s', g).

Definition name_match (s : list ascii) (g : caps)
  : option (list ascii * caps) :=
  match s with
  | d :: s5 =>
      if name d
      then Some (Text.drop_while name s5,
                 (1%nat, d :: Text.take_while name s5) :: g)
      else None
  | [] => None
  end.

Definition tail_match (s : list ascii) (g : caps)
  : option (list ascii * caps) :=
  match s with
  | c :: s3 =>
      if space c then name_match (Text.drop_while space s3) g else None
  | [] => None
  end.

Lemma firstn_cons_take_while p d s :
  firstn (List.length (d :: s) - List.length (Text.drop_while p s)) (d :: s)
  = d :: Text.take_while p s.
Proof.
  pose proof (drop_while_length p s) as Hle.
  change (List.length (d :: s)) with (S (List.length s)).
  replace (S (List.length s) - List.length (Text.drop_while p s))%nat
    with (S (List.length s - List.length (Text.drop_while p s))) by lia.
  cbn [firstn]. now rewrite firstn_take_while.
Qed.


Lemma run_seq {A} r1 r2 (k : @cont A) b s g :
  run (Seq r1 r2) k b s g = run r1 (run r2 k) b s g.
Proof. reflexivity. Qed.

Lemma run_chr {A} p (k : @cont A) b s g :
  run (Chr p) k b s g =
  match s with
  | c :: s' => if p c then k (is_nl c) s' g else None
  | [] => None
  end.
Proof. reflexivity. Qed.

Lemma run_bol_true {A} (k : @cont A) s g : run Bol k true s g = k true s g.
Proof. reflexivity. Qed.

Lemma run_star {A} p (k : @cont A) b s g :
  run (Star p) k b s g = star p k b s g.
Proof. reflexivity. Qed.

Lemma run_alt {A} r1 r2 (k : @cont A) b s g :
  run (Alt r1 r2) k b s g =
  match run r1 k b s g with
  | Some x => Some x
  | None => run r2 k b s g
  end.
Proof. reflexivity. Qed.

Lemma run_name b s g :
  run (Grp 1 (Plus name)) k0 b s g = name_match s g.
Proof.
  unfold Plus, name_match. cbn [run].
  destruct s as [| d s5]; [reflexivity |].
  destruct (name d); [| reflexivity].
  apply star_longest. unfold k0. now rewrite firstn_cons_take_while.
Qed.

Lemma name_match_space c s g : space c = true -> name_match (c :: s) g = None.
Proof. intros H. unfold name_match. now rewrite (space_not_name c H). Qed.

Lemma run_tail b s g :
  run (Seq (Plus space) (Grp 1 (Plus name))) k0 b s g = tail_match s g.
Proof.
  unfold tail_match. unfold Plus at 1.
  rewrite !run_seq, run_chr.
  destruct s as [| c s3]; [reflexivity |].
  destruct (space c); [| reflexivity].
  rewrite run_star, star_no_give_back.
  - apply run_name.
  - intros b' c' s' g' Hc. rewrite run_name. now apply name_match_space.
Qed.

Lemma run_keyword b s g :
  run (Seq (Alt (Lit "import") (Lit "from"))
         (Seq (Plus space) (Grp 1 (Plus name)))) k0 b s g
  = match Spec.after_keyword s with
    | Some s2 => tail_match s2 g
    | None => None
    end.
Proof.
  rewrite run_seq, run_alt, !run_lit. unfold Spec.after_keyword.
  destruct (Text.strip_prefix (Text.chars "import") s) as [s2 |] eqn:Hi.
  - rewrite run_tail. rewrite (import_not_from s s2 Hi).
    now destruct (tail_match s2 g).
  - destruct (Text.strip_prefix (Text.chars "from") s); [| reflexivity].
    apply run_tail.
Qed.

Lemma run_keyword_space b c s g :
  space c = true ->
  run (Seq (Alt (Lit "import") (Lit "from"))
         (Seq (Plus space) (Grp 1 (Plus name)))) k0 b (c :: s) g = None.
Proof.
  intros Hc. rewrite run_keyword. unfold Spec.after_keyword.
  destruct (Text.strip_prefix (Text.chars "import") (c :: s)) eqn:Hi.
  - apply keyword_not_space in Hi; [congruence | now left].
  - destruct (Text.strip_prefix (Text.chars "from") (c :: s)) eqn:Hf;
      [| reflexivity].
    apply keyword_not_space in Hf; [congruence | now right].
Qed.

Lemma attempt_py_import_true s : attempt py_import true s = py_attempt s.
Proof.
  unfold attempt, py_import.
  change (run (Seq Bol (Seq (Star space)
            (Seq (Alt (Lit "import") (Lit "from"))
               (Seq (Plus space) (Grp 1 (Plus name))))))
            k0 true s [] = py_attempt s).
  rewrite run_seq, run_bol_true, run_seq, run_star.
  rewrite star_no_give_back.
  - rewrite run_keyword. unfold py_attempt, tail_match, name_match.
    reflexivity.
  - intros b c s' g Hc. now apply run_keyword_space.
Qed.

(** *** One attempt on a line and on the text that goes on after it *)

Definition ends_line (tl : list ascii) : bool :=
  match tl with
  | [] => true
  | c :: _ => is_nl c
  end.

Definition no_nl (l : list ascii) : bool :=
  forallb (fun c => negb (is_nl c)) l.

Lemma nl_is_space c : is_nl c = true -> space c = true.
Proof. unfold is_nl. intros H. apply Ascii.eqb_eq in H. now subst. Qed.

Lemma name_not_nl c : name c = true -> is_nl c = false.
Proof.
  intros Hn. destruct (is_nl c) eqn:Hc; [| reflexivity].
  apply nl_is_space, space_not_name in Hc. congruence.
Qed.

Lemma drop_while_app_nonempty p l tl :
  Text.drop_while p l <> [] ->
  Text.drop_while p (l ++ tl) = Text.drop_while p l ++ tl.
Proof.
  induction l as [| c l IH]; simpl; [congruence |].
  destruct (p c); [exact IH | reflexivity].
Qed.

Lemma drop_while_app_all p l tl :
  forallb p l = true ->
  Text.drop_while p (l ++ tl) = Text.drop_while p tl.
Proof.
  induction l as [| c l IH]; simpl; [reflexivity |].
  destruct (p c); [exact IH | discriminate].
Qed.

Lemma drop_while_all p l :
  forallb p l = true -> Text.drop_while p l = [].
Proof.
  induction l as [| c l IH]; simpl; [reflexivity |].
  destruct (p c); [exact IH | discriminate].
Qed.

Lemma drop_while_nil_all p l :
  Text.drop_while p l = [] -> forallb p l = true.
Proof.
  induction l as [| c l IH]; simpl; [reflexivity |].
  destruct (p c); [exact IH | discriminate].
Qed.

(** A name stops at the end of the line. *)
Lemma name_stops_at_end tl l :
  ends_line tl = true ->
  Text.drop_while name (l ++ tl) = Text.drop_while name l ++ tl /\
  Text.take_while name (l ++ tl) = Text.take_while name l.
Proof.
  intros Htl. induction l as [| c l [IHd IHt]]; simpl.
  - destruct tl as [| c tl]; [now split |].
    simpl in Htl. apply nl_is_space, space_not_name in Htl.
    simpl. rewrite Htl. now split.
  - destruct (name c); [| now split].
    split; [exact IHd | now rewrite IHt].
Qed.

Lemma strip_prefix_app w :
  forall l r tl,
    Text.strip_prefix w l = Some r ->
    Text.strip_prefix w (l ++ tl) = Some (r ++ tl).
Proof.
  induction w as [| a w IH]; intros l r tl; simpl.
  - now intros [= ->].
  - destruct l as [| c l]; [discriminate |]. simpl.
    destruct (Ascii.eqb a c); [apply IH | discriminate].
Qed.

Lemma strip_prefix_split w :
  forall l r, Text.strip_prefix w l = Some r -> l = w ++ r.
Proof.
  induction w as [| a w IH]; intros l r; simpl.
  - now intros [= ->].
  - destruct l as [| c l]; [discriminate |].
    destruct (Ascii.eqb_spec a c) as [<- | _]; [| discriminate].
    intros H. now rewrite (IH _ _ H).
Qed.

(** A keyword does not go over the end of a line. *)
Lemma strip_prefix_app_none w :
  no_nl w = true -> w <> [] ->
  forall l tl,
    ends_line tl = true ->
    Text.strip_prefix w l = None ->
    Text.strip_prefix w (l ++ tl) = None.
Proof.
  induction w as [| a w IH]; intros Hw Hne l tl Htl; [congruence |].
  simpl in Hw. apply andb_prop in Hw. destruct Hw as [Ha Hw].
  destruct l as [| c l]; simpl.
  - intros _. destruct tl as [| c tl]; [reflexivity |].
    simpl in Htl. destruct (Ascii.eqb_spec a c) as [<- | _]; [| reflexivity].
    rewrite Htl in Ha. discriminate.
  - destruct (Ascii.eqb a c); [| reflexivity].
    destruct w as [| a' w]; [discriminate |].
    apply IH; [assumption | congruence | assumption].
Qed.

Lemma after_keyword_app l r tl :
  Spec.after_keyword l = Some r ->
  Spec.after_keyword (l ++ tl) = Some (r ++ tl).
Proof.
  unfold Spec.after_keyword.
  destruct (Text.strip_prefix (Text.chars "import") l) as [r' |] eqn:Hi.
  - intros [= ->]. now rewrite (strip_prefix_app _ _ _ tl Hi).
  - intros Hf.
    destruct (Text.strip_prefix (Text.chars "import") (l ++ tl)) eqn:Hi'.
    + destruct l as [| c l]; [discriminate Hf |].
      apply import_not_from in Hi'.
      rewrite (strip_prefix_app _ _ _ tl Hf) in Hi'. discriminate.
    + now apply strip_prefix_app.
Qed.

Lemma after_keyword_app_none l tl :
  ends_line tl = true ->
  Spec.after_keyword l = None ->
  Spec.after_keyword (l ++ tl) = None.
Proof.
  unfold Spec.after_keyword. intros Htl.
  destruct (Text.strip_prefix (Text.chars "import") l) eqn:Hi; [discriminate |].
  intros Hf.
  rewrite strip_prefix_app_none by (assumption || reflexivity || discriminate).
  apply strip_prefix_app_none; (assumption || reflexivity || discriminate).
Qed.

Lemma after_keyword_split l r :
  Spec.after_keyword l = Some r ->
  exists w, l = w ++ r.
Proof.
  unfold Spec.after_keyword.
  destruct (Text.strip_prefix (Text.chars "import") l) eqn:Hi.
  - intros [= ->]. eexists. eapply strip_prefix_split. eassumption.
  - intros Hf. eexists. eapply strip_prefix_split. eassumption.
Qed.

Lemma bol_after_name b x :
  x <> [] -> forallb name x = true -> bol_after b x = false.
Proof.
  revert b. induction x as [| c x IH]; intros b Hne Hx; [congruence |].
  simpl in Hx. apply andb_prop in Hx. destruct Hx as [Hc Hx].
  simpl. destruct x as [| d x]; [now apply name_not_nl |].
  apply IH; [discriminate | assumption].
Qed.

(** A match is a prefix of the text; it is not empty and it ends with a
    character of the name, after which [^] does not hold. *)
Lemma py_attempt_split s s' g :
  py_attempt s = Some (s', g) ->
  exists u, s = u ++ s' /\ u <> [] /\ forall b, bol_after b u = false.
Proof.
  unfold py_attempt.
  destruct (Spec.after_keyword (Text.drop_while space s)) as [[| c s3] |]
    eqn:Hk; try discriminate.
  destruct (space c); [| discriminate].
  destruct (Text.drop_while space s3) as [| d s5] eqn:Hs3; [discriminate |].
  destruct (name d) eqn:Hd; [| discriminate].
  intros [= <- <-].
  apply after_keyword_split in Hk. destruct Hk as [w Hw].
  exists (Text.take_while space s ++ w ++ c :: Text.take_while space s3
          ++ d :: Text.take_while name s5).
  split; [| split].
  - rewrite <- (take_drop_while space s) at 1. rewrite Hw.
    rewrite <- (take_drop_while space s3) at 1. rewrite Hs3.
    rewrite <- (take_drop_while name s5) at 1.
    repeat (rewrite <- app_assoc; simpl). reflexivity.
  - intros H. apply app_eq_nil in H. destruct H as [_ H].
    apply app_eq_nil in H. destruct H as [_ H]. discriminate.
  - intros b.
    rewrite app_assoc, bol_after_app.
    change (c :: Text.take_while space s3 ++ d :: Text.take_while name s5)
      with ((c :: Text.take_while space s3) ++ d :: Text.take_while name s5).
    rewrite bol_after_app.
    apply bol_after_name; [discriminate |].
    simpl. now rewrite Hd, take_while_all.
Qed.

(** White space before the match may span lines. *)
Lemma py_attempt_skip ws s :
  forallb space ws = true -> py_attempt (ws ++ s) = py_attempt s.
Proof.
  intros H. unfold py_attempt. now rewrite drop_while_app_all.
Qed.

Lemma py_attempt_blank l : forallb space l = true -> py_attempt l = None.
Proof.
  intros H. unfold py_attempt. now rewrite drop_while_all.
Qed.

(** A match on a line is the match on the text that goes on after the
    line. *)
Lemma py_attempt_line_hit l tl tail g :
  ends_line tl = true ->
  py_attempt l = Some (tail, g) ->
  py_attempt (l ++ tl) = Some (tail ++ tl, g).
Proof.
  intros Htl. unfold py_attempt.
  destruct (Spec.after_keyword (Text.drop_while space l)) as [[| c s3] |]
    eqn:Hk; try discriminate.
  destruct (space c) eqn:Hc; [| discriminate].
  destruct (Text.drop_while space s3) as [| d s5] eqn:Hs3; [discriminate |].
  destruct (name d) eqn:Hd; [| discriminate].
  intros [= <- <-].
  rewrite drop_while_app_nonempty
    by (intros E; rewrite E in Hk; discriminate Hk).
  rewrite (after_keyword_app _ _ tl Hk). simpl. rewrite Hc.
  rewrite drop_while_app_nonempty by (rewrite Hs3; discriminate).
  rewrite Hs3. simpl. rewrite Hd.
  destruct (name_stops_at_end tl s5 Htl) as [-> ->]. reflexivity.
Qed.

(** A line that is not blank and holds more than a keyword fails as the
    text that goes on after it does. *)
Lemma py_attempt_line_miss l tl :
  ends_line tl = true ->
  forallb space l = false ->
  match Spec.after_keyword (Text.drop_while space l) with
  | Some r => forallb space r
  | None => false
  end = false ->
  py_attempt l = None ->
  py_attempt (l ++ tl) = None.
Proof.
  intros Htl Hblank Hbare. unfold py_attempt.
  assert (Hne : Text.drop_while space l <> []).
  { intros E. apply drop_while_nil_all in E. congruence. }
  rewrite drop_while_app_nonempty by assumption.
  destruct (Spec.after_keyword (Text.drop_while space l)) as [[| c s3] |]
    eqn:Hk.
  - discriminate Hbare.
  - rewrite (after_keyword_app _ _ tl Hk). simpl.
    destruct (space c) eqn:Hc; [| reflexivity].
    simpl in Hbare. rewrite Hc in Hbare. simpl in Hbare.
    destruct (Text.drop_while space s3) as [| d s5] eqn:Hs3.
    + apply drop_while_nil_all in Hs3. congruence.
    + rewrite drop_while_app_nonempty by (rewrite Hs3; discriminate).
      rewrite Hs3. simpl. now destruct (name d).
  - intros _. now rewrite after_keyword_app_none.
Qed.

(** *** The scan, line by line *)

Definition scan_py (b : bool) (s : list ascii) : list caps :=
  scan py_import b s 0.

(** What the scan finds after the end of a line. *)
Definition after_end (tl : list ascii) : list caps :=
  match tl with
  | [] => []
  | _ :: rest => scan_py true rest
  end.

Lemma scan_py_false_end tl :
  ends_line tl = true -> scan_py false tl = after_end tl.
Proof.
  destruct tl as [| c tl]; [reflexivity |]. simpl. intros Hc.
  unfold scan_py. rewrite scan_miss by apply attempt_py_import_false.
  now rewrite Hc.
Qed.

(** Inside a line [^] does not hold, so nothing matches. *)
Lemma scan_py_false_line u tl :
  no_nl u = true -> scan_py false (u ++ tl) = scan_py false tl.
Proof.
  induction u as [| c u IH]; [reflexivity |].
  simpl. intros H. apply andb_prop in H. destruct H as [Hc Hu].
  unfold scan_py. rewrite scan_miss by apply attempt_py_import_false.
  apply negb_true_iff in Hc. rewrite Hc. now apply IH.
Qed.

Lemma no_nl_app u v : no_nl (u ++ v) = no_nl u && no_nl v.
Proof. apply forallb_app. Qed.

Lemma scan_py_miss_line l tl :
  no_nl l = true -> ends_line tl = true ->
  l <> [] ->
  py_attempt (l ++ tl) = None ->
  scan_py true (l ++ tl) = after_end tl.
Proof.
  intros Hl Htl Hne Hm. destruct l as [| c l]; [congruence |].
  simpl in Hl. apply andb_prop in Hl. destruct Hl as [Hc Hl].
  apply negb_true_iff in Hc.
  unfold scan_py. simpl app.
  rewrite scan_miss by (rewrite attempt_py_import_true; exact Hm).
  rewrite Hc. fold (scan_py false (l ++ tl)).
  rewrite scan_py_false_line by assumption.
  now apply scan_py_false_end.
Qed.

Lemma scan_py_hit s u s' g :
  s = u ++ s' -> u <> [] -> (forall b, bol_after b u = false) ->
  py_attempt s = Some (s', g) ->
  scan_py true s = g :: scan_py false s'.
Proof.
  intros -> Hne Hb Ha. unfold scan_py.
  rewrite scan_hit with (g := g); [now rewrite Hb | assumption |].
  now rewrite attempt_py_import_true.
Qed.

(** The scan of a line that starts at [^], when no keyword stands alone
    on it: its match, if it has one, then the scan of the next line. *)
Lemma scan_py_line l tl :
  no_nl l = true -> ends_line tl = true ->
  match Spec.after_keyword (Text.drop_while space l) with
  | Some r => forallb space r
  | None => false
  end = false ->
  scan_py true (l ++ tl) =
  match py_attempt l with
  | Some (_, g) => [g]
  | None => []
  end ++ after_end tl.
Proof.
  intros Hl Htl Hbare.
  destruct (py_attempt l) as [[tail g] |] eqn:Ha.
  - (* the line matches *)
    destruct (py_attempt_split _ _ _ Ha) as [u [Hu [Hne Hb]]].
    pose proof (py_attempt_line_hit l tl tail g Htl Ha) as Ha'.
    rewrite (scan_py_hit (l ++ tl) u (tail ++ tl) g); try assumption.
    + simpl. f_equal. rewrite Hu, no_nl_app in Hl.
      apply andb_prop in Hl. destruct Hl as [_ Ht].
      rewrite scan_py_false_line by assumption.
      now apply scan_py_false_end.
    + rewrite Hu. now rewrite app_assoc.
  - destruct (forallb space l) eqn:Hblank.
    + (* a blank line: the attempt runs on into the next lines *)
      simpl. destruct tl as [| c rest].
      * rewrite app_nil_r. destruct l as [| c l]; [reflexivity |].
        rewrite <- (app_nil_r (c :: l)).
        apply scan_py_miss_line;
          [assumption | reflexivity | discriminate | now rewrite app_nil_r].
      * simpl in Htl. pose proof (nl_is_space c Htl) as Hc.
        assert (Hskip : py_attempt (l ++ c :: rest) = py_attempt rest).
        { change (l ++ c :: rest) with (l ++ [c] ++ rest).
          rewrite app_assoc. apply py_attempt_skip.
          rewrite forallb_app, Hblank. simpl. now rewrite Hc. }
        simpl after_end.
        destruct (py_attempt rest) as [[s' g] |] eqn:Hr.
        -- destruct (py_attempt_split _ _ _ Hr) as [u [Hu [Hne Hb]]].
           rewrite (scan_py_hit rest u s' g) by assumption.
           apply (scan_py_hit _ (l ++ c :: u)).
           ++ rewrite Hu. now rewrite <- app_assoc.
           ++ intros E. apply app_eq_nil in E. destruct E as [_ E].
              discriminate.
           ++ intros b. rewrite bol_after_app. simpl. apply Hb.
           ++ assumption.
        -- destruct l as [| d l].
           ++ simpl. unfold scan_py.
              rewrite scan_miss
                by (rewrite attempt_py_import_true; exact Hskip).
              now rewrite Htl.
           ++ change (scan_py true rest) with (after_end (c :: rest)).
              apply scan_py_miss_line;
                [assumption | exact Htl | discriminate | now rewrite Hskip].
    + (* some other line *)
      simpl.
      apply scan_py_miss_line; try assumption.
      * intros ->. discriminate.
      * now apply py_attempt_line_miss.
Qed.

(** *** Lines of the specification and matches of the pattern *)

Lemma name_is_name_char c : name c = Spec.name_char c.
Proof.
  unfold name, not_space_nor, none_of, Spec.name_char, space. simpl.
  now rewrite orb_false_r.
Qed.

Lemma take_while_ext p q s :
  (forall c, p c = q c) -> Text.take_while p s = Text.take_while q s.
Proof.
  intros H. induction s as [| c s IH]; simpl; [reflexivity |].
  rewrite <- H. now rewrite IH.
Qed.

(** The name of a line is the group of the match on that line. *)
Lemma line_import_attempt line :
  Spec.line_import line =
  match py_attempt (Text.chars line) with
  | Some (_, g) => Some (group 1 g)
  | None => None
  end.
Proof.
  unfold Spec.line_import, py_attempt. fold space.
  destruct (Spec.after_keyword (Text.drop_while space (Text.chars line)))
    as [[| c s3] |]; try reflexivity.
  destruct (space c); [| reflexivity].
  destruct (Text.drop_while space s3) as [| d s5]; [reflexivity |].
  simpl. rewrite <- name_is_name_char.
  destruct (name d); [| reflexivity].
  now rewrite (take_while_ext _ _ s5 name_is_name_char).
Qed.

Lemma chars_app a b : Text.chars (a ++ b) = Text.chars a ++ Text.chars b.
Proof.
  induction a as [| c a IH]; simpl; [reflexivity |].
  unfold Text.chars in *. simpl. now rewrite IH.
Qed.

Lemma chars_join line lines :
  Text.chars (Spec.join_lines (line :: lines)) =
  Text.chars line ++
  match lines with
  | [] => []
  | _ :: _ => "010"%char :: Text.chars (Spec.join_lines lines)
  end.
Proof.
  unfold Spec.join_lines. destruct lines as [| l2 lines].
  - simpl. now rewrite app_nil_r.
  - change (String.concat Spec.nl (line :: l2 :: lines))
      with (line ++ Spec.nl ++ String.concat Spec.nl (l2 :: lines))%string.
    now rewrite !chars_app.
Qed.

Lemma scan_py_lines lines :
  forallb Spec.plain_line lines = true ->
  map (group 1) (scan_py true (Text.chars (Spec.join_lines lines)))
  = Spec.names_of lines.
Proof.
  induction lines as [| l ls IH]; [reflexivity |].
  simpl forallb. intros H. apply andb_prop in H. destruct H as [Hl Hls].
  unfold Spec.plain_line in Hl. apply andb_prop in Hl. destruct Hl as [H1 Hb].
  apply negb_true_iff in Hb.
  rewrite chars_join, scan_py_line.
  - rewrite map_app. simpl Spec.names_of. rewrite line_import_attempt.
    assert (Hrest :
      map (group 1)
        (after_end match ls with
                   | [] => []
                   | _ :: _ => "010"%char :: Text.chars (Spec.join_lines ls)
                   end) = Spec.names_of ls).
    { destruct ls as [| l2 ls]; [reflexivity |]. simpl after_end.
      now apply IH. }
    rewrite Hrest.
    now destruct (py_attempt (Text.chars l)) as [[tail g] |].
  - exact H1.
  - now destruct ls.
  - exact Hb.
Qed.

Lemma imported_names_lines lines :
  forallb Spec.plain_line lines = true ->
  imported_names (Spec.join_lines lines) ".py" = Spec.names_of lines.
Proof. intros H. now apply scan_py_lines. Qed.

End PyImport.

(** *** Counting *)

Lemma count_of_count_import imports Y X :
  Spec.count_of X (count_import imports Y) =
  if String.eqb Y X then (Spec.count_of X imports + 1)%Z
  else Spec.count_of X imports.
Proof.
  unfold Spec.count_of, count_import.
  induction imports as [| [k v] d IH]; simpl.
  - now destruct (String.eqb Y X).
  - destruct (String.eqb_spec k Y) as [-> | Hk]; simpl.
    + now destruct (String.eqb Y X).
    + destruct (String.eqb_spec k X) as [-> | Hx].
      * apply String.eqb_neq in Hk. rewrite String.eqb_sym in Hk.
        now rewrite Hk.
      * exact IH.
Qed.

Lemma count_of_fold names :
  forall imports X,
    Spec.count_of X (fold_left count_import names imports) =
    (Spec.count_of X imports
     + Z.of_nat (count_occ string_dec names X))%Z.
Proof.
  induction names as [| Y names IH]; intros imports X; simpl; [lia |].
  rewrite IH, count_of_count_import.
  destruct (string_dec Y X) as [-> | Hne].
  - rewrite String.eqb_refl. lia.
  - apply String.eqb_neq in Hne. rewrite Hne. lia.
Qed.

Lemma import_lines_count X lines :
  Spec.import_lines X lines = count_occ string_dec (Spec.names_of lines) X.
Proof.
  unfold Spec.import_lines.
  induction lines as [| l ls IH]; simpl; [reflexivity |].
  destruct (Spec.line_import l) as [Y |]; [| exact IH].
  simpl. destruct (string_dec Y X) as [-> | Hne].
  - rewrite String.eqb_refl. simpl. now rewrite IH.
  - apply String.eqb_neq in Hne. now rewrite Hne.
Qed.

(** The content of the example of the specification:
    ["import os\nimport os\nfrom sys import path\n"]. *)
Definition import_example : string :=
  Spec.join_lines
    ["import os"; "import os"; "from sys import path"; EmptyString].

(** C6, as the specification states it, fails: in the content
    ["import\nimport os\n"] the second line starts with [import os], but
    the match that starts on the first line takes ["import"] from it as
    its name and the count of ["os"] stays 0. *)
Lemma bare_keyword_takes_next_line :
  ~ (forall (lines : list string) (X : string),
        forallb Spec.one_line lines = true ->
        Spec.count_of X
          (extract_imports [] (Spec.join_lines lines) ".py")
        = Z.of_nat (Spec.import_lines X lines)).
Proof.
  intros H.
  specialize (H ["import"; "import os"; EmptyString] "os" eq_refl).
  discriminate H.
Qed.

(** C6, amended.  For the content of the example the counts are exactly
    [os: 2, sys: 1].  Each match of the pattern adds 1 to the count of the
    captured string as it stands.  When no line of the content holds a
    keyword alone ([import] or [from] with nothing but white space after
    it), the matches are the lines that start, after optional indentation,
    with [import X] or [from X], one match per line, and the count of [X]
    grows by the number of those lines. *)
Theorem python_import_counts :
  extract_imports [] import_example ".py" = [("os", 2%Z); ("sys", 1%Z)] /\
  (forall imports content X,
      Spec.count_of X (extract_imports imports content ".py") =
      (Spec.count_of X imports
       + Z.of_nat (count_occ string_dec
                     (Re.findall1 Re.py_import content) X))%Z) /\
  (forall lines,
      forallb Spec.plain_line lines = true ->
      Re.findall1 Re.py_import (Spec.join_lines lines) = Spec.names_of lines /\
      forall imports X,
        Spec.count_of X
          (extract_imports imports (Spec.join_lines lines) ".py") =
        (Spec.count_of X imports + Z.of_nat (Spec.import_lines X lines))%Z).
Proof.
  split; [reflexivity | split].
  - intros imports content X. apply count_of_fold.
  - intros lines Hlines.
    pose proof (imported_names_lines lines Hlines) as Hn.
    split; [exact Hn |].
    intros imports X. unfold extract_imports.
    now rewrite count_of_fold, Hn, import_lines_count.
Qed.

Definition import_witness_lines : list string :=
  [ "import os, sys"; EmptyString; "    from . import x"; "imported = 1";
    "import ,"; "x = 1; import y"; "from os.path import join" ].

Lemma python_import_counts_witness :
  extract_imports [("os", 4%Z)] (Spec.join_lines import_witness_lines) ".py"
  = [("os", 5%Z); (".", 1%Z); ("os.path", 1%Z)] /\
  Spec.count_of "os"
    (extract_imports [("os", 4%Z)] (Spec.join_lines import_witness_lines)
       ".py") = (4 + 1)%Z.
Proof.
  split; [reflexivity |].
  exact (proj2 (proj2 (proj2 python_import_counts) import_witness_lines
                  eq_refl) [("os", 4%Z)] "os").
Defined.

(** ** Progress reporting *)

(** The exact percentage, truncated: what [completed / total * 100]
    is as a number. *)
Definition exact_percentage (completed total : Z) : Z :=
  (completed * 100 / total)%Z.

(** Fifty project directories, named by one letter each. *)
Definition fifty_projects : list string :=
  map (fun i => String (ascii_of_nat (65 + i)) EmptyString) (seq 0 50).

Definition fifty_local_folders : data_source :=
  LocalFoldersDataSource "work" fifty_projects true.

Definition two_gitlab_projects : data_source :=
  GitLabDataSource "com_worktwins_data_gitlab" ["alpha"; "beta"] true.

(** C8 fails on the code, in two ways.  In a run over fifty projects that
    all succeed the callback is called fifty times and the last value is
    100, but after the 29th project it is called with 57, while
    29 / 50 * 100 is 58: the quotient is rounded to a binary64 number
    below 0.58 before it is multiplied.  And a GitLab data source has no
    [compress] attribute, so its run raises while the first [config] is
    built and the callback is never called. *)
Theorem progress_value_below_percentage :
  (let run := generate_json_report fifty_local_folders (fun _ => true) in
   run_ending run = Finished /\
   List.length (reported run) = 50%nat /\
   nth 28 (reported run) 0%Z = 57%Z /\
   exact_percentage 29 50 = 58%Z /\
   last (reported run) 0%Z = 100%Z) /\
  (let run := generate_json_report two_gitlab_projects (fun _ => true) in
   run_ending run = Raised /\ reported run = []).
Proof. vm_compute. repeat split; reflexivity. Qed.

(** Whether the generation of a snapshot succeeds or fails makes no
    difference to what is reported. *)
Lemma report_loop_any_generation ds g1 g2 total projects :
  forall scanned rep log1 log2,
    reported (report_loop ds g1 total projects scanned rep log1) =
    reported (report_loop ds g2 total projects scanned rep log2) /\
    run_ending (report_loop ds g1 total projects scanned rep log1) =
    run_ending (report_loop ds g2 total projects scanned rep log2).
Proof.
  induction projects as [| p ps IH]; intros scanned rep log1 log2; simpl.
  - now split.
  - destruct (has_chunk_settings ds); simpl; [| now split].
    destruct (has_progress_callback ds && (0 <? total)%Z); [| apply IH].
    destruct (progress_value (scanned + 1) total); [apply IH | now split].
Qed.

(** ** Progress: the arithmetic of the reported value

    [int((scanned / total) * 100)] is computed on binary64 numbers.  The
    development below relates the library's division, multiplication and
    rounding on [spec_float] to the real numbers, for the positive normal
    numbers that occur when [1 <= scanned <= total < 2^53], and derives
    that the reported value is defined, lies within 0..100, never
    decreases along a run and is 100 after the last project. *)

Module Binary64.

Import Stdlib.Reals.Reals Stdlib.micromega.Lra.

Local Open Scope Z_scope.

(** The value of a mantissa at an exponent *)
Definition F (m e : Z) : R := (IZR m * powerRZ 2 e)%R.

Lemma pow2_pos e : (0 < powerRZ 2 e)%R.
Proof. apply powerRZ_lt. lra. Qed.

Lemma pow2_succ e : powerRZ 2 (e + 1) = (2 * powerRZ 2 e)%R.
Proof. rewrite powerRZ_add by lra. simpl. lra. Qed.

Lemma pow2_add a b : powerRZ 2 (a + b) = (powerRZ 2 a * powerRZ 2 b)%R.
Proof. apply powerRZ_add. lra. Qed.

Lemma pow2_IZR n : 0 <= n -> powerRZ 2 n = IZR (2 ^ n).
Proof.
  intros Hn. rewrite <- (Z2Nat.id n Hn) at 2.
  rewrite <- (Z2Nat.id n Hn) at 1.
  rewrite <- pow_powerRZ. rewrite <- pow_IZR. reflexivity.
Qed.

Lemma pow2_le a b : a <= b -> (powerRZ 2 a <= powerRZ 2 b)%R.
Proof.
  intros H. assert (Hd : 0 <= b - a) by lia.
  replace b with (a + (b - a)) by lia.
  rewrite pow2_add. rewrite (pow2_IZR (b - a)) by assumption.
  assert (0 < 2 ^ (b - a)) by (apply Z.pow_pos_nonneg; lia).
  assert (1 <= IZR (2 ^ (b - a)))%R by (apply IZR_le; lia).
  pose proof (pow2_pos a). nra.
Qed.

Lemma pow2_lt a b : a < b -> (powerRZ 2 a < powerRZ 2 b)%R.
Proof.
  intros H. apply Rlt_le_trans with (powerRZ 2 (a + 1)).
  - rewrite pow2_succ. pose proof (pow2_pos a). lra.
  - apply pow2_le. lia.
Qed.

Lemma F_succ_exp m e : F m (e + 1) = (2 * F m e)%R.
Proof. unfold F. rewrite pow2_succ. ring. Qed.

Lemma F_plus m k e : F (m + k) e = (F m e + F k e)%R.
Proof. unfold F. rewrite plus_IZR. ring. Qed.

Lemma F_one e : F 1 e = powerRZ 2 e.
Proof. unfold F. ring. Qed.

Lemma F_double m e : F (2 * m) e = F m (e + 1).
Proof. unfold F. rewrite mult_IZR, pow2_succ. ring. Qed.

Lemma F_shift m e n : 0 <= n -> F (m * 2 ^ n) e = F m (e + n).
Proof.
  intros Hn. unfold F. rewrite mult_IZR, pow2_add, (pow2_IZR n Hn). ring.
Qed.

Lemma F_le m m' e : m <= m' -> (F m e <= F m' e)%R.
Proof.
  intros H. unfold F. apply IZR_le in H. pose proof (pow2_pos e). nra.
Qed.

Lemma F_lt m m' e : m < m' -> (F m e < F m' e)%R.
Proof.
  intros H. unfold F. apply IZR_lt in H. pose proof (pow2_pos e). nra.
Qed.

Lemma F_lt_inv m m' e : (F m e < F m' e)%R -> m < m'.
Proof.
  intros H. destruct (Z_lt_le_dec m m') as [Hl | Hl]; [assumption |].
  apply (F_le _ _ e) in Hl. lra.
Qed.

(** Where a real number lies between two consecutive mantissas. *)
Definition located (x : R) (m e : Z) (l : location) : Prop :=
  match l with
  | loc_Exact => x = F m e
  | loc_Inexact c =>
      (F m e < x < F (m + 1) e)%R /\
      match c with
      | Lt => (2 * x < F m e + F (m + 1) e)%R
      | Eq => (2 * x = F m e + F (m + 1) e)%R
      | Gt => (2 * x > F m e + F (m + 1) e)%R
      end
  end.

Lemma F_zero e : F 0 e = 0%R.
Proof. unfold F. ring. Qed.

Ltac located_arith :=
  rewrite ?F_plus, ?F_double, ?F_succ_exp, ?F_one, ?F_zero in *; lra.

Lemma shr_1_located x m r s e :
  0 <= m ->
  located x m e (loc_of_shr_record (Build_shr_record m r s)) ->
  located x (shr_m (shr_1 (Build_shr_record m r s))) (e + 1)
    (loc_of_shr_record (shr_1 (Build_shr_record m r s))) /\
  shr_m (shr_1 (Build_shr_record m r s)) = m / 2.
Proof.
  intros Hm Hl.
  assert (Hu := pow2_pos e).
  destruct m as [| [p | p |] | p]; [| | | | lia]; cbn [shr_1 shr_m].
  - split; [| reflexivity].
    destruct r, s; cbn [loc_of_shr_record orb located] in *; located_arith.
  - split; [| apply (Z.div_unique_pos (Zpos p~1) 2 (Zpos p) 1); lia].
    change (Zpos p~1) with (2 * Zpos p + 1) in *.
    destruct r, s; cbn [loc_of_shr_record orb located] in *; located_arith.
  - split; [| apply (Z.div_unique_pos (Zpos p~0) 2 (Zpos p) 0); lia].
    change (Zpos p~0) with (2 * Zpos p) in *.
    destruct r, s; cbn [loc_of_shr_record orb located] in *; located_arith.
  - split; [| reflexivity].
    destruct r, s; cbn [loc_of_shr_record orb located] in *; located_arith.
Qed.

Lemma loc_of_record_of_loc m l :
  loc_of_shr_record (shr_record_of_loc m l) = l /\
  shr_m (shr_record_of_loc m l) = m.
Proof. destruct l as [| []]; split; reflexivity. Qed.

Section Shift.
Variable x : R.
Variable m0 e0 : Z.

(** What holds of a record after some shifts. *)
Definition shifted (e : Z) (rec : shr_record) : Prop :=
  e0 <= e /\ 0 <= shr_m rec /\
  shr_m rec = m0 / 2 ^ (e - e0) /\
  located x (shr_m rec) e (loc_of_shr_record rec).

Lemma shifted_shr_1 e rec : shifted e rec -> shifted (e + 1) (shr_1 rec).
Proof.
  intros [He [Hm [Hd Hl]]]. destruct rec as [m r s]. simpl shr_m in *.
  destruct (shr_1_located x m r s e Hm Hl) as [Hl' Hm'].
  split; [lia | split; [| split]].
  - rewrite Hm'. apply Z.div_pos; lia.
  - rewrite Hm', Hd. replace (e + 1 - e0) with ((e - e0) + 1) by lia.
    rewrite Z.pow_add_r by lia. rewrite Z.div_div; [reflexivity | | lia].
    apply Z.pow_nonzero; lia.
  - exact Hl'.
Qed.

Lemma shifted_iter p :
  forall e rec, shifted e rec -> shifted (e + Zpos p) (SpecFloat.iter_pos shr_1 p rec).
Proof.
  induction p as [p IH | p IH |]; intros e rec H; simpl SpecFloat.iter_pos.
  - replace (e + Zpos p~1) with (e + 1 + Zpos p + Zpos p) by lia.
    apply IH, IH. now apply shifted_shr_1.
  - replace (e + Zpos p~0) with (e + Zpos p + Zpos p) by lia.
    now apply IH, IH.
  - now apply shifted_shr_1.
Qed.

End Shift.

Lemma shr_spec x m e l n :
  0 <= m -> located x m e l -> 0 <= n ->
  exists rec,
    shr (shr_record_of_loc m l) e n = (rec, e + n) /\
    shr_m rec = m / 2 ^ n /\
    located x (shr_m rec) (e + n) (loc_of_shr_record rec).
Proof.
  intros Hm Hl Hn.
  destruct (loc_of_record_of_loc m l) as [Hloc Hrm].
  assert (H0 : shifted x m e e (shr_record_of_loc m l)).
  { split; [lia | split; [now rewrite Hrm | split]].
    - rewrite Hrm, Z.sub_diag. simpl. now rewrite Z.div_1_r.
    - now rewrite Hloc, Hrm. }
  destruct n as [| p | p]; [| | lia].
  - exists (shr_record_of_loc m l). simpl. rewrite Z.add_0_r.
    rewrite Hloc, Hrm, Z.div_1_r. auto.
  - exists (SpecFloat.iter_pos shr_1 p (shr_record_of_loc m l)).
    destruct (shifted_iter x m e p e _ H0) as [_ [_ [Hd Hl']]].
    split; [reflexivity | split; [| exact Hl']].
    rewrite Hd. f_equal. f_equal. lia.
Qed.

(** Digits *)
Lemma digits2_pos_bounds p :
  2 ^ (Zpos (digits2_pos p) - 1) <= Zpos p < 2 ^ Zpos (digits2_pos p).
Proof.
  induction p as [p IH | p IH |]; simpl digits2_pos.
  - rewrite Pos2Z.inj_succ.
    replace (Z.succ (Zpos (digits2_pos p)) - 1)
      with (Z.succ (Zpos (digits2_pos p) - 1)) by lia.
    rewrite !Z.pow_succ_r by lia. lia.
  - rewrite Pos2Z.inj_succ.
    replace (Z.succ (Zpos (digits2_pos p)) - 1)
      with (Z.succ (Zpos (digits2_pos p) - 1)) by lia.
    rewrite !Z.pow_succ_r by lia. lia.
  - simpl. lia.
Qed.

Lemma digits_bounds m :
  0 < m -> 2 ^ (Zdigits2 m - 1) <= m < 2 ^ Zdigits2 m.
Proof.
  destruct m as [| p | p]; try lia. intros _. apply digits2_pos_bounds.
Qed.

Lemma digits_unique m d :
  0 < m -> 2 ^ (d - 1) <= m < 2 ^ d -> Zdigits2 m = d.
Proof.
  intros Hm [Hlo Hhi]. pose proof (digits_bounds m Hm) as [Hlo' Hhi'].
  assert (Hd : 0 < Zdigits2 m) by (destruct m; simpl; lia).
  assert (Hd' : 0 < d).
  { destruct (Z_lt_le_dec 0 d); [assumption |].
    destruct d as [| p | p]; try lia. all: simpl in Hhi; lia. }
  destruct (Z.lt_trichotomy (Zdigits2 m) d) as [H | [H | H]]; [| assumption |].
  - assert (2 ^ Zdigits2 m <= 2 ^ (d - 1)) by (apply Z.pow_le_mono_r; lia).
    lia.
  - assert (2 ^ d <= 2 ^ (Zdigits2 m - 1)) by (apply Z.pow_le_mono_r; lia).
    lia.
Qed.

(** Rounding to nearest, ties to even *)
Lemma rne_choice m l :
  round_nearest_even m l = m \/ round_nearest_even m l = m + 1.
Proof.
  destruct l as [| []]; simpl; auto. destruct (Z.even m); auto.
Qed.

Lemma rne_nearest x m e l :
  located x m e l ->
  forall j : Z,
    (Rabs (F (round_nearest_even m l) e - x) <= Rabs (F j e - x))%R.
Proof.
  intros Hl j.
  assert (Hu := pow2_pos e).
  assert (Hj : (F j e <= F m e \/ F (m + 1) e <= F j e)%R).
  { destruct (Z_le_gt_dec j m) as [H | H].
    - left. now apply F_le.
    - right. apply F_le. lia. }
  assert (H1 : F (m + 1) e = (F m e + powerRZ 2 e)%R)
    by now rewrite F_plus, F_one.
  destruct l as [| c].
  - simpl in *. subst x. rewrite Rminus_diag, Rabs_R0. apply Rabs_pos.
  - destruct Hl as [[Hlo Hhi] Hc].
    destruct c; simpl round_nearest_even.
    + destruct (Z.even m).
      * unfold Rabs. repeat destruct Rcase_abs; lra.
      * unfold Rabs. repeat destruct Rcase_abs; lra.
    + unfold Rabs. repeat destruct Rcase_abs; lra.
    + unfold Rabs. repeat destruct Rcase_abs; lra.
Qed.

(** The binary64 numbers *)
Definition G (f : R) : Prop :=
  exists mf ef, f = F mf ef /\ Z.abs mf < 2 ^ 53 /\ -1074 <= ef.

(** [v] is a binary64 number nearest to [x]. *)
Definition rounds_to (x v : R) : Prop :=
  G v /\ forall f, G f -> (Rabs (v - x) <= Rabs (f - x))%R.

Lemma nearest_in_G x c v :
  -1074 <= c ->
  (F (2 ^ 52) c <= x)%R ->
  (forall j : Z, Rabs (v - x) <= Rabs (F j c - x))%R ->
  forall f, G f -> (Rabs (v - x) <= Rabs (f - x))%R.
Proof.
  intros Hc Hx Hn f [mf [ef [-> [Hm He]]]].
  destruct (Z_le_gt_dec c ef) as [Hce | Hce].
  - replace ef with (c + (ef - c)) by lia.
    rewrite <- F_shift by lia. apply Hn.
  - assert (Hf : (F mf ef < F (2 ^ 52) c)%R).
    { apply Rle_lt_trans with (F (2 ^ 53 - 1) ef); [apply F_le; lia |].
      apply Rlt_le_trans with (F (2 ^ 53) ef); [apply F_lt; lia |].
      replace (2 ^ 53) with (1 * 2 ^ 53) by lia.
      replace (2 ^ 52) with (1 * 2 ^ 52) by lia.
      rewrite !F_shift by lia. rewrite !F_one. apply pow2_le. lia. }
    specialize (Hn (2 ^ 52)).
    apply Rle_trans with (1 := Hn).
    unfold Rabs. repeat destruct Rcase_abs; lra.
Qed.

(** Rounding does not cross a binary64 number, and is monotone. *)
Lemma rounds_to_le_G x v g :
  rounds_to x v -> G g -> (x <= g)%R -> (v <= g)%R.
Proof.
  intros [_ Hn] Hg Hx. specialize (Hn g Hg).
  unfold Rabs in Hn. repeat destruct Rcase_abs; lra.
Qed.

Lemma rounds_to_ge_G x v g :
  rounds_to x v -> G g -> (g <= x)%R -> (g <= v)%R.
Proof.
  intros [_ Hn] Hg Hx. specialize (Hn g Hg).
  unfold Rabs in Hn. repeat destruct Rcase_abs; lra.
Qed.

Lemma rounds_to_G x v : rounds_to x v -> G x -> v = x.
Proof.
  intros H Hx. apply Rle_antisym.
  - apply (rounds_to_le_G x v x H Hx). lra.
  - apply (rounds_to_ge_G x v x H Hx). lra.
Qed.

Lemma rounds_to_mono x y v w :
  rounds_to x v -> rounds_to y w -> (x < y)%R -> (v <= w)%R.
Proof.
  intros [Gv Hv] [Gw Hw] Hxy.
  specialize (Hv w Gw). specialize (Hw v Gv).
  unfold Rabs in *. repeat destruct Rcase_abs; lra.
Qed.

Lemma fexp_normal E : -1074 <= E - 53 -> fexp 53 1024 E = E - 53.
Proof. unfold fexp, emin. lia. Qed.

Lemma located_lower x m e l : located x m e l -> (F m e <= x)%R.
Proof.
  destruct l; simpl; [intros ->; lra | intros [[H _] _]; lra].
Qed.

Lemma located_upper x m e l : located x m e l -> (x < F (m + 1) e)%R.
Proof.
  destruct l; simpl; [| intros [[_ H] _]; lra].
  intros ->. apply F_lt. lia.
Qed.

Lemma bra_correct x m e l :
  0 < m -> located x m e l ->
  53 <= Zdigits2 m ->
  -1074 <= Zdigits2 m + e - 53 ->
  Zdigits2 m + e <= 1023 ->
  exists m' e',
    binary_round_aux 53 1024 false m e l = S754_finite false m' e' /\
    2 ^ 52 <= Zpos m' < 2 ^ 53 /\
    -1074 <= e' /\
    rounds_to x (F (Zpos m') e').
Proof.
  intros Hm Hl Hd Hmin Hmax.
  set (d := Zdigits2 m) in *. set (n := d - 53). set (c := e + n).
  pose proof (digits_bounds m Hm) as [Hlo Hhi]. fold d in Hlo, Hhi.
  assert (Hn : 0 <= n) by (unfold n; lia).
  destruct (shr_spec x m e l n) as [rec1 [Hshr [Hm1 Hl1]]];
    [lia | assumption | assumption |].
  fold c in Hshr, Hl1.
  set (m1 := shr_m rec1) in *.
  assert (Hpn : 0 < 2 ^ n) by (apply Z.pow_pos_nonneg; lia).
  assert (Hb1 : 2 ^ 52 <= m1 < 2 ^ 53).
  { rewrite Hm1. split.
    - apply Z.div_le_lower_bound; [assumption |].
      rewrite <- Z.pow_add_r by lia.
      replace (n + 52) with (d - 1) by (unfold n; lia). assumption.
    - apply Z.div_lt_upper_bound; [assumption |].
      rewrite <- Z.pow_add_r by lia.
      replace (n + 53) with d by (unfold n; lia). assumption. }
  set (m2 := round_nearest_even m1 (loc_of_shr_record rec1)).
  assert (Hnear : forall j : Z,
             (Rabs (F m2 c - x) <= Rabs (F j c - x))%R)
    by (apply rne_nearest; assumption).
  assert (Hx : (F (2 ^ 52) c <= x)%R).
  { apply Rle_trans with (F m1 c); [apply F_le; lia |].
    now apply located_lower in Hl1. }
  assert (Hc : -1074 <= c) by (unfold c, n; lia).
  assert (Hb2 : 2 ^ 52 <= m2 < 2 ^ 53 \/ m2 = 2 ^ 53).
  { destruct (rne_choice m1 (loc_of_shr_record rec1)) as [H | H];
      fold m2 in H; lia. }
  unfold binary_round_aux, shr_fexp. fold d.
  rewrite fexp_normal by lia.
  replace (d + e - 53 - e) with n by (unfold n; lia).
  rewrite Hshr. fold m1. fold m2.
  destruct Hb2 as [Hb2 | Hb2].
  - assert (Hd2 : Zdigits2 m2 = 53) by (apply digits_unique; simpl; lia).
    rewrite Hd2, fexp_normal by lia.
    replace (53 + c - 53 - c) with 0 by lia.
    cbn [shr shr_record_of_loc shr_m].
    destruct m2 as [| p2 | p2] eqn:E2; try lia.
    assert (Hleb : (c <=? 1024 - 53) = true) by (apply Z.leb_le; unfold c, n; lia).
    rewrite Hleb.
    exists p2, c. split; [reflexivity | split; [lia | split; [lia |]]].
    split.
    + exists (Zpos p2), c. split; [reflexivity | split; [| lia]].
      rewrite Z.abs_eq; lia.
    + apply nearest_in_G with c; assumption.
  - rewrite Hb2.
    assert (Hd2 : Zdigits2 (2 ^ 53) = 54) by reflexivity.
    change (Zdigits2 (2 ^ 53)) with 54.
    rewrite fexp_normal by lia.
    replace (54 + c - 53 - c) with 1 by lia.
    cbn.
    assert (Hleb : (c + 1 <=? 971) = true) by (apply Z.leb_le; unfold c, n; lia).
    rewrite Hleb.
    eexists _, (c + 1). split; [reflexivity | split; [cbn; lia | split; [lia |]]].
    assert (HF : F (Zpos 4503599627370496) (c + 1) = F m2 c).
    { rewrite Hb2. rewrite <- F_double. f_equal. }
    split.
    + eexists _, (c + 1). split; [reflexivity | split; [cbn; lia | lia]].
    + rewrite HF. apply nearest_in_G with c; assumption.
Qed.

Lemma pow2_lt_inv a b : (powerRZ 2 a < powerRZ 2 b)%R -> a < b.
Proof.
  intros H. destruct (Z_lt_le_dec a b) as [Hl | Hl]; [assumption |].
  apply pow2_le in Hl. lra.
Qed.

Lemma F_pow2 n e : 0 <= n -> F (2 ^ n) e = powerRZ 2 (n + e).
Proof.
  intros Hn. unfold F. rewrite <- pow2_IZR by assumption.
  now rewrite pow2_add.
Qed.

Lemma F_0_exp m : F m 0 = IZR m.
Proof. unfold F. simpl. ring. Qed.

(** The exponent of a normal number follows from its size. *)
Lemma canonical_exponent m e a b :
  2 ^ 52 <= m < 2 ^ 53 ->
  (powerRZ 2 a <= F m e < powerRZ 2 b)%R ->
  a - 52 <= e <= b - 53.
Proof.
  intros [Hlo Hhi] [Ha Hb].
  assert (H1 : (powerRZ 2 (52 + e) <= F m e)%R)
    by (rewrite <- F_pow2 by lia; now apply F_le).
  assert (H2 : (F m e < powerRZ 2 (53 + e))%R)
    by (rewrite <- F_pow2 by lia; now apply F_lt).
  assert (52 + e < b) by (apply pow2_lt_inv; lra).
  assert (a < 53 + e) by (apply pow2_lt_inv; lra).
  lia.
Qed.

Lemma canonical_unique m e m' e' :
  2 ^ 52 <= m < 2 ^ 53 -> 2 ^ 52 <= m' < 2 ^ 53 ->
  F m e = F m' e' -> m = m' /\ e = e'.
Proof.
  intros Hm Hm' HF.
  assert (H1 : (powerRZ 2 (52 + e) <= F m e < powerRZ 2 (53 + e))%R).
  { split; rewrite <- F_pow2 by lia; [apply F_le | apply F_lt]; lia. }
  assert (H2 : (powerRZ 2 (52 + e') <= F m' e' < powerRZ 2 (53 + e'))%R).
  { split; rewrite <- F_pow2 by lia; [apply F_le | apply F_lt]; lia. }
  rewrite HF in H1.
  assert (52 + e < 53 + e') by (apply pow2_lt_inv; lra).
  assert (52 + e' < 53 + e) by (apply pow2_lt_inv; lra).
  assert (He : e = e') by lia. subst e'. split; [| reflexivity].
  destruct (Z.lt_trichotomy m m') as [H' | [H' | H']]; [| assumption |];
    apply (F_lt _ _ e) in H'; lra.
Qed.

Lemma iter_xO p j : Zpos (Pos.iter xO p j) = Zpos p * 2 ^ Zpos j.
Proof.
  induction j as [| j IH] using Pos.peano_ind.
  - simpl. lia.
  - rewrite Pos.iter_succ, Pos2Z.inj_xO, IH, Pos2Z.inj_succ.
    rewrite Z.pow_succ_r by lia. lia.
Qed.


Lemma G_int k : Z.abs k < 2 ^ 53 -> G (IZR k).
Proof.
  intros H. exists k, 0. rewrite F_0_exp. split; [reflexivity | split; lia].
Qed.

Lemma float_of_int_spec k :
  1 <= k < 2 ^ 53 ->
  exists m e,
    float_of_int k = S754_finite false m e /\
    2 ^ 52 <= Zpos m < 2 ^ 53 /\
    -52 <= e <= 0 /\
    F (Zpos m) e = IZR k.
Proof.
  intros [Hk1 Hk2]. destruct k as [| p | p]; try lia.
  unfold float_of_int, binary_normalize, binary_round.
  pose proof (digits2_pos_bounds p) as [Hlo Hhi].
  set (d := Zpos (digits2_pos p)) in *.
  assert (Hd : 1 <= d <= 53).
  { split; [unfold d; lia |].
    destruct (Z_le_gt_dec d 53); [assumption |].
    assert (2 ^ 53 <= 2 ^ (d - 1)) by (apply Z.pow_le_mono_r; lia). lia. }
  replace (d + 0) with d by lia.
  rewrite fexp_normal by lia.
  assert (Hal : exists mz ez,
             shl_align p 0 (d - 53) = (mz, ez) /\
             Zpos mz = Zpos p * 2 ^ (53 - d) /\ ez = d - 53).
  { unfold shl_align. destruct (d - 53 - 0) as [| j | j] eqn:Ej; try lia.
    - exists p, 0. replace (53 - d) with 0 by lia.
      split; [reflexivity | split; [rewrite Z.pow_0_r | ]; lia].
    - eexists _, _. split; [reflexivity |]. rewrite iter_xO.
      split; [| reflexivity]. f_equal. f_equal. lia. }
  destruct Hal as [mz [ez [-> [Hmz ->]]]].
  assert (Hdz : Zdigits2 (Zpos mz) = 53).
  { apply digits_unique; [lia |]. rewrite Hmz. split.
    - replace (53 - 1) with ((d - 1) + (53 - d)) by lia.
      rewrite Z.pow_add_r by lia.
      apply Z.mul_le_mono_nonneg_r; [apply Z.pow_nonneg; lia | assumption].
    - replace 53 with (d + (53 - d)) at 2 by lia.
      rewrite Z.pow_add_r by lia.
      apply Z.mul_lt_mono_pos_r; [apply Z.pow_pos_nonneg; lia | assumption]. }
  assert (HF : F (Zpos mz) (d - 53) = IZR (Zpos p)).
  { rewrite Hmz, F_shift by lia. replace (d - 53 + (53 - d)) with 0 by lia.
    apply F_0_exp. }
  destruct (bra_correct (IZR (Zpos p)) (Zpos mz) (d - 53) loc_Exact)
    as [m' [e' [Hbra [Hcan [_ Hr]]]]]; try (rewrite ?Hdz; lia).
  { exact (eq_sym HF). }
  exists m', e'. split; [exact Hbra |].
  assert (Hv : F (Zpos m') e' = IZR (Zpos p))
    by (apply rounds_to_G; [assumption | apply G_int; simpl; lia]).
  split; [assumption | split; [| assumption]].
  assert (Hb : (powerRZ 2 0 <= F (Zpos m') e' < powerRZ 2 53)%R).
  { rewrite Hv. rewrite (pow2_IZR 53) by lia. simpl powerRZ.
    split; [apply IZR_le; lia | apply IZR_lt; lia]. }
  pose proof (canonical_exponent _ _ _ _ Hcan Hb). lia.
Qed.

(** Division *)
Lemma new_location_located q r D e :
  0 < D -> 0 <= r < D ->
  located ((IZR q + IZR r / IZR D) * powerRZ 2 e)%R q e (new_location D r).
Proof.
  intros HD [Hr0 HrD].
  assert (Hu := pow2_pos e).
  assert (HDr : (0 < IZR D)%R) by (apply IZR_lt; lia).
  set (t := (IZR r / IZR D)%R).
  assert (Ht : (t * IZR D = IZR r)%R) by (unfold t; field; lra).
  assert (HF1 : F (q + 1) e = (F q e + powerRZ 2 e)%R)
    by now rewrite F_plus, F_one.
  assert (HFq : F q e = (IZR q * powerRZ 2 e)%R) by reflexivity.
  assert (Hcases : r = 0 \/ (0 < r /\ 2 * r < D) \/ (0 < r /\ 2 * r = D)
                   \/ (0 < r /\ 2 * r > D)) by lia.
  assert (Hloc : new_location D r =
                 if r =? 0 then loc_Exact
                 else loc_Inexact (Z.compare (2 * r) D)).
  { unfold new_location, new_location_even, new_location_odd.
    destruct (Z.even D) eqn:Hev; [reflexivity |].
    destruct (r =? 0); [reflexivity |]. f_equal.
    assert (Hodd : Z.odd D = true) by (rewrite <- Z.negb_even, Hev; reflexivity).
    apply Z.odd_spec in Hodd. destruct Hodd as [h Hh].
    destruct (Z.compare_spec (2 * r + 1) D);
      destruct (Z.compare_spec (2 * r) D); try reflexivity; lia. }
  rewrite Hloc.
  destruct Hcases as [H | [[H0 H] | [[H0 H] | [H0 H]]]].
  - subst r. simpl. unfold t. rewrite HFq.
    unfold Rdiv. rewrite Rmult_0_l. ring.
  - assert (Hne : (r =? 0) = false) by (apply Z.eqb_neq; lia).
    rewrite Hne. assert (Hc : (2 * r ?= D) = Lt) by (apply Z.compare_lt_iff; lia).
    rewrite Hc. cbn [located]. rewrite HF1, HFq.
    apply IZR_lt in H0, H, HrD. rewrite mult_IZR in H.
    assert (0 < t)%R by nra. assert (2 * t < 1)%R by nra.
    repeat split; nra.
  - assert (Hne : (r =? 0) = false) by (apply Z.eqb_neq; lia).
    rewrite Hne. assert (Hc : (2 * r ?= D) = Eq) by (apply Z.compare_eq_iff; lia).
    rewrite Hc. cbn [located]. rewrite HF1, HFq.
    apply IZR_lt in H0, HrD. apply (f_equal IZR) in H. rewrite mult_IZR in H.
    assert (2 * t = 1)%R by nra.
    repeat split; nra.
  - assert (Hne : (r =? 0) = false) by (apply Z.eqb_neq; lia).
    rewrite Hne. assert (Hc : (2 * r ?= D) = Gt) by (apply Z.compare_gt_iff; lia).
    rewrite Hc. cbn [located]. rewrite HF1, HFq.
    apply Z.gt_lt in H. apply IZR_lt in H0, H, HrD. rewrite mult_IZR in H.
    assert (t < 1)%R by nra. assert (2 * t > 1)%R by nra.
    repeat split; nra.
Qed.

Lemma SFdiv_spec mx ex my ey :
  2 ^ 52 <= Zpos mx < 2 ^ 53 -> 2 ^ 52 <= Zpos my < 2 ^ 53 ->
  -400 <= ex <= 400 -> -400 <= ey <= 400 ->
  exists m e,
    SFdiv 53 1024 (S754_finite false mx ex) (S754_finite false my ey)
    = S754_finite false m e /\
    2 ^ 52 <= Zpos m < 2 ^ 53 /\
    rounds_to (F (Zpos mx) ex / F (Zpos my) ey) (F (Zpos m) e).
Proof.
  intros Hmx Hmy Hex Hey.
  assert (Hdx : Zdigits2 (Zpos mx) = 53) by (apply digits_unique; lia).
  assert (Hdy : Zdigits2 (Zpos my) = 53) by (apply digits_unique; lia).
  unfold SFdiv, SFdiv_core_binary. rewrite Hdx, Hdy.
  replace (53 + ex - (53 + ey)) with (ex - ey) by lia.
  rewrite fexp_normal by lia.
  rewrite Z.min_l by lia.
  replace (ex - ey - (ex - ey - 53)) with 53 by lia.
  rewrite Z.shiftl_mul_pow2 by lia.
  set (N := Zpos mx * 2 ^ 53).
  set (e' := ex - ey - 53).
  pose proof (Z.div_eucl_eq N (Zpos my)) as Heq.
  pose proof (Z.mod_pos_bound N (Zpos my)) as Hmod.
  unfold Z.modulo in Hmod.
  destruct (Z.div_eucl N (Zpos my)) as [q r].
  specialize (Heq ltac:(lia)). specialize (Hmod ltac:(lia)).
  assert (HN : 2 ^ 52 * 2 ^ 53 <= N < 2 ^ 53 * 2 ^ 53) by (unfold N; lia).
  assert (Hq : 2 ^ 52 <= q < 2 ^ 54) by nia.
  assert (Hdq : 53 <= Zdigits2 q <= 54).
  { pose proof (digits_bounds q ltac:(lia)) as [Hlo Hhi].
    split.
    - destruct (Z_le_gt_dec 53 (Zdigits2 q)); [assumption |].
      assert (2 ^ Zdigits2 q <= 2 ^ 52) by (apply Z.pow_le_mono_r; lia). lia.
    - destruct (Z_le_gt_dec (Zdigits2 q) 54); [assumption |].
      assert (2 ^ 54 <= 2 ^ (Zdigits2 q - 1)) by (apply Z.pow_le_mono_r; lia).
      lia. }
  assert (Hx : (F (Zpos mx) ex / F (Zpos my) ey
                = (IZR q + IZR r / IZR (Zpos my)) * powerRZ 2 e')%R).
  { unfold F, e'.
    assert (Hy := pow2_pos ey). assert (H53 := pow2_pos 53).
    assert (He' := pow2_pos (ex - ey - 53)).
    assert (Hmyr : (0 < IZR (Zpos my))%R) by (apply IZR_lt; lia).
    assert (Hsplit : (powerRZ 2 ex
                      = powerRZ 2 (ex - ey - 53) * powerRZ 2 ey * powerRZ 2 53)%R).
    { rewrite <- !pow2_add. f_equal. lia. }
    rewrite Hsplit.
    assert (HNr : (IZR q * IZR (Zpos my) + IZR r
                   = IZR (Zpos mx) * powerRZ 2 53)%R).
    { rewrite (pow2_IZR 53) by lia. rewrite <- !mult_IZR, <- plus_IZR.
      f_equal. unfold N in Heq. lia. }
    assert (Hq' : (IZR q + IZR r / IZR (Zpos my)
                   = IZR (Zpos mx) * powerRZ 2 53 / IZR (Zpos my))%R)
      by (rewrite <- HNr; field; lra).
    rewrite Hq'. field. split; lra. }
  cbn [xorb].
  destruct (bra_correct (F (Zpos mx) ex / F (Zpos my) ey)%R q e'
              (new_location (Zpos my) r))
    as [m' [e'' [Hbra [Hcan [_ Hr]]]]]; try (unfold e'; lia).
  { rewrite Hx. apply new_location_located; lia. }
  exists m', e''. auto.
Qed.

(** Multiplication *)
Lemma SFmul_spec mx ex my ey :
  2 ^ 52 <= Zpos mx < 2 ^ 53 -> 2 ^ 52 <= Zpos my < 2 ^ 53 ->
  -400 <= ex <= 400 -> -400 <= ey <= 400 ->
  exists m e,
    SFmul 53 1024 (S754_finite false mx ex) (S754_finite false my ey)
    = S754_finite false m e /\
    2 ^ 52 <= Zpos m < 2 ^ 53 /\
    rounds_to (F (Zpos mx) ex * F (Zpos my) ey) (F (Zpos m) e).
Proof.
  intros Hmx Hmy Hex Hey. unfold SFmul. cbn [xorb].
  assert (Hp : 2 ^ 52 * 2 ^ 52 <= Zpos (mx * my) < 2 ^ 53 * 2 ^ 53)
    by (rewrite Pos2Z.inj_mul; nia).
  assert (Hd : 105 <= Zdigits2 (Zpos (mx * my)) <= 106).
  { pose proof (digits_bounds (Zpos (mx * my)) ltac:(lia)) as [Hlo Hhi].
    split.
    - destruct (Z_le_gt_dec 105 (Zdigits2 (Zpos (mx * my)))); [assumption |].
      assert (2 ^ Zdigits2 (Zpos (mx * my)) <= 2 ^ 104)
        by (apply Z.pow_le_mono_r; lia).
      lia.
    - destruct (Z_le_gt_dec (Zdigits2 (Zpos (mx * my))) 106); [assumption |].
      assert (2 ^ 106 <= 2 ^ (Zdigits2 (Zpos (mx * my)) - 1))
        by (apply Z.pow_le_mono_r; lia).
      lia. }
  destruct (bra_correct (F (Zpos mx) ex * F (Zpos my) ey)%R
              (Zpos (mx * my)) (ex + ey) loc_Exact)
    as [m' [e'' [Hbra [Hcan [_ Hr]]]]]; try lia.
  { cbn [located]. unfold F. rewrite Pos2Z.inj_mul, mult_IZR, pow2_add. ring. }
  exists m', e''. auto.
Qed.

(** Truncation *)

Lemma int_of_float_spec m e :
  exists t,
    int_of_float (S754_finite false m e) = Some t /\
    (IZR t <= F (Zpos m) e < IZR t + 1)%R.
Proof.
  unfold int_of_float. cbn [cond_Zopp].
  destruct (Z.leb_spec 0 e) as [He | He].
  - eexists. split; [reflexivity |].
    rewrite <- (F_0_exp (Zpos m * 2 ^ e)), F_shift by lia.
    rewrite Z.add_0_l. lra.
  - eexists. split; [reflexivity |].
    assert (Hp : 0 < 2 ^ (- e)) by (apply Z.pow_pos_nonneg; lia).
    rewrite Z.quot_div_nonneg by lia.
    pose proof (Z.div_mod (Zpos m) (2 ^ (- e)) ltac:(lia)) as Hdm.
    pose proof (Z.mod_pos_bound (Zpos m) (2 ^ (- e)) Hp) as Hmod.
    set (t := Zpos m / 2 ^ (- e)) in *. set (r := Zpos m mod 2 ^ (- e)) in *.
    assert (HF : F (Zpos m) e = (IZR t + F r e)%R).
    { rewrite Hdm, F_plus. f_equal.
      rewrite Z.mul_comm, F_shift by lia. replace (e + - e) with 0 by lia.
      apply F_0_exp. }
    assert (Hr0 : (0 <= F r e)%R).
    { rewrite <- (F_zero e). apply F_le. lia. }
    assert (Hr1 : (F r e < 1)%R).
    { apply Rlt_le_trans with (F (2 ^ (- e)) e); [apply F_lt; lia |].
      rewrite F_pow2 by lia. replace (- e + e) with 0 by lia. simpl. lra. }
    lra.
Qed.


Lemma G_pow2 e : -1074 <= e -> G (powerRZ 2 e).
Proof.
  intros He. exists 1, e. rewrite F_one. split; [reflexivity | split; [simpl |]; lia].
Qed.

Lemma ratio_bounds k n :
  1 <= k <= n -> n < 2 ^ 53 ->
  (powerRZ 2 (-53) <= IZR k / IZR n <= 1)%R.
Proof.
  intros Hk Hn.
  assert (Hnr : (0 < IZR n)%R) by (apply IZR_lt; lia).
  assert (Hkr : (1 <= IZR k)%R) by (apply IZR_le; lia).
  assert (Hkn : (IZR k <= IZR n)%R) by (apply IZR_le; lia).
  assert (Hn53 : (IZR n < powerRZ 2 53)%R)
    by (rewrite pow2_IZR by lia; apply IZR_lt; lia).
  assert (Hp := pow2_pos (-53)).
  assert (H1 : (powerRZ 2 (-53) * powerRZ 2 53 = 1)%R)
    by (rewrite <- pow2_add; reflexivity).
  split.
  - apply Rmult_le_reg_r with (IZR n); [assumption |].
    unfold Rdiv. rewrite Rmult_assoc, Rinv_l, Rmult_1_r by lra. nra.
  - apply Rmult_le_reg_r with (IZR n); [assumption |].
    unfold Rdiv. rewrite Rmult_assoc, Rinv_l, Rmult_1_r by lra. lra.
Qed.

(** The quotient [scanned / total] as a binary64 number. *)
Lemma quotient_spec k n :
  1 <= k <= n -> n < 2 ^ 53 ->
  exists m e,
    SFdiv 53 1024 (float_of_int k) (float_of_int n) = S754_finite false m e /\
    2 ^ 52 <= Zpos m < 2 ^ 53 /\
    -105 <= e <= -52 /\
    rounds_to (IZR k / IZR n) (F (Zpos m) e).
Proof.
  intros Hk Hn.
  destruct (float_of_int_spec k ltac:(lia)) as [mk [ek [Ek [Ck [Bk Vk]]]]].
  destruct (float_of_int_spec n ltac:(lia)) as [mn [en [En [Cn [Bn Vn]]]]].
  destruct (SFdiv_spec mk ek mn en Ck Cn ltac:(lia) ltac:(lia))
    as [m [e [Ed [Cm Hr]]]].
  rewrite Vk, Vn in Hr.
  exists m, e. rewrite Ek, En.
  split; [exact Ed |]. split; [exact Cm |]. split; [| exact Hr].
  pose proof (ratio_bounds k n Hk Hn) as [Hlo Hhi].
  assert (H1 : (powerRZ 2 (-53) <= F (Zpos m) e)%R)
    by (apply (rounds_to_ge_G _ _ _ Hr); [apply G_pow2; lia | assumption]).
  assert (H2 : (F (Zpos m) e <= powerRZ 2 0)%R)
    by (apply (rounds_to_le_G _ _ _ Hr); [apply G_pow2; lia | assumption]).
  assert (H3 : (powerRZ 2 0 < powerRZ 2 1)%R) by (apply pow2_lt; lia).
  pose proof (canonical_exponent (Zpos m) e (-53) 1 Cm ltac:(lra)). lia.
Qed.

(** What [int((scanned / total) * 100)] is: the integer part of the
    binary64 number nearest to 100 times the binary64 number nearest to
    [scanned / total]. *)
Lemma progress_value_spec k n :
  1 <= k <= n -> n < 2 ^ 53 ->
  exists m e mp ep v,
    SFdiv 53 1024 (float_of_int k) (float_of_int n) = S754_finite false m e /\
    2 ^ 52 <= Zpos m < 2 ^ 53 /\
    rounds_to (IZR k / IZR n) (F (Zpos m) e) /\
    SFmul 53 1024 (S754_finite false m e) (float_of_int 100)
    = S754_finite false mp ep /\
    rounds_to (F (Zpos m) e * 100) (F (Zpos mp) ep) /\
    progress_value k n = Some v /\
    (IZR v <= F (Zpos mp) ep < IZR v + 1)%R.
Proof.
  intros Hk Hn.
  destruct (quotient_spec k n Hk Hn) as [m [e [Eq [Cm [Be Hq]]]]].
  destruct (float_of_int_spec 100 ltac:(lia)) as [mh [eh [Eh [Ch [Bh Vh]]]]].
  destruct (SFmul_spec m e mh eh Cm Ch ltac:(lia) ltac:(lia))
    as [mp [ep [Ep [Cp Hp]]]].
  destruct (int_of_float_spec mp ep) as [v [Ev Hv]].
  exists m, e, mp, ep, v.
  unfold progress_value. rewrite Eq, Eh, Ep.
  split; [reflexivity |]. split; [exact Cm |]. split; [exact Hq |].
  split; [reflexivity |]. split; [now rewrite <- Vh |].
  split; assumption.
Qed.

Lemma IZR_floor_le a b x y :
  (IZR a <= x < IZR a + 1)%R -> (IZR b <= y < IZR b + 1)%R ->
  (x <= y)%R -> a <= b.
Proof.
  intros [Ha1 Ha2] [Hb1 Hb2] Hxy.
  assert (H : (IZR a < IZR (b + 1))%R) by (rewrite plus_IZR; lra).
  apply lt_IZR in H. lia.
Qed.

Theorem progress_value_range k n :
  1 <= k <= n -> n < 2 ^ 53 ->
  exists v, progress_value k n = Some v /\ 0 <= v <= 100.
Proof.
  intros Hk Hn.
  destruct (progress_value_spec k n Hk Hn)
    as [m [e [mp [ep [v [_ [_ [Hq [_ [Hp [Ev Hv]]]]]]]]]]].
  exists v. split; [assumption |].
  pose proof (ratio_bounds k n Hk Hn) as [Hlo Hhi].
  assert (Hpos := pow2_pos (-53)).
  set (q := F (Zpos m) e) in *. set (p := F (Zpos mp) ep) in *.
  assert (Hq0 : (0 <= q)%R).
  { apply (rounds_to_ge_G _ _ _ Hq); [apply (G_int 0); simpl; lia | lra]. }
  assert (Hq1 : (q <= 1)%R).
  { apply (rounds_to_le_G _ _ _ Hq); [apply (G_int 1); simpl; lia | assumption]. }
  assert (Hp0 : (0 <= p)%R).
  { apply (rounds_to_ge_G _ _ _ Hp); [apply (G_int 0); simpl; lia | lra]. }
  assert (Hp1 : (p <= 100)%R).
  { apply (rounds_to_le_G _ _ _ Hp); [apply (G_int 100); simpl; lia | lra]. }
  split.
  - apply (IZR_floor_le 0 v 0%R p); [lra | assumption | assumption].
  - apply (IZR_floor_le v 100 p 100%R); [assumption | lra | assumption].
Qed.

Theorem progress_value_complete n :
  1 <= n < 2 ^ 53 -> progress_value n n = Some 100.
Proof.
  intros Hn.
  destruct (progress_value_spec n n ltac:(lia) ltac:(lia))
    as [m [e [mp [ep [v [_ [_ [Hq [_ [Hp [Ev Hv]]]]]]]]]]].
  set (q := F (Zpos m) e) in *. set (p := F (Zpos mp) ep) in *.
  assert (Hnr : (0 < IZR n)%R) by (apply IZR_lt; lia).
  assert (Hx : (IZR n / IZR n = 1)%R) by (field; lra).
  rewrite Hx in Hq.
  assert (Eq1 : q = 1%R)
    by (apply (rounds_to_G _ _ Hq); apply (G_int 1); simpl; lia).
  rewrite Eq1 in Hp.
  assert (Ep : p = 100%R).
  { replace 100%R with (1 * 100)%R by ring.
    apply (rounds_to_G _ _ Hp). replace (1 * 100)%R with 100%R by ring.
    apply (G_int 100); simpl; lia. }
  rewrite Ep in Hv. rewrite Ev. f_equal.
  apply Z.le_antisymm.
  - apply (IZR_floor_le v 100 100%R 100%R); [assumption | lra | lra].
  - apply (IZR_floor_le 100 v 100%R 100%R); [lra | assumption | lra].
Qed.

Theorem progress_value_monotone k1 k2 n v1 v2 :
  1 <= k1 -> k1 <= k2 -> k2 <= n -> n < 2 ^ 53 ->
  progress_value k1 n = Some v1 -> progress_value k2 n = Some v2 ->
  v1 <= v2.
Proof.
  intros H1 H12 H2 Hn E1 E2.
  destruct (Z.eq_dec k1 k2) as [-> | Hne].
  { rewrite E1 in E2. injection E2 as ->. lia. }
  destruct (progress_value_spec k1 n ltac:(lia) Hn)
    as [m1 [e1 [mp1 [ep1 [w1 [_ [C1 [Hq1 [Em1 [Hp1 [Ew1 Hv1]]]]]]]]]]].
  destruct (progress_value_spec k2 n ltac:(lia) Hn)
    as [m2 [e2 [mp2 [ep2 [w2 [_ [C2 [Hq2 [Em2 [Hp2 [Ew2 Hv2]]]]]]]]]]].
  rewrite E1 in Ew1. injection Ew1 as <-.
  rewrite E2 in Ew2. injection Ew2 as <-.
  assert (Hnr : (0 < IZR n)%R) by (apply IZR_lt; lia).
  assert (Hk : (IZR k1 < IZR k2)%R) by (apply IZR_lt; lia).
  assert (Hx : (IZR k1 / IZR n < IZR k2 / IZR n)%R).
  { unfold Rdiv. apply Rmult_lt_compat_r; [apply Rinv_0_lt_compat |];
      assumption. }
  assert (Hq : (F (Zpos m1) e1 <= F (Zpos m2) e2)%R)
    by (apply (rounds_to_mono _ _ _ _ Hq1 Hq2 Hx)).
  assert (Hp : (F (Zpos mp1) ep1 <= F (Zpos mp2) ep2)%R).
  { destruct (Rle_lt_or_eq_dec _ _ Hq) as [Hlt | Heq].
    - apply (rounds_to_mono _ _ _ _ Hp1 Hp2). lra.
    - (* the same quotient, hence the same product *)
      destruct (canonical_unique _ _ _ _ C1 C2 Heq) as [Hm He].
      injection Hm as ->. subst e2. rewrite Em1 in Em2.
      injection Em2 as -> ->. lra. }
  apply (IZR_floor_le v1 v2 _ _ Hv1 Hv2 Hp).
Qed.

(** *** The values reported in a run *)

(** The value passed to the callback after [k] of [n] projects. *)
Definition percent (k n : Z) : Z :=
  match progress_value k n with Some v => v | None => 0 end.

(** The values for the projects after the first [scanned] ones. *)
Fixpoint percents (total scanned : Z) (count : nat) : list Z :=
  match count with
  | O => []
  | S count' =>
      percent (scanned + 1) total :: percents total (scanned + 1) count'
  end.

Lemma percent_value k n :
  1 <= k <= n -> n < 2 ^ 53 -> progress_value k n = Some (percent k n).
Proof.
  intros Hk Hn. unfold percent.
  destruct (progress_value_range k n Hk Hn) as [v [-> _]]. reflexivity.
Qed.

Lemma percent_range k n :
  1 <= k <= n -> n < 2 ^ 53 -> 0 <= percent k n <= 100.
Proof.
  intros Hk Hn. unfold percent.
  destruct (progress_value_range k n Hk Hn) as [v [-> Hv]]. exact Hv.
Qed.

Lemma percent_monotone k1 k2 n :
  1 <= k1 -> k1 <= k2 -> k2 <= n -> n < 2 ^ 53 ->
  percent k1 n <= percent k2 n.
Proof.
  intros H1 H12 H2 Hn.
  apply (progress_value_monotone k1 k2 n); try assumption;
    apply percent_value; lia.
Qed.

Lemma percent_complete n : 1 <= n < 2 ^ 53 -> percent n n = 100.
Proof.
  intros Hn. unfold percent. now rewrite progress_value_complete.
Qed.

Lemma report_loop_percents ds generates total :
  has_chunk_settings ds = true -> has_progress_callback ds = true ->
  total < 2 ^ 53 ->
  forall projects scanned rep log,
    0 <= scanned ->
    scanned + Z.of_nat (List.length projects) <= total ->
    let run := report_loop ds generates total projects scanned rep log in
    run_ending run = Finished /\
    reported run = rep ++ percents total scanned (List.length projects).
Proof.
  intros Hs Hc Ht projects.
  induction projects as [| p ps IH]; intros scanned rep log H0 Hlen.
  - cbn. now rewrite app_nil_r.
  - cbn [List.length] in Hlen. rewrite Nat2Z.inj_succ in Hlen.
    cbn [report_loop List.length percents]. rewrite Hs, Hc. cbn [negb andb].
    assert (Hpos : (0 <? total) = true) by (apply Z.ltb_lt; lia).
    rewrite Hpos, (percent_value (scanned + 1) total) by lia.
    destruct (IH (scanned + 1) (rep ++ [percent (scanned + 1) total])
                (log ++ [(p, generates p)]) ltac:(lia) ltac:(lia))
      as [He Hr].
    split; [exact He |]. rewrite Hr, <- app_assoc. reflexivity.
Qed.

Lemma percents_length total scanned count :
  List.length (percents total scanned count) = count.
Proof.
  revert scanned. induction count as [| c IH]; intros scanned; cbn;
    [reflexivity | now rewrite IH].
Qed.

Lemma percents_range total :
  total < 2 ^ 53 ->
  forall count scanned,
    0 <= scanned -> scanned + Z.of_nat count <= total ->
    Forall (fun v => 0 <= v <= 100) (percents total scanned count).
Proof.
  intros Ht count.
  induction count as [| c IH]; intros scanned H0 Hlen; cbn [percents].
  - constructor.
  - rewrite Nat2Z.inj_succ in Hlen. constructor.
    + apply percent_range; lia.
    + apply IH; lia.
Qed.

Lemma percents_sorted total :
  total < 2 ^ 53 ->
  forall count scanned,
    0 <= scanned -> scanned + Z.of_nat count <= total ->
    Sorted Z.le (percents total scanned count).
Proof.
  intros Ht count.
  induction count as [| c IH]; intros scanned H0 Hlen; cbn [percents].
  - constructor.
  - rewrite Nat2Z.inj_succ in Hlen. constructor.
    + apply IH; lia.
    + destruct c as [| c']; cbn [percents]; constructor.
      rewrite Nat2Z.inj_succ in Hlen. apply percent_monotone; lia.
Qed.

Lemma percents_last total count :
  forall scanned d,
    last (percents total scanned (S count)) d
    = percent (scanned + Z.of_nat (S count)) total.
Proof.
  induction count as [| c IH]; intros scanned d.
  - reflexivity.
  - change (percents total scanned (S (S c)))
      with (percent (scanned + 1) total
              :: percents total (scanned + 1) (S c)).
    change (last (?x :: percents total (scanned + 1) (S c)) d)
      with (last (percents total (scanned + 1) (S c)) d).
    rewrite IH. f_equal. rewrite !Nat2Z.inj_succ. lia.
Qed.

Lemma scan_projects_not_empty ds : scan_projects ds <> [].
Proof.
  unfold scan_projects. destruct (top_level_dirs ds); discriminate.
Qed.

(** A data source whose constructor sets the chunk attributes and that
    was given a progress callback reports one value after each project;
    the values never decrease, lie within 0..100, and the last one is
    100, whether the snapshot generations succeed or fail. *)
Theorem progress_reports ds generates :
  has_chunk_settings ds = true ->
  has_progress_callback ds = true ->
  Z.of_nat (List.length (scan_projects ds)) < 2 ^ 53 ->
  let run := generate_json_report ds generates in
  run_ending run = Finished /\
  List.length (reported run) = List.length (scan_projects ds) /\
  Sorted Z.le (reported run) /\
  Forall (fun v => 0 <= v <= 100) (reported run) /\
  last (reported run) 0 = 100.
Proof.
  intros Hs Hc Ht. unfold generate_json_report.
  set (projects := scan_projects ds) in *.
  set (total := Z.of_nat (List.length projects)) in *.
  destruct (report_loop_percents ds generates total Hs Hc Ht projects 0 [] []
              ltac:(lia) ltac:(unfold total; lia)) as [He Hr].
  cbn zeta. rewrite He, Hr. cbn [app].
  split; [reflexivity |]. split; [apply percents_length |].
  split; [apply percents_sorted; unfold total; lia |].
  split; [apply percents_range; unfold total; lia |].
  destruct (List.length projects) as [| c] eqn:Hn.
  - exfalso. apply (scan_projects_not_empty ds).
    apply length_zero_iff_nil. exact Hn.
  - rewrite percents_last. rewrite Z.add_0_l. fold total.
    apply percent_complete. unfold total in *. lia.
Qed.

Lemma progress_reports_witness :
  run_ending (generate_json_report fifty_local_folders (fun _ => true))
  = Finished /\
  last (reported (generate_json_report fifty_local_folders (fun _ => true))) 0
  = 100.
Proof.
  destruct (progress_reports fifty_local_folders (fun _ => true)
              eq_refl eq_refl ltac:(vm_compute; reflexivity))
    as [Hend [_ [_ [_ Hlast]]]].
  split; [exact Hend | exact Hlast].
Defined.


(** *** Any two counters below 2^53

    The same arithmetic when [scanned] is not bounded by [total], as in a
    second run on the same object and in the clone loop of the GitLab
    source. *)

Lemma ratio_bounds_any k n :
  1 <= k < 2 ^ 53 -> 1 <= n < 2 ^ 53 ->
  (powerRZ 2 (-53) <= IZR k / IZR n <= powerRZ 2 53)%R.
Proof.
  intros Hk Hn.
  assert (Hnr : (1 <= IZR n)%R) by (apply IZR_le; lia).
  assert (Hkr : (1 <= IZR k)%R) by (apply IZR_le; lia).
  assert (Hn53 : (IZR n <= powerRZ 2 53)%R)
    by (rewrite pow2_IZR by lia; apply IZR_le; lia).
  assert (Hk53 : (IZR k <= powerRZ 2 53)%R)
    by (rewrite pow2_IZR by lia; apply IZR_le; lia).
  assert (Hp := pow2_pos (-53)).
  assert (H1 : (powerRZ 2 (-53) * powerRZ 2 53 = 1)%R)
    by (rewrite <- pow2_add; reflexivity).
  split.
  - apply Rmult_le_reg_r with (IZR n); [lra |].
    unfold Rdiv. rewrite Rmult_assoc, Rinv_l, Rmult_1_r by lra. nra.
  - apply Rmult_le_reg_r with (IZR n); [lra |].
    unfold Rdiv. rewrite Rmult_assoc, Rinv_l, Rmult_1_r by lra. nra.
Qed.

Lemma quotient_any k n :
  1 <= k < 2 ^ 53 -> 1 <= n < 2 ^ 53 ->
  exists m e,
    SFdiv 53 1024 (float_of_int k) (float_of_int n) = S754_finite false m e /\
    2 ^ 52 <= Zpos m < 2 ^ 53 /\
    -105 <= e <= 1 /\
    rounds_to (IZR k / IZR n) (F (Zpos m) e).
Proof.
  intros Hk Hn.
  destruct (float_of_int_spec k Hk) as [mk [ek [Ek [Ck [Bk Vk]]]]].
  destruct (float_of_int_spec n Hn) as [mn [en [En [Cn [Bn Vn]]]]].
  destruct (SFdiv_spec mk ek mn en Ck Cn ltac:(lia) ltac:(lia))
    as [m [e [Ed [Cm Hr]]]].
  rewrite Vk, Vn in Hr.
  exists m, e. rewrite Ek, En.
  split; [exact Ed |]. split; [exact Cm |]. split; [| exact Hr].
  pose proof (ratio_bounds_any k n Hk Hn) as [Hlo Hhi].
  assert (H1 : (powerRZ 2 (-53) <= F (Zpos m) e)%R)
    by (apply (rounds_to_ge_G _ _ _ Hr); [apply G_pow2; lia | assumption]).
  assert (H2 : (F (Zpos m) e <= powerRZ 2 53)%R)
    by (apply (rounds_to_le_G _ _ _ Hr); [apply G_pow2; lia | assumption]).
  assert (H3 : (powerRZ 2 53 < powerRZ 2 54)%R) by (apply pow2_lt; lia).
  pose proof (canonical_exponent (Zpos m) e (-53) 54 Cm ltac:(lra)). lia.
Qed.

Lemma progress_value_any k n :
  1 <= k < 2 ^ 53 -> 1 <= n < 2 ^ 53 ->
  exists m e mp ep v,
    2 ^ 52 <= Zpos m < 2 ^ 53 /\
    rounds_to (IZR k / IZR n) (F (Zpos m) e) /\
    SFmul 53 1024 (S754_finite false m e) (float_of_int 100)
    = S754_finite false mp ep /\
    rounds_to (F (Zpos m) e * 100) (F (Zpos mp) ep) /\
    progress_value k n = Some v /\
    (IZR v <= F (Zpos mp) ep < IZR v + 1)%R.
Proof.
  intros Hk Hn.
  destruct (quotient_any k n Hk Hn) as [m [e [Eq [Cm [Be Hq]]]]].
  destruct (float_of_int_spec 100 ltac:(lia)) as [mh [eh [Eh [Ch [Bh Vh]]]]].
  destruct (SFmul_spec m e mh eh Cm Ch ltac:(lia) ltac:(lia))
    as [mp [ep [Ep [Cp Hp]]]].
  destruct (int_of_float_spec mp ep) as [v [Ev Hv]].
  exists m, e, mp, ep, v.
  unfold progress_value. rewrite Eq, Eh, Ep.
  split; [exact Cm |]. split; [exact Hq |].
  split; [reflexivity |]. split; [now rewrite <- Vh |].
  split; assumption.
Qed.

Lemma progress_value_defined k n :
  1 <= k < 2 ^ 53 -> 1 <= n < 2 ^ 53 ->
  progress_value k n = Some (percent k n).
Proof.
  intros Hk Hn. unfold percent.
  destruct (progress_value_any k n Hk Hn)
    as [m [e [mp [ep [v [_ [_ [_ [_ [-> _]]]]]]]]]].
  reflexivity.
Qed.

Lemma percent_monotone_any k1 k2 n :
  1 <= k1 -> k1 <= k2 -> k2 < 2 ^ 53 -> 1 <= n < 2 ^ 53 ->
  percent k1 n <= percent k2 n.
Proof.
  intros H1 H12 H2 Hn.
  destruct (Z.eq_dec k1 k2) as [-> | Hne]; [lia |].
  unfold percent.
  destruct (progress_value_any k1 n ltac:(lia) Hn)
    as [m1 [e1 [mp1 [ep1 [v1 [C1 [Hq1 [Em1 [Hp1 [-> Hv1]]]]]]]]]].
  destruct (progress_value_any k2 n ltac:(lia) Hn)
    as [m2 [e2 [mp2 [ep2 [v2 [C2 [Hq2 [Em2 [Hp2 [-> Hv2]]]]]]]]]].
  assert (Hnr : (0 < IZR n)%R) by (apply IZR_lt; lia).
  assert (Hk : (IZR k1 < IZR k2)%R) by (apply IZR_lt; lia).
  assert (Hx : (IZR k1 / IZR n < IZR k2 / IZR n)%R).
  { unfold Rdiv. apply Rmult_lt_compat_r; [apply Rinv_0_lt_compat |];
      assumption. }
  assert (Hq : (F (Zpos m1) e1 <= F (Zpos m2) e2)%R)
    by (apply (rounds_to_mono _ _ _ _ Hq1 Hq2 Hx)).
  assert (Hp : (F (Zpos mp1) ep1 <= F (Zpos mp2) ep2)%R).
  { destruct (Rle_lt_or_eq_dec _ _ Hq) as [Hlt | Heq].
    - apply (rounds_to_mono _ _ _ _ Hp1 Hp2). lra.
    - destruct (canonical_unique _ _ _ _ C1 C2 Heq) as [Hm He].
      injection Hm as ->. subst e2. rewrite Em1 in Em2.
      injection Em2 as -> ->. lra. }
  apply (IZR_floor_le v1 v2 _ _ Hv1 Hv2 Hp).
Qed.

(** A quotient that is a binary64 number, with an integer percentage. *)
Lemma percent_exact k n t :
  1 <= k < 2 ^ 53 -> 1 <= n < 2 ^ 53 ->
  G (IZR k / IZR n) -> 100 * k = t * n -> 0 <= t < 2 ^ 53 ->
  percent k n = t.
Proof.
  intros Hk Hn HG Ht Ht53. unfold percent.
  destruct (progress_value_any k n Hk Hn)
    as [m [e [mp [ep [v [_ [Hq [_ [Hp [-> Hv]]]]]]]]]].
  set (q := F (Zpos m) e) in *. set (p := F (Zpos mp) ep) in *.
  assert (Eq : q = (IZR k / IZR n)%R) by (apply (rounds_to_G _ _ Hq HG)).
  assert (Hnr : (0 < IZR n)%R) by (apply IZR_lt; lia).
  assert (Hx : (q * 100 = IZR t)%R).
  { rewrite Eq. apply (f_equal IZR) in Ht. rewrite !mult_IZR in Ht.
    apply Rmult_eq_reg_r with (IZR n); [| lra].
    unfold Rdiv. replace (IZR k * / IZR n * 100 * IZR n)%R
      with (100 * IZR k * (IZR n * / IZR n))%R by ring.
    rewrite Rinv_r by lra. lra. }
  rewrite Hx in Hp.
  assert (Ep : p = IZR t)
    by (apply (rounds_to_G _ _ Hp); apply G_int; lia).
  rewrite Ep in Hv.
  apply Z.le_antisymm.
  - apply (IZR_floor_le v t (IZR t) (IZR t)); [assumption | lra | lra].
  - apply (IZR_floor_le t v (IZR t) (IZR t)); [lra | assumption | lra].
Qed.

(** Before the last project the value stays below 100. *)
Lemma percent_below_100 k n :
  1 <= k -> k < n -> n < 2 ^ 53 -> 0 <= percent k n <= 99.
Proof.
  intros Hk Hkn Hn.
  split; [apply percent_range; lia |].
  unfold percent.
  destruct (progress_value_any k n ltac:(lia) ltac:(lia))
    as [m [e [mp [ep [v [_ [Hq [_ [Hp [-> Hv]]]]]]]]]].
  set (q := F (Zpos m) e) in *. set (p := F (Zpos mp) ep) in *.
  set (u := powerRZ 2 (-53)). set (w := powerRZ 2 (-46)).
  assert (Hu := pow2_pos (-53)). fold u in Hu.
  assert (Hw : w = (128 * u)%R).
  { unfold w, u. replace (-46) with (-53 + 7) by lia.
    rewrite pow2_add, (pow2_IZR 7) by lia. simpl. lra. }
  assert (H53 : (powerRZ 2 53 * u = 1)%R)
    by (unfold u; rewrite <- pow2_add; reflexivity).
  assert (Hnr : (0 < IZR n)%R) by (apply IZR_lt; lia).
  assert (Hk1 : (IZR k <= IZR n - 1)%R)
    by (rewrite <- minus_IZR; apply IZR_le; lia).
  assert (Hn53 : (IZR n < powerRZ 2 53)%R)
    by (rewrite pow2_IZR by lia; apply IZR_lt; lia).
  assert (Hx : (IZR k / IZR n <= 1 - u)%R).
  { apply Rmult_le_reg_r with (IZR n); [assumption |].
    unfold Rdiv. rewrite Rmult_assoc, Rinv_l, Rmult_1_r by lra. nra. }
  assert (G1 : G (1 - u)).
  { exists (2 ^ 53 - 1), (-53). split; [| split; lia].
    unfold F. rewrite minus_IZR, <- (pow2_IZR 53) by lia. fold u. nra. }
  assert (Hq1 : (q <= 1 - u)%R)
    by (apply (rounds_to_le_G _ _ _ Hq G1 Hx)).
  assert (G2 : G (100 - w)).
  { exists (100 * 2 ^ 46 - 1), (-46). split; [| split; lia].
    unfold F. rewrite minus_IZR, mult_IZR, <- (pow2_IZR 46) by lia.
    fold w.
    assert (H46 : (powerRZ 2 46 * w = 1)%R)
      by (unfold w; rewrite <- pow2_add; reflexivity).
    nra. }
  assert (Hp100 : (p < 100)%R).
  { destruct (Rle_dec (q * 100) (100 - w)) as [Hle | Hgt].
    - pose proof (rounds_to_le_G _ _ _ Hp G2 Hle). lra.
    - destruct (Rlt_le_dec p 100) as [Hlt | Hge]; [assumption |].
      destruct Hp as [_ Hnear]. specialize (Hnear _ G2).
      unfold Rabs in Hnear. repeat destruct Rcase_abs; lra. }
  assert (Hv100 : (IZR v < IZR 100)%R) by lra.
  apply lt_IZR in Hv100. lia.
Qed.

Lemma percents_nth total :
  forall count scanned i,
    (i < count)%nat ->
    nth i (percents total scanned count) 0
    = percent (scanned + Z.of_nat i + 1) total.
Proof.
  induction count as [| c IH]; intros scanned i Hi; [lia |].
  destruct i as [| i]; cbn [percents nth].
  - f_equal. lia.
  - rewrite IH by lia. f_equal. lia.
Qed.

(** In a run as above the value 100 is reported after the last project
    and not before: after each earlier project the value is at most 99. *)
Theorem hundred_only_after_last_project ds generates i :
  has_chunk_settings ds = true ->
  has_progress_callback ds = true ->
  Z.of_nat (List.length (scan_projects ds)) < 2 ^ 53 ->
  (i + 1 < List.length (scan_projects ds))%nat ->
  0 <= nth i (reported (generate_json_report ds generates)) 0 <= 99.
Proof.
  intros Hs Hc Ht Hi. unfold generate_json_report.
  set (projects := scan_projects ds) in *.
  set (total := Z.of_nat (List.length projects)) in *.
  destruct (report_loop_percents ds generates total Hs Hc Ht projects 0 [] []
              ltac:(lia) ltac:(unfold total; lia)) as [_ Hr].
  cbn zeta in Hr. rewrite Hr. cbn [app].
  rewrite percents_nth by lia.
  apply percent_below_100; unfold total in *; lia.
Qed.

Lemma hundred_only_after_last_project_witness :
  0 <= nth 48 (reported (generate_json_report fifty_local_folders
                           (fun _ => true))) 0 <= 99.
Proof.
  apply (hundred_only_after_last_project fifty_local_folders (fun _ => true) 48).
  - reflexivity.
  - reflexivity.
  - vm_compute. reflexivity.
  - vm_compute. lia.
Defined.

(** *** A second call on the same object *)

Lemma report_loop_on_run ds generates total projects :
  forall scanned rep log,
    snd (report_loop_on ds generates total projects scanned rep log)
    = report_loop ds generates total projects scanned rep log.
Proof.
  induction projects as [| p ps IH]; intros scanned rep log;
    cbn [report_loop_on report_loop]; [reflexivity |].
  destruct (negb (has_chunk_settings ds)); [reflexivity |].
  destruct (has_progress_callback ds && (0 <? total)); [| apply IH].
  destruct (progress_value (scanned + 1) total); [apply IH | reflexivity].
Qed.

(** The first call on a fresh object is the run of the previous
    section. *)
Lemma first_call ds generates :
  snd (generate_json_report_on ds generates initial_counters)
  = generate_json_report ds generates.
Proof.
  unfold generate_json_report_on, generate_json_report.
  destruct (report_loop_on ds generates
              (total_projects (scan_projects_on ds initial_counters))
              (projects (scan_projects_on ds initial_counters))
              (scanned_projects (scan_projects_on ds initial_counters)) [] [])
    as [scanned run] eqn:E.
  cbn [snd]. apply (f_equal snd) in E. cbn [snd] in E.
  rewrite report_loop_on_run in E. subst run.
  unfold scan_projects_on, scan_projects, initial_counters.
  cbn [projects total_projects scanned_projects app].
  destruct (top_level_dirs ds); reflexivity.
Qed.

Lemma report_loop_on_percents ds generates total :
  has_chunk_settings ds = true -> has_progress_callback ds = true ->
  1 <= total < 2 ^ 53 ->
  forall projects scanned rep log,
    0 <= scanned ->
    scanned + Z.of_nat (List.length projects) < 2 ^ 53 ->
    report_loop_on ds generates total projects scanned rep log
    = (scanned + Z.of_nat (List.length projects),
       {| reported := rep ++ percents total scanned (List.length projects);
          generation_log := log ++ map (fun p => (p, generates p)) projects;
          run_ending := Finished |}).
Proof.
  intros Hs Hc Ht projects.
  induction projects as [| p ps IH]; intros scanned rep log H0 Hlen.
  - cbn. now rewrite Z.add_0_r, !app_nil_r.
  - cbn [List.length] in Hlen. rewrite Nat2Z.inj_succ in Hlen.
    cbn [report_loop_on List.length percents map]. rewrite Hs, Hc.
    cbn [negb andb].
    assert (Hpos : (0 <? total) = true) by (apply Z.ltb_lt; lia).
    rewrite Hpos, (progress_value_defined (scanned + 1) total) by lia.
    rewrite IH by lia. rewrite Nat2Z.inj_succ, <- !app_assoc.
    f_equal. lia.
Qed.

Lemma percents_sorted_any total :
  1 <= total < 2 ^ 53 ->
  forall count scanned,
    0 <= scanned -> scanned + Z.of_nat count < 2 ^ 53 ->
    Sorted Z.le (percents total scanned count).
Proof.
  intros Ht count.
  induction count as [| c IH]; intros scanned H0 Hlen; cbn [percents].
  - constructor.
  - rewrite Nat2Z.inj_succ in Hlen. constructor.
    + apply IH; lia.
    + destruct c as [| c']; cbn [percents]; constructor.
      rewrite Nat2Z.inj_succ in Hlen. apply percent_monotone_any; lia.
Qed.

Lemma percents_between total :
  1 <= total < 2 ^ 53 ->
  forall count scanned,
    0 <= scanned -> scanned + Z.of_nat count < 2 ^ 53 ->
    Forall (fun v => percent (scanned + 1) total <= v
                     <= percent (scanned + Z.of_nat count) total)
      (percents total scanned count).
Proof.
  intros Ht count scanned H0 Hlen. apply Forall_forall. intros v Hv.
  destruct (In_nth _ _ 0 Hv) as [i [Hi <-]].
  rewrite percents_length in Hi. rewrite percents_nth by assumption.
  split; apply percent_monotone_any; lia.
Qed.

Lemma G_half_integer a : Z.abs a < 2 ^ 53 -> G (IZR a / 2).
Proof.
  intros Ha. exists a, (-1). split; [| split; lia].
  unfold F. simpl. lra.
Qed.

(** What the first call leaves in the object. *)
Lemma after_first_call ds generates :
  has_chunk_settings ds = true -> has_progress_callback ds = true ->
  Z.of_nat (List.length (scan_projects ds)) < 2 ^ 53 ->
  fst (generate_json_report_on ds generates initial_counters)
  = {| projects := scan_projects ds;
       total_projects := Z.of_nat (List.length (scan_projects ds));
       scanned_projects := Z.of_nat (List.length (scan_projects ds)) |}.
Proof.
  intros Hs Hc Hn. unfold generate_json_report_on.
  assert (Hscan : scan_projects_on ds initial_counters
                  = {| projects := scan_projects ds;
                       total_projects :=
                         Z.of_nat (List.length (scan_projects ds));
                       scanned_projects := 0 |}).
  { unfold scan_projects_on, scan_projects, initial_counters.
    cbn [projects total_projects scanned_projects app].
    destruct (top_level_dirs ds); reflexivity. }
  rewrite Hscan. cbn [projects total_projects scanned_projects].
  pose proof (scan_projects_not_empty ds) as Hne.
  assert (Hlen : (0 < List.length (scan_projects ds))%nat)
    by (destruct (scan_projects ds); [congruence | cbn; lia]).
  rewrite (report_loop_on_percents ds generates _ Hs Hc) by lia.
  cbn [fst]. now rewrite Z.add_0_l.
Qed.

(** A second call of [generate_json_report] on the same object, the
    directory unchanged.  With [n > 0] projects below the directory the
    list of projects doubles and the count goes on from [n]: the callback
    gets [2 n] values that never decrease, from 50 at least up to 150.
    With no directory below it the one project is scanned again and the
    callback gets 200. *)
Theorem second_call_exceeds_100 ds g1 g2 :
  has_chunk_settings ds = true ->
  has_progress_callback ds = true ->
  3 * Z.of_nat (List.length (top_level_dirs ds)) < 2 ^ 53 ->
  let after_first := fst (generate_json_report_on ds g1 initial_counters) in
  let run := snd (generate_json_report_on ds g2 after_first) in
  let n := List.length (top_level_dirs ds) in
  run_ending run = Finished /\
  (n = 0%nat -> reported run = [200]) /\
  ((0 < n)%nat ->
   List.length (reported run) = (2 * n)%nat /\
   Sorted Z.le (reported run) /\
   Forall (fun v => 50 <= v <= 150) (reported run) /\
   last (reported run) 0 = 150).
Proof.
  intros Hs Hc Hn after_first run n.
  subst after_first run.
  assert (Hlen : List.length (scan_projects ds)
                 = match top_level_dirs ds with
                   | [] => 1%nat
                   | _ :: _ => List.length (top_level_dirs ds)
                   end).
  { unfold scan_projects. destruct (top_level_dirs ds); [reflexivity |].
    now rewrite length_map. }
  rewrite after_first_call;
    [| assumption | assumption
     | rewrite Hlen; destruct (top_level_dirs ds); cbn in *; lia].
  unfold generate_json_report_on, scan_projects_on.
  cbn [projects total_projects scanned_projects].
  destruct (top_level_dirs ds) as [| d dirs] eqn:Hd.
  - (* no directory: the one project, scanned again *)
    unfold scan_projects. rewrite Hd.
    cbn [map app List.length Z.of_nat Pos.of_succ_nat].
    rewrite (report_loop_on_percents ds g2 1 Hs Hc ltac:(lia))
      by (cbn [List.length]; lia).
    cbn [snd run_ending reported app List.length percents].
    split; [reflexivity |]. split; [| subst n; cbn; lia].
    intros _. reflexivity.
  - set (P := scan_projects ds) in *.
    assert (HP : List.length P = S (List.length dirs))
      by (rewrite Hlen; reflexivity).
    assert (Hmap : map (Path.join (source_code_dir ds)) (d :: dirs) = P)
      by (unfold P, scan_projects; now rewrite Hd).
    rewrite Hmap.
    assert (HPP : List.length (P ++ P) = (2 * S (List.length dirs))%nat)
      by (rewrite length_app, HP; lia).
    assert (Hmatch : match P ++ P with
                     | [] => [source_code_dir ds]
                     | _ :: _ => P ++ P
                     end = P ++ P)
      by (destruct (P ++ P); [discriminate HPP | reflexivity]).
    rewrite Hmatch.
    cbn [List.length] in Hn. rewrite Nat2Z.inj_succ in Hn.
    rewrite (report_loop_on_percents ds g2 _ Hs Hc)
      by (rewrite ?HPP, ?HP; lia).
    cbn [snd run_ending reported app].
    split; [reflexivity |]. split; [subst n; discriminate |].
    intros _. subst n. cbn [List.length].
    rewrite HPP, HP.
    set (m := Z.of_nat (S (List.length dirs))).
    assert (Hm : 1 <= m /\ 3 * m < 2 ^ 53) by (unfold m; lia).
    replace (Z.of_nat (2 * S (List.length dirs))) with (2 * m)
      by (unfold m; lia).
    assert (H50 : percent m (2 * m) = 50).
    { apply percent_exact; try lia.
      replace (IZR m / IZR (2 * m))%R with (IZR 1 / 2)%R.
      - apply G_half_integer. simpl. lia.
      - rewrite mult_IZR.
        assert (0 < IZR m)%R by (apply IZR_lt; lia). field. lra. }
    assert (H150 : percent (3 * m) (2 * m) = 150).
    { apply percent_exact; try lia.
      replace (IZR (3 * m) / IZR (2 * m))%R with (IZR 3 / 2)%R.
      - apply G_half_integer. simpl. lia.
      - rewrite !mult_IZR.
        assert (0 < IZR m)%R by (apply IZR_lt; lia). field. lra. }
    split; [apply percents_length |].
    split; [apply percents_sorted_any; unfold m in *; lia |].
    split.
    + pose proof (percents_between (2 * m) ltac:(lia)
                    (2 * S (List.length dirs)) m ltac:(lia)
                    ltac:(unfold m in *; lia)) as Hb.
      apply (Forall_impl _ (P := fun v =>
                percent (m + 1) (2 * m) <= v
                <= percent (m + Z.of_nat (2 * S (List.length dirs))) (2 * m)));
        [| exact Hb].
      intros v [Hlo Hhi].
      replace (m + Z.of_nat (2 * S (List.length dirs))) with (3 * m) in Hhi
        by (unfold m; lia).
      pose proof (percent_monotone_any m (m + 1) (2 * m) ltac:(lia)
                    ltac:(lia) ltac:(lia) ltac:(lia)).
      lia.
    + replace (2 * S (List.length dirs))%nat
        with (S (2 * List.length dirs + 1)) by lia.
      rewrite percents_last. rewrite <- H150. f_equal. unfold m. lia.
Qed.

Definition three_local_folders : data_source :=
  LocalFoldersDataSource "work" ["a"; "b"; "c"] true.

Lemma second_call_exceeds_100_witness :
  reported
    (snd (generate_json_report_on three_local_folders (fun _ => true)
            (fst (generate_json_report_on three_local_folders (fun _ => true)
                    initial_counters))))
  = [66; 83; 100; 116; 133; 150] /\
  last
    (reported
       (snd (generate_json_report_on three_local_folders (fun _ => true)
               (fst (generate_json_report_on three_local_folders
                       (fun _ => true) initial_counters))))) 0
  = 150.
Proof.
  split; [vm_compute; reflexivity |].
  destruct (second_call_exceeds_100 three_local_folders (fun _ => true)
              (fun _ => true) eq_refl eq_refl ltac:(vm_compute; reflexivity))
    as [_ [_ H]].
  destruct (H ltac:(vm_compute; lia)) as [_ [_ [_ Hlast]]].
  exact Hlast.
Defined.

(** *** How far the value is from the exact percentage *)

(** A normal number nearest to [x] is within half a unit of its last
    place, hence within [2^-53] of itself in relative terms. *)
Lemma half_ulp x m e :
  2 ^ 52 <= m < 2 ^ 53 -> -1074 <= e ->
  rounds_to x (F m e) ->
  (Rabs (F m e - x) <= F m e * powerRZ 2 (-53))%R.
Proof.
  intros Hm He [_ Hn].
  assert (Hup : G (F (m + 1) e)).
  { destruct (Z_lt_le_dec (m + 1) (2 ^ 53)) as [Hlt | Hge].
    - exists (m + 1), e. split; [reflexivity | split; lia].
    - exists (2 ^ 52), (e + 1). split; [| split; lia].
      replace (m + 1) with (2 ^ 52 * 2 ^ 1) by lia.
      apply F_shift. lia. }
  assert (Hdown : G (F (m - 1) e))
    by (exists (m - 1), e; split; [reflexivity | split; lia]).
  pose proof (Hn _ Hup) as H1. pose proof (Hn _ Hdown) as H2.
  replace (m - 1) with (m + -1) in H2 by lia.
  rewrite F_plus, F_one in H1. rewrite F_plus in H2.
  assert (Hneg : F (-1) e = (- powerRZ 2 e)%R) by (unfold F; ring).
  rewrite Hneg in H2.
  assert (Hu := pow2_pos e).
  assert (Hhalf : (Rabs (F m e - x) <= powerRZ 2 e / 2)%R).
  { unfold Rabs in *. repeat destruct Rcase_abs; lra. }
  assert (Hv : (powerRZ 2 52 * powerRZ 2 e <= F m e)%R).
  { rewrite (pow2_IZR 52) by lia. unfold F.
    apply Rmult_le_compat_r; [lra | apply IZR_le; lia]. }
  assert (H53 : (powerRZ 2 52 * powerRZ 2 (-53) = / 2)%R).
  { rewrite <- pow2_add. simpl. lra. }
  assert (Hp := pow2_pos (-53)). assert (Hq := pow2_pos 52).
  apply Rle_trans with (1 := Hhalf).
  apply Rle_trans
    with (powerRZ 2 52 * powerRZ 2 e * powerRZ 2 (-53))%R.
  - replace (powerRZ 2 52 * powerRZ 2 e * powerRZ 2 (-53))%R
      with (powerRZ 2 52 * powerRZ 2 (-53) * powerRZ 2 e)%R by ring.
    rewrite H53. lra.
  - apply Rmult_le_compat_r; lra.
Qed.

Lemma percent_close k n :
  1 <= k <= n -> n < 2 ^ 53 ->
  exists p,
    (IZR (percent k n) <= p < IZR (percent k n) + 1)%R /\
    (Rabs (p - 100 * (IZR k / IZR n)) <= 200 * powerRZ 2 (-53))%R.
Proof.
  intros Hk Hn. unfold percent.
  destruct (progress_value_spec k n Hk Hn)
    as [m [e [mp [ep [v [Ed [Cm [Hq [Em [Hp [-> Hv]]]]]]]]]]].
  destruct (quotient_spec k n Hk Hn) as [m' [e' [Ed' [_ [Be _]]]]].
  rewrite Ed in Ed'. injection Ed' as <- <-.
  assert (Cp : 2 ^ 52 <= Zpos mp < 2 ^ 53 /\ -1074 <= ep).
  { destruct (float_of_int_spec 100 ltac:(lia))
      as [mh [eh [Eh [Ch [Bh Vh]]]]].
    rewrite Eh in Em.
    destruct (SFmul_spec m e mh eh Cm Ch ltac:(lia) ltac:(lia))
      as [mp' [ep' [Ep' [Cp' Hp']]]].
    rewrite Em in Ep'. injection Ep' as <- <-.
    split; [exact Cp' |].
    pose proof (ratio_bounds k n Hk Hn) as [Hlo Hhi].
    assert (Hq53 : (powerRZ 2 (-53) <= F (Zpos m) e)%R)
      by (apply (rounds_to_ge_G _ _ _ Hq); [apply G_pow2; lia | assumption]).
    assert (H47 : (powerRZ 2 (-53) * 64 = powerRZ 2 (-47))%R).
    { replace (-47) with (-53 + 6) by lia.
      rewrite pow2_add, (pow2_IZR 6) by lia. simpl. lra. }
    assert (Hpos := pow2_pos (-53)).
    assert (Hp47 : (powerRZ 2 (-47) <= F (Zpos mp) ep)%R)
      by (apply (rounds_to_ge_G _ _ _ Hp); [apply G_pow2; lia | lra]).
    assert (Hq1 : (F (Zpos m) e <= 1)%R)
      by (apply (rounds_to_le_G _ _ _ Hq);
          [apply (G_int 1); simpl; lia | assumption]).
    assert (Hp100 : (F (Zpos mp) ep <= 100)%R)
      by (apply (rounds_to_le_G _ _ _ Hp);
          [apply (G_int 100); simpl; lia | lra]).
    assert (H7 : (100 < powerRZ 2 7)%R)
      by (rewrite (pow2_IZR 7) by lia; simpl; lra).
    pose proof (canonical_exponent (Zpos mp) ep (-47) 7 Cp' ltac:(lra)).
    lia. }
  destruct Cp as [Cp Bp].
  exists (F (Zpos mp) ep). split; [exact Hv |].
  assert (Be' : -1074 <= e) by lia.
  pose proof (half_ulp _ _ _ Cm Be' Hq) as Eq.
  pose proof (half_ulp _ _ _ Cp Bp Hp) as Ep.
  pose proof (ratio_bounds k n Hk Hn) as [Hlo Hhi].
  assert (Hpos := pow2_pos (-53)).
  assert (Hq1 : (F (Zpos m) e <= 1)%R)
    by (apply (rounds_to_le_G _ _ _ Hq);
        [apply (G_int 1); simpl; lia | assumption]).
  assert (Hq0 : (0 <= F (Zpos m) e)%R)
    by (apply (rounds_to_ge_G _ _ _ Hq);
        [apply (G_int 0); simpl; lia | lra]).
  assert (Hp100 : (F (Zpos mp) ep <= 100)%R)
    by (apply (rounds_to_le_G _ _ _ Hp);
        [apply (G_int 100); simpl; lia | lra]).
  assert (Hp0 : (0 <= F (Zpos mp) ep)%R)
    by (apply (rounds_to_ge_G _ _ _ Hp);
        [apply (G_int 0); simpl; lia | lra]).
  set (q := F (Zpos m) e) in *. set (p := F (Zpos mp) ep) in *.
  set (x := (IZR k / IZR n)%R) in *. set (u := powerRZ 2 (-53)) in *.
  assert (E1 : (Rabs (q - x) <= u)%R) by nra.
  assert (E2 : (Rabs (p - q * 100) <= 100 * u)%R) by nra.
  unfold Rabs in *. repeat destruct Rcase_abs; lra.
Qed.

(** The value is the integer part of the exact percentage, or one less
    when the exact percentage is a whole number. *)
Lemma percent_exact_or_one_less k n :
  1 <= k <= n -> n <= 2 ^ 45 ->
  percent k n = 100 * k / n \/
  (percent k n = 100 * k / n - 1 /\ (100 * k) mod n = 0).
Proof.
  intros Hk Hn.
  destruct (percent_close k n Hk ltac:(lia)) as [p [Hv Hp]].
  set (v := percent k n) in *.
  pose proof (Z.div_mod (100 * k) n ltac:(lia)) as Hdm.
  pose proof (Z.mod_pos_bound (100 * k) n ltac:(lia)) as Hr.
  set (t := 100 * k / n) in *. set (r := (100 * k) mod n) in *.
  set (u := powerRZ 2 (-53)) in *.
  assert (Hu := pow2_pos (-53)). fold u in Hu.
  assert (Hnr : (1 <= IZR n)%R) by (apply IZR_le; lia).
  set (inv := (/ IZR n)%R).
  assert (Hinv : (inv * IZR n = 1)%R) by (unfold inv; field; lra).
  assert (Hinv0 : (0 < inv)%R) by (unfold inv; apply Rinv_0_lt_compat; lra).
  assert (H45 : (IZR n <= powerRZ 2 45)%R)
    by (rewrite pow2_IZR by lia; apply IZR_le; lia).
  assert (H256 : (powerRZ 2 45 * (256 * u) = 1)%R).
  { unfold u. replace 256%R with (powerRZ 2 8)
      by (rewrite (pow2_IZR 8) by lia; simpl; lra).
    rewrite <- !pow2_add. reflexivity. }
  assert (Hinv45 : (256 * u <= inv)%R).
  { apply Rmult_le_reg_r with (IZR n); [lra |].
    rewrite Hinv. assert (Hq := pow2_pos 45). nra. }
  assert (Hx : (100 * (IZR k / IZR n) = IZR t + IZR r * inv)%R).
  { apply (f_equal IZR) in Hdm. rewrite plus_IZR, !mult_IZR in Hdm.
    unfold Rdiv. fold inv.
    replace (100 * (IZR k * inv))%R with ((100 * IZR k) * inv)%R by ring.
    rewrite Hdm. replace ((IZR n * IZR t + IZR r) * inv)%R
      with (IZR t * (inv * IZR n) + IZR r * inv)%R by ring.
    rewrite Hinv. ring. }
  rewrite Hx in Hp.
  assert (Hr0 : (0 <= IZR r)%R) by (apply IZR_le; lia).
  assert (Hr1 : (IZR r <= IZR n - 1)%R)
    by (rewrite <- minus_IZR; apply IZR_le; lia).
  assert (Hrn : (IZR r * inv <= 1 - inv)%R) by nra.
  assert (Hrn0 : (0 <= IZR r * inv)%R) by nra.
  assert (Hle : v <= t).
  { assert (H : (IZR v < IZR (t + 1))%R).
    { rewrite plus_IZR. unfold Rabs in Hp. destruct Rcase_abs; lra. }
    apply lt_IZR in H. lia. }
  assert (Hge : t - 1 <= v).
  { assert (H : (IZR (t - 1) < IZR (v + 1))%R).
    { rewrite plus_IZR, minus_IZR. unfold Rabs in Hp.
      destruct Rcase_abs; lra. }
    apply lt_IZR in H. lia. }
  destruct (Z.eq_dec r 0) as [Hz | Hnz]; [lia |].
  left.
  assert (Hr2 : (1 <= IZR r)%R) by (apply IZR_le; lia).
  assert (Hrn1 : (inv <= IZR r * inv)%R) by nra.
  assert (H : (IZR t < IZR (v + 1))%R).
  { rewrite plus_IZR. unfold Rabs in Hp. destruct Rcase_abs; lra. }
  apply lt_IZR in H. lia.
Qed.

(** What the callback gets after each project, against the exact
    percentage: the same integer, or one less when the exact percentage
    is a whole number. *)
Theorem reported_value_is_exact_or_one_less ds generates i :
  has_chunk_settings ds = true ->
  has_progress_callback ds = true ->
  Z.of_nat (List.length (scan_projects ds)) <= 2 ^ 45 ->
  (i < List.length (scan_projects ds))%nat ->
  let total := Z.of_nat (List.length (scan_projects ds)) in
  let exact := 100 * (Z.of_nat i + 1) / total in
  let value := nth i (reported (generate_json_report ds generates)) 0 in
  value = exact \/
  (value = exact - 1 /\ (100 * (Z.of_nat i + 1)) mod total = 0).
Proof.
  intros Hs Hc Ht Hi total exact value. subst exact value.
  unfold generate_json_report.
  set (projects := scan_projects ds) in *. fold total.
  destruct (report_loop_percents ds generates total Hs Hc
              ltac:(unfold total; lia) projects 0 [] []
              ltac:(lia) ltac:(unfold total; lia)) as [_ Hr].
  cbn zeta in Hr. rewrite Hr. cbn [app].
  rewrite percents_nth by assumption. rewrite Z.add_0_l.
  apply percent_exact_or_one_less; unfold total in *; lia.
Qed.

Lemma reported_value_is_exact_or_one_less_witness :
  nth 28 (reported (generate_json_report fifty_local_folders
                      (fun _ => true))) 0 = 57 /\
  100 * (Z.of_nat 28 + 1) / 50 - 1 = 57 /\
  (100 * (Z.of_nat 28 + 1)) mod 50 = 0.
Proof.
  destruct (reported_value_is_exact_or_one_less fifty_local_folders
              (fun _ => true) 28 eq_refl eq_refl
              ltac:(vm_compute; discriminate) ltac:(vm_compute; lia))
    as [H | [H1 H2]].
  - vm_compute in H. discriminate H.
  - split; [vm_compute; reflexivity |]. split; reflexivity.
Defined.
End Binary64.

(** ** Aggregation: the order of the report *)

Section SortDesc.
Context {A : Type} (key : A -> Z).

Definition desc (x y : A) : Prop := (key y <= key x)%Z.

Lemma insert_desc_perm x l : Permutation (insert_desc key x l) (x :: l).
Proof.
  induction l as [| y l IH]; simpl; [apply Permutation_refl |].
  destruct (key y <=? key x)%Z; [apply Permutation_refl |].
  apply perm_trans with (y :: x :: l); [now apply perm_skip | apply perm_swap].
Qed.

Lemma sort_desc_perm l : Permutation (sort_desc key l) l.
Proof.
  induction l as [| x l IH]; simpl; [apply perm_nil |].
  apply perm_trans with (x :: sort_desc key l);
    [apply insert_desc_perm | now apply perm_skip].
Qed.

Lemma insert_desc_sorted x l :
  StronglySorted desc l -> StronglySorted desc (insert_desc key x l).
Proof.
  induction 1 as [| y l Hl IH Hy]; simpl.
  - constructor; constructor.
  - destruct (key y <=? key x)%Z eqn:Hc.
    + apply Z.leb_le in Hc. constructor; [now constructor |].
      constructor; [exact Hc |].
      apply Forall_impl with (P := desc y); [| exact Hy].
      unfold desc. intros z Hz. lia.
    + apply Z.leb_gt in Hc. constructor; [exact IH |].
      apply (Permutation_Forall (Permutation_sym (insert_desc_perm x l))).
      constructor; [unfold desc; lia | exact Hy].
Qed.

Lemma sort_desc_sorted l : StronglySorted desc (sort_desc key l).
Proof.
  induction l as [| x l IH]; simpl; [constructor |].
  now apply insert_desc_sorted.
Qed.

(** Stability: the elements of one key keep their order. *)
Lemma insert_desc_same_key k x l :
  StronglySorted desc l ->
  filter (fun y => (key y =? k)%Z) (insert_desc key x l) =
  filter (fun y => (key y =? k)%Z) (x :: l).
Proof.
  induction 1 as [| y l Hl IH Hy]; [reflexivity |].
  simpl insert_desc. destruct (key y <=? key x)%Z eqn:Hc; [reflexivity |].
  apply Z.leb_gt in Hc.
  change (filter (fun y => (key y =? k)%Z) (y :: insert_desc key x l))
    with (if (key y =? k)%Z
          then y :: filter (fun y => (key y =? k)%Z) (insert_desc key x l)
          else filter (fun y => (key y =? k)%Z) (insert_desc key x l)).
  rewrite IH. simpl.
  destruct (key x =? k)%Z eqn:Hx; destruct (key y =? k)%Z eqn:Hyk;
    try reflexivity.
  apply Z.eqb_eq in Hx, Hyk. lia.
Qed.

Lemma sort_desc_stable k l :
  filter (fun y => (key y =? k)%Z) (sort_desc key l) =
  filter (fun y => (key y =? k)%Z) l.
Proof.
  induction l as [| x l IH]; [reflexivity |].
  simpl sort_desc. rewrite insert_desc_same_key by apply sort_desc_sorted.
  simpl. now rewrite IH.
Qed.

End SortDesc.

(** The report is in descending order of [file_count], languages with the
    same [file_count] stand in the order of the items of [imports_agg],
    and it has one entry for each key of [imports_agg]. *)
Lemma overall_data_sorted st :
  StronglySorted (desc file_count) (overall_data st).
Proof. apply sort_desc_sorted. Qed.

Lemma overall_data_stable st k :
  filter (fun s => (file_count s =? k)%Z) (overall_data st) =
  filter (fun s => (file_count s =? k)%Z)
    (map (summarize st) (imports_agg st)).
Proof. apply sort_desc_stable. Qed.

Lemma overall_data_perm st :
  Permutation (overall_data st) (map (summarize st) (imports_agg st)).
Proof. apply sort_desc_perm. Qed.

(** The libraries of every entry are in descending order of their count,
    libraries with the same count in the order in which they were first
    counted. *)
Lemma libraries_sorted st s :
  In s (overall_data st) ->
  exists libs,
    In (programming_language s, libs) (imports_agg st) /\
    libraries_used s = sort_desc snd libs /\
    StronglySorted (desc snd) (libraries_used s) /\
    forall k,
      filter (fun e => (snd e =? k)%Z) (libraries_used s) =
      filter (fun e => (snd e =? k)%Z) libs.
Proof.
  intros Hs.
  apply (Permutation_in _ (overall_data_perm st)) in Hs.
  apply in_map_iff in Hs. destruct Hs as [[lang libs] [<- Hin]].
  exists libs. simpl. split; [exact Hin | split; [reflexivity | split]].
  - apply sort_desc_sorted.
  - intros k. apply sort_desc_stable.
Qed.

(** ** Aggregation of well-formed snapshots *)

Section DictFacts.
Context {K V : Type} (eqb : K -> K -> bool).

(** [d[k]] on a [defaultdict] *)
Definition cur (k : K) (dflt : V) (d : list (K * V)) : V :=
  match Dict.get eqb k d with
  | Some v => v
  | None => dflt
  end.

Lemma get_update_same k (dflt : V) (f : V -> V) d :
  eqb k k = true ->
  Dict.get eqb k (Dict.update eqb k dflt f d) = Some (f (cur k dflt d)).
Proof.
  intros Hk. unfold cur. induction d as [| [k' v] d IH]; simpl.
  - now rewrite Hk.
  - destruct (eqb k' k) eqn:E; simpl; now rewrite E.
Qed.

Lemma update_ext k (dflt : V) (f g : V -> V) d :
  f (cur k dflt d) = g (cur k dflt d) ->
  Dict.update eqb k dflt f d = Dict.update eqb k dflt g d.
Proof.
  unfold cur. induction d as [| [k' v] d IH]; simpl.
  - now intros ->.
  - destruct (eqb k' k) eqn:E.
    + now intros ->.
    + intros H. now rewrite IH.
Qed.

Lemma update_update k (dflt : V) (f g : V -> V) d :
  eqb k k = true ->
  Dict.update eqb k dflt g (Dict.update eqb k dflt f d) =
  Dict.update eqb k dflt (fun v => g (f v)) d.
Proof.
  intros Hk. induction d as [| [k' v] d IH]; simpl.
  - now rewrite Hk.
  - destruct (eqb k' k) eqn:E; simpl; rewrite E; [reflexivity |].
    now rewrite IH.
Qed.

(** Reading and then storing the sum is adding in place. *)
Lemma touch_then_store k (dflt : V) (f : V -> V) d :
  eqb k k = true ->
  Dict.update eqb k dflt
    (fun _ => f (cur k dflt (Dict.touch eqb k dflt d)))
    (Dict.touch eqb k dflt d)
  = Dict.update eqb k dflt f d.
Proof.
  intros Hk. unfold Dict.touch. rewrite update_update by assumption.
  apply update_ext. unfold cur at 1.
  now rewrite get_update_same.
Qed.

Lemma keys_update k (dflt : V) (f : V -> V) d :
  map fst (Dict.update eqb k dflt f d) =
  if Dict.has eqb k d then map fst d else map fst d ++ [k].
Proof.
  unfold Dict.has. induction d as [| [k' v] d IH]; simpl; [reflexivity |].
  destruct (eqb k' k); simpl; [reflexivity |].
  rewrite IH. now destruct (Dict.get eqb k d).
Qed.

End DictFacts.

Lemma get_update_string {V : Type} (k k' : string) (dflt : V) (f : V -> V) d :
  Dict.get String.eqb k (Dict.update String.eqb k' dflt f d) =
  if String.eqb k' k then Some (f (cur String.eqb k' dflt d))
  else Dict.get String.eqb k d.
Proof.
  destruct (String.eqb_spec k' k) as [-> | Hne].
  - apply get_update_same, String.eqb_refl.
  - induction d as [| [k'' v] d IH]; simpl.
    + apply String.eqb_neq in Hne. now rewrite Hne.
    + destruct (String.eqb_spec k'' k') as [-> | Hk]; simpl.
      * apply String.eqb_neq in Hne. now rewrite Hne.
      * now rewrite IH.
Qed.

(** What the loop body does with a well-formed snapshot, without the
    exceptions that cannot occur for it. *)
Definition merge_library (lang : string)
  (agg : list (string * list (json * Z))) (e : string * Z)
  : list (string * list (json * Z)) :=
  Dict.update String.eqb lang []
    (Dict.update key_eqb (JStr (fst e)) 0%Z (fun n => (n + snd e)%Z)) agg.

Definition merge_snapshot (st : agg_state) (s : Spec.valid_snapshot)
  : agg_state :=
  let lang := Spec.group_of s in
  if String.eqb lang EmptyString then st
  else
    {| imports_agg :=
         fold_left (merge_library lang) (Spec.vs_libraries s) (imports_agg st);
       file_counts :=
         Dict.update String.eqb lang 0%Z
           (fun n => (n + Spec.vs_file_count s)%Z) (file_counts st) |}.

Lemma key_eqb_refl_str X : key_eqb (JStr X) (JStr X) = true.
Proof. apply String.eqb_refl. Qed.

Lemma add_file_count_number lang n st :
  add_file_count lang (JNum n) st =
  ({| imports_agg := imports_agg st;
      file_counts :=
        Dict.update String.eqb lang 0%Z (fun v => (v + n)%Z)
          (file_counts st) |},
   Some tt).
Proof.
  unfold add_file_count, bind, set_file_counts, modify, gets, lift, ret.
  simpl. f_equal. f_equal.
  apply (touch_then_store String.eqb lang 0%Z (fun v => (v + n)%Z)).
  apply String.eqb_refl.
Qed.

Lemma add_import_number lang X n st :
  add_import lang (JStr X) (JNum n) st =
  ({| imports_agg := merge_library lang (imports_agg st) (X, n);
      file_counts := file_counts st |},
   Some tt).
Proof.
  unfold add_import, bind, set_imports_agg, modify, gets, lift, ret, assert.
  simpl. f_equal. f_equal. unfold merge_library, Dict.touch. simpl.
  rewrite !update_update by apply String.eqb_refl.
  apply update_ext.
  rewrite get_update_same by apply String.eqb_refl.
  rewrite get_update_same by apply key_eqb_refl_str.
  rewrite update_update by apply key_eqb_refl_str.
  now apply update_ext.
Qed.

Lemma aggregate_library_json lang X n :
  aggregate_library lang (Snapshot.library_json (X, n)) =
  add_import lang (JStr X) (JNum n).
Proof. reflexivity. Qed.

Lemma for_each_libraries lang libs :
  forall st,
    for_each (map Snapshot.library_json libs) (aggregate_library lang) st =
    ({| imports_agg := fold_left (merge_library lang) libs (imports_agg st);
        file_counts := file_counts st |},
     Some tt).
Proof.
  induction libs as [| [X n] libs IH]; intros st.
  - now destruct st.
  - cbn [map for_each]. unfold bind at 1.
    rewrite aggregate_library_json, add_import_number. now rewrite IH.
Qed.

Lemma aggregate_file_valid st s :
  is_snapshot_name (Spec.vs_file s) = true ->
  aggregate_file st (Spec.snapshot_entry s) = merge_snapshot st s.
Proof.
  intros Hname. unfold aggregate_file, Spec.snapshot_entry.
  cbn [fst snd]. rewrite Hname. unfold merge_snapshot, Spec.group_of.
  unfold aggregate_project, bind, lift, assert, ret.
  cbn -[add_file_count for_each aggregate_library Text.lower].
  destruct (String.eqb (Text.lower (Spec.vs_language s)) EmptyString);
    [reflexivity |].
  rewrite add_file_count_number.
  now rewrite for_each_libraries.
Qed.

Lemma aggregate_valid snaps :
  forallb (fun s => is_snapshot_name (Spec.vs_file s)) snaps = true ->
  forall st,
    fold_left aggregate_file (map Spec.snapshot_entry snaps) st =
    fold_left merge_snapshot snaps st.
Proof.
  induction snaps as [| s snaps IH]; intros H st; [reflexivity |].
  simpl in H. apply andb_prop in H. destruct H as [Hs H].
  simpl. rewrite aggregate_file_valid by assumption. now apply IH.
Qed.

(** *** Sums of file counts *)

Lemma merge_file_count st s lang :
  String.eqb lang EmptyString = false ->
  cur String.eqb lang 0%Z (file_counts (merge_snapshot st s)) =
  (cur String.eqb lang 0%Z (file_counts st)
   + (if String.eqb (Spec.group_of s) lang then Spec.vs_file_count s else 0))%Z.
Proof.
  intros Hlang. unfold merge_snapshot.
  destruct (String.eqb_spec (Spec.group_of s) EmptyString) as [He | Hne].
  - rewrite He. rewrite String.eqb_sym, Hlang. lia.
  - simpl. unfold cur at 1. rewrite get_update_string.
    destruct (String.eqb_spec (Spec.group_of s) lang) as [-> | _];
      [reflexivity |].
    fold (cur String.eqb lang 0%Z (file_counts st)). lia.
Qed.

Lemma fold_file_count snaps lang :
  String.eqb lang EmptyString = false ->
  forall st,
    cur String.eqb lang 0%Z (file_counts (fold_left merge_snapshot snaps st)) =
    (cur String.eqb lang 0%Z (file_counts st) + Spec.total_files lang snaps)%Z.
Proof.
  intros Hlang. induction snaps as [| s snaps IH]; intros st; simpl; [lia |].
  rewrite IH, merge_file_count by assumption. lia.
Qed.

(** *** Keys of the dictionaries *)

Section Unique.
Context {K V : Type} (eqb : K -> K -> bool).

(** No key of the dictionary equals a later one. *)
Fixpoint unique_keys (d : list (K * V)) : Prop :=
  match d with
  | [] => True
  | (k, _) :: d' => Dict.get eqb k d' = None /\ unique_keys d'
  end.

End Unique.

Lemma unique_update_string {V : Type} (k : string) (dflt : V) (f : V -> V) d :
  unique_keys String.eqb d ->
  unique_keys String.eqb (Dict.update String.eqb k dflt f d).
Proof.
  induction d as [| [k' v] d IH]; simpl; [auto |].
  intros [Hk Hd]. destruct (String.eqb_spec k' k) as [-> | Hne]; simpl.
  - now split.
  - split; [| now apply IH].
    rewrite get_update_string.
    apply not_eq_sym, String.eqb_neq in Hne. now rewrite Hne.
Qed.

Lemma unique_get_string {V : Type} (k : string) (v : V) d :
  unique_keys String.eqb d -> In (k, v) d ->
  Dict.get String.eqb k d = Some v.
Proof.
  induction d as [| [k' v'] d IH]; simpl; [intros _ [] |].
  intros [Hk Hd] [[= -> ->] | Hin].
  - now rewrite String.eqb_refl.
  - destruct (String.eqb_spec k' k) as [-> | _]; [| now apply IH].
    rewrite (IH Hd Hin) in Hk. discriminate.
Qed.

(** A dictionary of libraries: its keys are strings, each once. *)
Definition string_keys (libs : list (json * Z)) : Prop :=
  Forall (fun e => exists X, fst e = JStr X) libs.

Lemma get_update_library X Y (f : Z -> Z) libs :
  Dict.get key_eqb (JStr X) (Dict.update key_eqb (JStr Y) 0%Z f libs) =
  if String.eqb Y X then Some (f (cur key_eqb (JStr Y) 0%Z libs))
  else Dict.get key_eqb (JStr X) libs.
Proof.
  destruct (String.eqb_spec Y X) as [-> | Hne].
  - apply get_update_same, key_eqb_refl_str.
  - induction libs as [| [k v] libs IH]; simpl.
    + apply String.eqb_neq in Hne. now rewrite Hne.
    + destruct (key_eqb k (JStr Y)) eqn:Ek; simpl.
      * destruct k; simpl in Ek; try discriminate.
        apply String.eqb_eq in Ek. subst s.
        apply String.eqb_neq in Hne. simpl. now rewrite Hne.
      * now rewrite IH.
Qed.

Lemma string_keys_update Y (f : Z -> Z) libs :
  string_keys libs ->
  string_keys (Dict.update key_eqb (JStr Y) 0%Z f libs).
Proof.
  unfold string_keys. induction libs as [| [k v] libs IH]; simpl.
  - intros _. constructor; [now exists Y | constructor].
  - intros H. inversion H as [| e l He Hl]; subst.
    destruct (key_eqb k (JStr Y)); constructor; auto.
Qed.

Lemma unique_update_library Y (f : Z -> Z) libs :
  string_keys libs ->
  unique_keys key_eqb libs ->
  unique_keys key_eqb (Dict.update key_eqb (JStr Y) 0%Z f libs).
Proof.
  induction libs as [| [k v] libs IH]; simpl; [auto |].
  intros Hs [Hk Hu]. inversion Hs as [| e l [X HX] Hl]; subst.
  simpl in HX. subst k.
  destruct (String.eqb_spec X Y) as [-> | Hne]; simpl.
  - rewrite String.eqb_refl. simpl. now split.
  - apply String.eqb_neq in Hne. rewrite Hne. simpl. split; [| now apply IH].
    rewrite get_update_library.
    rewrite (String.eqb_sym Y X), Hne. exact Hk.
Qed.

Lemma unique_get_library X c libs :
  string_keys libs -> unique_keys key_eqb libs ->
  In (JStr X, c) libs ->
  Dict.get key_eqb (JStr X) libs = Some c.
Proof.
  induction libs as [| [k v] libs IH]; simpl; [intros _ _ [] |].
  intros Hs [Hk Hu] Hin. inversion Hs as [| e l [Y HY] Hl]; subst.
  simpl in HY. subst k. simpl.
  destruct Hin as [[= -> ->] | Hin].
  - now rewrite String.eqb_refl.
  - destruct (String.eqb_spec Y X) as [-> | _]; [| now apply IH].
    rewrite (IH Hl Hu Hin) in Hk. discriminate.
Qed.

(** *** Sums of import counts *)

Lemma merge_library_count lang agg e L X :
  cur key_eqb (JStr X) 0%Z (cur String.eqb L [] (merge_library lang agg e)) =
  (cur key_eqb (JStr X) 0%Z (cur String.eqb L [] agg)
   + (if String.eqb lang L
      then (if String.eqb (fst e) X then snd e else 0)
      else 0))%Z.
Proof.
  unfold merge_library. unfold cur at 2. rewrite get_update_string.
  destruct (String.eqb_spec lang L) as [-> | _].
  - unfold cur at 1. rewrite get_update_library.
    destruct (String.eqb_spec (fst e) X) as [-> | _]; [reflexivity |].
    fold (cur key_eqb (JStr X) 0%Z (cur String.eqb L [] agg)). lia.
  - fold (cur String.eqb L [] agg). lia.
Qed.

Lemma fold_library_count lang libs L X :
  forall agg,
    cur key_eqb (JStr X) 0%Z
      (cur String.eqb L [] (fold_left (merge_library lang) libs agg)) =
    (cur key_eqb (JStr X) 0%Z (cur String.eqb L [] agg)
     + (if String.eqb lang L then Spec.total_count X libs else 0))%Z.
Proof.
  induction libs as [| e libs IH]; intros agg; simpl.
  - destruct (String.eqb lang L); lia.
  - rewrite IH, merge_library_count. destruct (String.eqb lang L); lia.
Qed.

Lemma merge_import_count st s L X :
  String.eqb L EmptyString = false ->
  cur key_eqb (JStr X) 0%Z
    (cur String.eqb L [] (imports_agg (merge_snapshot st s))) =
  (cur key_eqb (JStr X) 0%Z (cur String.eqb L [] (imports_agg st))
   + (if String.eqb (Spec.group_of s) L
      then Spec.total_count X (Spec.vs_libraries s) else 0))%Z.
Proof.
  intros HL. unfold merge_snapshot.
  destruct (String.eqb_spec (Spec.group_of s) EmptyString) as [He | Hne].
  - rewrite He. rewrite String.eqb_sym, HL. lia.
  - simpl. apply fold_library_count.
Qed.

Lemma fold_import_count snaps L X :
  String.eqb L EmptyString = false ->
  forall st,
    cur key_eqb (JStr X) 0%Z
      (cur String.eqb L [] (imports_agg (fold_left merge_snapshot snaps st))) =
    (cur key_eqb (JStr X) 0%Z (cur String.eqb L [] (imports_agg st))
     + Spec.total_imports L X snaps)%Z.
Proof.
  intros HL. induction snaps as [| s snaps IH]; intros st; simpl; [lia |].
  rewrite IH, merge_import_count by assumption. lia.
Qed.

(** *** The shape of [imports_agg] *)

Definition libraries_ok (e : string * list (json * Z)) : Prop :=
  String.eqb (fst e) EmptyString = false /\
  string_keys (snd e) /\ unique_keys key_eqb (snd e).

Definition agg_ok (agg : list (string * list (json * Z))) : Prop :=
  unique_keys String.eqb agg /\ Forall libraries_ok agg.

Lemma Forall_update_string {V : Type} (P : string * V -> Prop) k dflt f d :
  (forall v, P (k, v) -> P (k, f v)) -> P (k, f dflt) ->
  Forall P d -> Forall P (Dict.update String.eqb k dflt f d).
Proof.
  intros Hf Hd. induction d as [| [k' v] d IH]; simpl; intros H.
  - constructor; [assumption | constructor].
  - inversion H as [| e l He Hl]; subst.
    destruct (String.eqb_spec k' k) as [-> | _]; constructor; auto.
Qed.

Lemma merge_library_ok lang agg e :
  String.eqb lang EmptyString = false ->
  agg_ok agg -> agg_ok (merge_library lang agg e).
Proof.
  intros Hlang [Hu Hf]. unfold merge_library. split.
  - now apply unique_update_string.
  - apply Forall_update_string; [| | assumption].
    + intros libs [_ [Hs Hk]]. split; [assumption | split].
      * now apply string_keys_update.
      * now apply unique_update_library.
    + split; [assumption | split].
      * apply string_keys_update. constructor.
      * apply unique_update_library; [constructor | exact I].
Qed.

Lemma merge_snapshot_ok st s :
  agg_ok (imports_agg st) -> agg_ok (imports_agg (merge_snapshot st s)).
Proof.
  intros Hok. unfold merge_snapshot.
  destruct (String.eqb (Spec.group_of s) EmptyString) eqn:Hg; [assumption |].
  simpl. generalize (imports_agg st) Hok.
  induction (Spec.vs_libraries s) as [| e libs IH]; intros agg Hagg;
    [assumption |].
  simpl. apply IH. now apply merge_library_ok.
Qed.

Lemma fold_merge_ok snaps :
  forall st,
    agg_ok (imports_agg st) ->
    agg_ok (imports_agg (fold_left merge_snapshot snaps st)).
Proof.
  induction snaps as [| s snaps IH]; intros st Hok; [assumption |].
  simpl. apply IH. now apply merge_snapshot_ok.
Qed.

(** *** The languages of [imports_agg] *)

Lemma has_mem {V : Type} k (d : list (string * V)) :
  Dict.has String.eqb k d = Text.mem k (map fst d).
Proof.
  unfold Dict.has. induction d as [| [k' v] d IH]; simpl; [reflexivity |].
  rewrite (String.eqb_sym k k'). destruct (String.eqb k' k); [reflexivity |].
  exact IH.
Qed.

Lemma mem_app x l1 l2 : Text.mem x (l1 ++ l2) = Text.mem x l1 || Text.mem x l2.
Proof. unfold Text.mem. apply existsb_app. Qed.

Lemma first_seen_ext l :
  forall s1 s2,
    (forall y, Text.mem y s1 = Text.mem y s2) ->
    Spec.first_seen s1 l = Spec.first_seen s2 l.
Proof.
  induction l as [| x l IH]; intros s1 s2 H; simpl; [reflexivity |].
  rewrite <- H. destruct (Text.mem x s1); [now apply IH |].
  f_equal. apply IH. intros y. simpl. now rewrite H.
Qed.

Lemma keys_fold_library lang libs :
  forall agg,
    map fst (fold_left (merge_library lang) libs agg) =
    match libs with
    | [] => map fst agg
    | _ :: _ =>
        if Text.mem lang (map fst agg) then map fst agg
        else map fst agg ++ [lang]
    end.
Proof.
  induction libs as [| e libs IH]; intros agg; [reflexivity |].
  simpl fold_left. rewrite IH. unfold merge_library at 1 2 3.
  rewrite keys_update, has_mem.
  destruct (Text.mem lang (map fst agg)) eqn:Hm.
  - rewrite Hm. now destruct libs.
  - rewrite mem_app, Hm. simpl. rewrite String.eqb_refl. simpl.
    now destruct libs.
Qed.

Lemma keys_fold_merge snaps :
  forall st,
    map fst (imports_agg (fold_left merge_snapshot snaps st)) =
    map fst (imports_agg st) ++
    Spec.first_seen (map fst (imports_agg st))
      (map Spec.group_of
         (filter (fun s =>
                    negb (String.eqb (Spec.group_of s) EmptyString)
                    && match Spec.vs_libraries s with
                       | [] => false
                       | _ :: _ => true
                       end) snaps)).
Proof.
  induction snaps as [| s snaps IH]; intros st.
  - simpl. now rewrite app_nil_r.
  - simpl fold_left. rewrite IH. unfold merge_snapshot at 1 2. simpl filter.
    destruct (String.eqb (Spec.group_of s) EmptyString) eqn:Hg;
      [reflexivity |].
    simpl imports_agg. rewrite keys_fold_library.
    destruct (Spec.vs_libraries s) as [| e libs]; [reflexivity |].
    simpl negb. simpl andb. simpl map. simpl Spec.first_seen.
    destruct (Text.mem (Spec.group_of s) (map fst (imports_agg st))) eqn:Hm;
      [reflexivity |].
    rewrite <- app_assoc. simpl. do 2 f_equal.
    apply first_seen_ext. intros y. rewrite mem_app. simpl.
    rewrite orb_false_r. apply orb_comm.
Qed.

(** *** The libraries of a language *)

Lemma first_seen_spec x l :
  forall seen,
    In x (Spec.first_seen seen l) <-> In x l /\ Text.mem x seen = false.
Proof.
  induction l as [| y l IH]; intros seen; cbn [Spec.first_seen].
  - split; [intros [] | intros [[] _]].
  - destruct (Text.mem y seen) eqn:Hy.
    + rewrite IH. split.
      * intros [Hin Hm]. split; [now right | assumption].
      * intros [[<- | Hin] Hm]; [congruence | now split].
    + cbn [In]. rewrite IH. cbn [Text.mem existsb].
      fold (Text.mem x seen). split.
      * intros [<- | [Hin Hm]]; [split; [now left | assumption] |].
        apply orb_false_iff in Hm. destruct Hm as [_ Hm].
        split; [now right | assumption].
      * intros [[<- | Hin] Hm]; [now left |].
        destruct (String.eqb_spec x y) as [-> | Hne]; [now left |].
        right. split; [assumption |]. now rewrite Hm.
Qed.

Lemma first_seen_NoDup l : forall seen, NoDup (Spec.first_seen seen l).
Proof.
  induction l as [| y l IH]; intros seen; cbn [Spec.first_seen].
  - constructor.
  - destruct (Text.mem y seen); [apply IH |].
    constructor; [| apply IH].
    rewrite first_seen_spec. intros [_ Hm].
    cbn [Text.mem existsb] in Hm. now rewrite String.eqb_refl in Hm.
Qed.

Lemma first_seen_app a :
  forall seen b,
    Spec.first_seen seen (a ++ b) =
    Spec.first_seen seen a
    ++ Spec.first_seen (seen ++ Spec.first_seen seen a) b.
Proof.
  induction a as [| x a IH]; intros seen b; cbn [app Spec.first_seen].
  - now rewrite app_nil_r.
  - destruct (Text.mem x seen) eqn:Hx; [apply IH |].
    cbn [app]. f_equal. rewrite IH. f_equal.
    apply first_seen_ext. intros y. rewrite !mem_app.
    cbn [Text.mem existsb]. fold (Text.mem y seen).
    fold (Text.mem y (Spec.first_seen (x :: seen) a)).
    destruct (String.eqb y x), (Text.mem y seen); reflexivity.
Qed.

Lemma first_seen_step X names l :
  (if Text.mem X names then names else names ++ [X])
  ++ Spec.first_seen (if Text.mem X names then names else names ++ [X]) l
  = names ++ Spec.first_seen names (X :: l).
Proof.
  cbn [Spec.first_seen]. destruct (Text.mem X names) eqn:Hm; [reflexivity |].
  rewrite <- app_assoc. cbn [app]. do 2 f_equal.
  apply first_seen_ext. intros y. rewrite mem_app.
  cbn [Text.mem existsb]. fold (Text.mem y names).
  rewrite orb_false_r. apply orb_comm.
Qed.

Lemma has_library_names X (libs : list (json * Z)) :
  forall names,
    map fst libs = map JStr names ->
    Dict.has key_eqb (JStr X) libs = Text.mem X names.
Proof.
  induction libs as [| [k v] libs IH]; intros [| Y names] H;
    try discriminate H; [reflexivity |].
  cbn [map fst] in H. injection H as -> H.
  unfold Dict.has. cbn [Dict.get Text.mem existsb key_eqb].
  rewrite (String.eqb_sym X Y).
  destruct (String.eqb Y X); [reflexivity |].
  exact (IH names H).
Qed.

Lemma keys_update_library X (f : Z -> Z) (libs : list (json * Z)) names :
  map fst libs = map JStr names ->
  map fst (Dict.update key_eqb (JStr X) 0%Z f libs) =
  map JStr (if Text.mem X names then names else names ++ [X]).
Proof.
  intros H. rewrite keys_update, (has_library_names X libs names H).
  destruct (Text.mem X names); [assumption |].
  now rewrite map_app, H.
Qed.

Lemma cur_merge_library lang agg e L :
  cur String.eqb L [] (merge_library lang agg e) =
  if String.eqb lang L
  then Dict.update key_eqb (JStr (fst e)) 0%Z (fun n => (n + snd e)%Z)
         (cur String.eqb L [] agg)
  else cur String.eqb L [] agg.
Proof.
  unfold merge_library. unfold cur at 1. rewrite get_update_string.
  destruct (String.eqb_spec lang L) as [-> | _]; reflexivity.
Qed.

Lemma keys_fold_library_names lang libs L :
  forall agg names,
    map fst (cur String.eqb L [] agg) = map JStr names ->
    map fst (cur String.eqb L [] (fold_left (merge_library lang) libs agg)) =
    map JStr
      (names ++ Spec.first_seen names
                  (if String.eqb lang L then map fst libs else [])).
Proof.
  induction libs as [| e libs IH]; intros agg names H; cbn [fold_left map].
  - destruct (String.eqb lang L); cbn [Spec.first_seen];
      now rewrite app_nil_r.
  - destruct (String.eqb lang L) eqn:El.
    + rewrite (IH _ (if Text.mem (fst e) names then names
                     else names ++ [fst e])).
      * now rewrite first_seen_step.
      * rewrite cur_merge_library, El. now apply keys_update_library.
    + rewrite (IH _ names).
      * reflexivity.
      * rewrite cur_merge_library, El. exact H.
Qed.

Lemma keys_fold_merge_names snaps L :
  String.eqb L EmptyString = false ->
  forall st names,
    map fst (cur String.eqb L [] (imports_agg st)) = map JStr names ->
    map fst
      (cur String.eqb L [] (imports_agg (fold_left merge_snapshot snaps st))) =
    map JStr (names ++ Spec.first_seen names (Spec.imports_of L snaps)).
Proof.
  intros HL. induction snaps as [| s snaps IH]; intros st names H.
  - cbn. now rewrite app_nil_r.
  - cbn [fold_left]. unfold Spec.imports_of. cbn [map List.concat].
    fold (Spec.imports_of L snaps). rewrite first_seen_app, app_assoc.
    apply IH. unfold merge_snapshot.
    destruct (String.eqb_spec (Spec.group_of s) EmptyString) as [He | Hne].
    + rewrite He, String.eqb_sym, HL. cbn [Spec.first_seen].
      now rewrite app_nil_r.
    + cbn [imports_agg]. now apply keys_fold_library_names.
Qed.

Lemma list_by_keys {K V K' : Type} (g : K' -> K) (h : K' -> V)
  (l : list (K * V)) :
  forall ks,
    map fst l = map g ks ->
    (forall k v, In (g k, v) l -> v = h k) ->
    l = map (fun k => (g k, h k)) ks.
Proof.
  induction l as [| [k v] l IH]; intros [| k' ks] H Hv;
    try discriminate H; [reflexivity |].
  cbn [map fst] in H. injection H as -> H. cbn [map]. f_equal.
  - f_equal. apply Hv. now left.
  - apply IH; [assumption |]. intros k v' Hin. apply Hv. now right.
Qed.

(** The entry of the report for a language, from the sums of the
    specification. *)
Definition summary_of_language (snaps : list Spec.valid_snapshot)
  (lang : string) : language_summary :=
  {| programming_language := lang;
     libraries_used :=
       sort_desc snd
         (map (fun X => (JStr X, Spec.total_imports lang X snaps))
            (Spec.library_names lang snaps));
     file_count := Spec.total_files lang snaps |}.

(** The report of well-formed snapshots, in full. *)
Lemma report_of_valid_snapshots (snaps : list Spec.valid_snapshot) :
  forallb (fun s => is_snapshot_name (Spec.vs_file s)) snaps = true ->
  aggregate_snapshots (map Spec.snapshot_entry snaps) =
  sort_desc file_count
    (map (summary_of_language snaps) (Spec.languages_with_libraries snaps)).
Proof.
  intros Hnames. unfold aggregate_snapshots.
  rewrite (aggregate_valid snaps Hnames).
  set (st := fold_left merge_snapshot snaps empty_state).
  assert (Hok : agg_ok (imports_agg st))
    by (apply fold_merge_ok; split; [exact I | constructor]).
  destruct Hok as [Huniq Hall].
  assert (Hkeys : map fst (imports_agg st)
                  = Spec.languages_with_libraries snaps).
  { unfold st. rewrite keys_fold_merge. reflexivity. }
  unfold overall_data. f_equal. rewrite <- Hkeys, map_map.
  apply map_ext_in. intros [L libs] Hin. cbn [fst].
  rewrite Forall_forall in Hall. destruct (Hall _ Hin) as [Hne [Hstr Hu]].
  cbn [fst snd] in Hne, Hstr, Hu.
  assert (Hcur : cur String.eqb L [] (imports_agg st) = libs).
  { unfold cur. now rewrite (unique_get_string _ _ _ Huniq Hin). }
  unfold summarize, summary_of_language. cbn [fst snd]. f_equal.
  - f_equal. apply list_by_keys.
    + pose proof (keys_fold_merge_names snaps L Hne empty_state [] eq_refl)
        as Hk.
      fold st in Hk. rewrite Hcur in Hk. exact Hk.
    + intros X c Hc.
      pose proof (fold_import_count snaps L X Hne empty_state) as Hsum.
      fold st in Hsum. rewrite Hcur in Hsum. unfold cur in Hsum.
      rewrite (unique_get_library X c libs Hstr Hu Hc) in Hsum.
      cbn in Hsum. exact Hsum.
  - unfold file_count_of.
    pose proof (fold_file_count snaps L Hne empty_state) as Hsum.
    fold st in Hsum. unfold cur in Hsum. cbn in Hsum. exact Hsum.
Qed.

Lemma NoDup_map_JStr names : NoDup names -> NoDup (map JStr names).
Proof.
  induction 1 as [| X names Hn _ IH]; cbn [map]; constructor; [| exact IH].
  intros Hin. apply in_map_iff in Hin. destruct Hin as [Y [[= ->] HY]].
  contradiction.
Qed.

Lemma filter_map_comm {A B : Type} (p : B -> bool) (f : A -> B) l :
  filter p (map f l) = map f (filter (fun a => p (f a)) l).
Proof.
  induction l as [| a l IH]; cbn [map filter]; [reflexivity |].
  destruct (p (f a)); cbn [map]; now rewrite IH.
Qed.

Lemma in_report_of_valid snaps s :
  In s (sort_desc file_count
          (map (summary_of_language snaps)
             (Spec.languages_with_libraries snaps))) ->
  s = summary_of_language snaps (programming_language s) /\
  In (programming_language s) (Spec.languages_with_libraries snaps).
Proof.
  intros Hs. apply (Permutation_in _ (sort_desc_perm _ _)) in Hs.
  apply in_map_iff in Hs. destruct Hs as [L [<- HL]]. now split.
Qed.

(** The aggregation of well-formed snapshots.  The report has exactly one
    entry for each language, lowered and not empty, that has at least one
    library entry in a snapshot; the [file_count] of an entry is the sum
    over the snapshots of its language; each library that a snapshot of
    the language names is listed in the entry, once, with the sum of its
    counts over those snapshots, and nothing else is listed; the entries
    are in descending order of [file_count] and the libraries of an entry
    in descending order of their count. *)
Theorem aggregation_of_valid_snapshots :
  forall (snaps : list Spec.valid_snapshot),
    forallb (fun s => is_snapshot_name (Spec.vs_file s)) snaps = true ->
    let report := aggregate_snapshots (map Spec.snapshot_entry snaps) in
    Permutation (map programming_language report)
      (Spec.languages_with_libraries snaps) /\
    NoDup (map programming_language report) /\
    (forall L, In L (map programming_language report) <->
       L <> EmptyString /\
       exists s, In s snaps /\ Spec.group_of s = L /\
                 Spec.vs_libraries s <> []) /\
    (forall s, In s report ->
       file_count s = Spec.total_files (programming_language s) snaps) /\
    (forall s, In s report -> NoDup (map fst (libraries_used s))) /\
    (forall s X, In s report ->
       In X (Spec.imports_of (programming_language s) snaps) ->
       In (JStr X, Spec.total_imports (programming_language s) X snaps)
          (libraries_used s)) /\
    (forall s k c, In s report -> In (k, c) (libraries_used s) ->
       exists X, k = JStr X /\
         In X (Spec.imports_of (programming_language s) snaps) /\
         c = Spec.total_imports (programming_language s) X snaps) /\
    StronglySorted (desc file_count) report /\
    (forall s, In s report -> StronglySorted (desc snd) (libraries_used s)).
Proof.
  intros snaps Hnames report. subst report.
  rewrite (report_of_valid_snapshots snaps Hnames).
  set (langs := Spec.languages_with_libraries snaps).
  assert (Hperm : Permutation
                    (map programming_language
                       (sort_desc file_count
                          (map (summary_of_language snaps) langs)))
                    langs).
  { apply perm_trans with (map programming_language
                             (map (summary_of_language snaps) langs)).
    - apply Permutation_map, sort_desc_perm.
    - rewrite map_map. cbn [summary_of_language programming_language].
      rewrite map_id. apply Permutation_refl. }
  assert (Hlibs : forall s,
            In s (sort_desc file_count
                    (map (summary_of_language snaps) langs)) ->
            Permutation (libraries_used s)
              (map (fun X => (JStr X,
                              Spec.total_imports (programming_language s) X
                                snaps))
                 (Spec.library_names (programming_language s) snaps))).
  { intros s Hs. destruct (in_report_of_valid snaps s Hs) as [Heq _].
    rewrite Heq at 1. cbn [summary_of_language libraries_used].
    apply sort_desc_perm. }
  split; [exact Hperm | split; [| split; [| split; [| split;
    [| split; [| split; [| split]]]]]]].
  - apply (Permutation_NoDup (Permutation_sym Hperm)).
    apply first_seen_NoDup.
  - intros L. split.
    + intros HL. apply (Permutation_in _ Hperm) in HL.
      unfold langs, Spec.languages_with_libraries in HL.
      apply first_seen_spec in HL. destruct HL as [HL _].
      apply in_map_iff in HL. destruct HL as [s [<- Hs]].
      apply filter_In in Hs. destruct Hs as [Hin Hs].
      apply andb_prop in Hs. destruct Hs as [Hne Hl]. split.
      * intros He. rewrite He in Hne. discriminate Hne.
      * exists s. split; [assumption | split; [reflexivity |]].
        destruct (Spec.vs_libraries s); [discriminate Hl | discriminate].
    + intros [Hne [s [Hin [<- Hl]]]].
      apply (Permutation_in _ (Permutation_sym Hperm)).
      unfold langs, Spec.languages_with_libraries.
      apply first_seen_spec. split; [| reflexivity].
      apply in_map. apply filter_In. split; [assumption |].
      apply String.eqb_neq in Hne. rewrite Hne.
      destruct (Spec.vs_libraries s); [contradiction | reflexivity].
  - intros s Hs. destruct (in_report_of_valid snaps s Hs) as [Heq _].
    now rewrite Heq at 1.
  - intros s Hs.
    apply (Permutation_NoDup
             (Permutation_sym (Permutation_map fst (Hlibs s Hs)))).
    rewrite map_map. cbn [fst].
    apply NoDup_map_JStr, first_seen_NoDup.
  - intros s X Hs HX.
    apply (Permutation_in _ (Permutation_sym (Hlibs s Hs))).
    apply (in_map (fun X => (JStr X,
                             Spec.total_imports (programming_language s) X
                               snaps))).
    apply first_seen_spec. now split.
  - intros s k c Hs Hk. apply (Permutation_in _ (Hlibs s Hs)) in Hk.
    apply in_map_iff in Hk. destruct Hk as [X [[= <- <-] HX]].
    exists X. split; [reflexivity | split; [| reflexivity]].
    apply first_seen_spec in HX. now destruct HX.
  - apply sort_desc_sorted.
  - intros s Hs. destruct (in_report_of_valid snaps s Hs) as [Heq _].
    rewrite Heq. apply sort_desc_sorted.
Qed.

Definition merge_example : list Spec.valid_snapshot :=
  [ {| Spec.vs_file := "a_snapshot_202401010000.json";
       Spec.vs_language := "Python";
       Spec.vs_file_count := 2;
       Spec.vs_libraries := [("os", 2%Z)] |};
    {| Spec.vs_file := "b_snapshot_202401010000.json";
       Spec.vs_language := "python";
       Spec.vs_file_count := 3;
       Spec.vs_libraries := [("os", 3%Z); ("sys", 1%Z)] |} ].

Lemma aggregation_of_valid_snapshots_witness :
  aggregate_snapshots (map Spec.snapshot_entry merge_example)
  = [ {| programming_language := "python";
         libraries_used := [(JStr "os", 5%Z); (JStr "sys", 1%Z)];
         file_count := 5 |} ] /\
  Permutation
    (map programming_language
       (aggregate_snapshots (map Spec.snapshot_entry merge_example)))
    (Spec.languages_with_libraries merge_example).
Proof.
  split; [reflexivity |].
  exact (proj1 (aggregation_of_valid_snapshots merge_example eq_refl)).
Defined.

(** The order of the report of well-formed snapshots.  The entries are in
    descending order of [file_count]; entries with the same [file_count]
    stand in the order in which their languages first had a library
    counted, that is, the order of the first snapshot of each with a
    library entry; the libraries of an entry are in descending order of
    their count, libraries with the same count in the order in which they
    were first counted. *)
Theorem report_order :
  forall (snaps : list Spec.valid_snapshot),
    forallb (fun s => is_snapshot_name (Spec.vs_file s)) snaps = true ->
    let report := aggregate_snapshots (map Spec.snapshot_entry snaps) in
    StronglySorted (desc file_count) report /\
    (forall k,
        map programming_language
          (filter (fun s => (file_count s =? k)%Z) report) =
        filter (fun L => (Spec.total_files L snaps =? k)%Z)
          (Spec.languages_with_libraries snaps)) /\
    (forall s, In s report ->
       StronglySorted (desc snd) (libraries_used s) /\
       forall k,
         map fst (filter (fun e => (snd e =? k)%Z) (libraries_used s)) =
         map JStr
           (filter (fun X =>
                      (Spec.total_imports (programming_language s) X snaps
                       =? k)%Z)
              (Spec.library_names (programming_language s) snaps))).
Proof.
  intros snaps Hnames report. subst report.
  rewrite (report_of_valid_snapshots snaps Hnames).
  split; [apply sort_desc_sorted | split].
  - intros k. rewrite sort_desc_stable, filter_map_comm, map_map.
    cbn [summary_of_language programming_language file_count].
    now rewrite map_id.
  - intros s Hs. destruct (in_report_of_valid snaps s Hs) as [Heq _].
    assert (Hl : libraries_used s =
                 sort_desc snd
                   (map (fun X => (JStr X,
                                   Spec.total_imports (programming_language s)
                                     X snaps))
                      (Spec.library_names (programming_language s) snaps)))
      by (rewrite Heq at 1; reflexivity).
    rewrite Hl. split; [apply sort_desc_sorted |].
    intros k. rewrite sort_desc_stable, filter_map_comm, map_map.
    reflexivity.
Qed.

Definition order_example : list Spec.valid_snapshot :=
  [ {| Spec.vs_file := "a_snapshot_202401010000.json";
       Spec.vs_language := "Java";
       Spec.vs_file_count := 3;
       Spec.vs_libraries := [("java.util.List", 1%Z)] |};
    {| Spec.vs_file := "b_snapshot_202401010000.json";
       Spec.vs_language := "Python";
       Spec.vs_file_count := 3;
       Spec.vs_libraries := [("sys", 1%Z); ("os", 1%Z)] |};
    {| Spec.vs_file := "c_snapshot_202401010000.json";
       Spec.vs_language := "JavaScript";
       Spec.vs_file_count := 4;
       Spec.vs_libraries := [("lodash", 2%Z)] |} ].

Lemma report_order_witness :
  map programming_language
    (aggregate_snapshots (map Spec.snapshot_entry order_example))
  = ["javascript"; "java"; "python"] /\
  map programming_language
    (filter (fun s => (file_count s =? 3)%Z)
       (aggregate_snapshots (map Spec.snapshot_entry order_example)))
  = ["java"; "python"].
Proof.
  split; [reflexivity |].
  rewrite (proj1 (proj2 (report_order order_example eq_refl)) 3%Z).
  reflexivity.
Defined.

(** ** Pruning of the walk *)

(** The tree without what the avoided directories hold, at any depth. *)
Fixpoint emptied (avoid : list string) (n : node) : node :=
  match n with
  | File f r => File f r
  | Dir d entries =>
      Dir d (map (fun e =>
                    match e with
                    | Dir d' _ =>
                        if Text.mem d' avoid then Dir d' [] else emptied avoid e
                    | File _ _ => e
                    end) entries)
  end.

Section NodeInduction.
Variable P : node -> Prop.
Hypothesis P_file : forall f r, P (File f r).
Hypothesis P_dir : forall d entries, Forall P entries -> P (Dir d entries).

Fixpoint node_induction (n : node) : P n :=
  match n with
  | File f r => P_file f r
  | Dir d entries =>
      P_dir d entries
        ((fix all (l : list node) : Forall P l :=
            match l with
            | [] => Forall_nil P
            | e :: l' => Forall_cons e (node_induction e) (all l')
            end) entries)
  end.

End NodeInduction.

Lemma files_of_emptied avoid top rel entries :
  files_of top rel
    (map (fun e =>
            match e with
            | Dir d' _ =>
                if Text.mem d' avoid then Dir d' [] else emptied avoid e
            | File _ _ => e
            end) entries)
  = files_of top rel entries.
Proof.
  unfold files_of. induction entries as [| e entries IH]; [reflexivity |].
  simpl. rewrite IH. destruct e as [f r | d sub]; [reflexivity |].
  destruct (Text.mem d avoid); reflexivity.
Qed.

Lemma walk_emptied avoid n :
  forall top rel, walk avoid top rel (emptied avoid n) = walk avoid top rel n.
Proof.
  induction n as [f r | d entries IH] using node_induction; intros top rel;
    [reflexivity |].
  simpl. rewrite files_of_emptied. f_equal.
  induction entries as [| e entries IHe]; [reflexivity |].
  inversion IH as [| e' l He Hl]; subst.
  simpl. rewrite (IHe Hl). f_equal.
  destruct e as [f r | d' sub]; [reflexivity |].
  destruct (Text.mem d' avoid) eqn:Hm.
  - simpl. now rewrite Hm.
  - destruct (emptied avoid (Dir d' sub)) eqn:He'; [discriminate |].
    simpl in He'. injection He' as <- <-.
    rewrite Hm. rewrite <- (He (Path.join top d') (rel_join rel d')).
    reflexivity.
Qed.

(** The snapshot of a project does not depend on what its avoided
    folders hold: the walk does not descend into a directory named in
    [avoid_folders], at any depth, so none of the files under it is
    recorded. *)
Theorem avoided_folders_pruned :
  forall (cfg : config) (entries : list node),
    generate_context_data cfg entries =
    generate_context_data cfg
      (map (fun e =>
              match e with
              | Dir d _ =>
                  if Text.mem d (avoid_folders cfg) then Dir d []
                  else emptied (avoid_folders cfg) e
              | File _ _ => e
              end) entries).
Proof.
  intros cfg entries. unfold generate_context_data, walk_project.
  now rewrite <- (walk_emptied (avoid_folders cfg) (Dir EmptyString entries)).
Qed.

Definition node_modules_project : list node :=
  [ File "index.js" (ReadOk "import x from 'y'" 17 "2024-01-01 00:00:00");
    Dir "node_modules"
      [ Dir "lodash"
          [ File "lodash.js"
              (ReadOk "module.exports = {}" 19 "2024-01-01 00:00:00") ] ];
    Dir "src"
      [ Dir "node_modules"
          [ File "a.js" (ReadOk "require('z')" 12 "2024-01-01 00:00:00") ];
        File "app.js" (ReadOk "require('lodash')" 17 "2024-01-01 00:00:00") ] ].

Example node_modules_skipped :
  map Relative_Path
    (pd_project_sources
       (generate_context_data (default_config "proj") node_modules_project))
  = ["index.js"; "src/app.js"].
Proof. reflexivity. Qed.

(** ** What a match consumes and captures *)

Section Matches.
Import Re.

(** [matches r t g]: the pattern [r] can match the text [t], the groups
    that take part capturing [g], the latest first. *)
Inductive matches : re -> list ascii -> caps -> Prop :=
| M_Eps : matches Eps [] []
| M_Chr p c : p c = true -> matches (Chr p) [c] []
| M_Bol : matches Bol [] []
| M_Seq r1 r2 t1 t2 g1 g2 :
    matches r1 t1 g1 -> matches r2 t2 g2 ->
    matches (Seq r1 r2) (t1 ++ t2) (g2 ++ g1)
| M_Alt_l r1 r2 t g : matches r1 t g -> matches (Alt r1 r2) t g
| M_Alt_r r1 r2 t g : matches r2 t g -> matches (Alt r1 r2) t g
| M_Star p t : forallb p t = true -> matches (Star p) t []
| M_LazyStar p t : forallb p t = true -> matches (LazyStar p) t []
| M_Grp n r t g : matches r t g -> matches (Grp n r) t ((n, t) :: g).

Context {A : Type}.

Lemma star_matches p (k : @cont A) s :
  forall b g x,
    star p k b s g = Some x ->
    exists t s' b',
      s = t ++ s' /\ forallb p t = true /\ k b' s' g = Some x.
Proof.
  induction s as [| c s IH]; intros b g x H; cbn [star] in H.
  - exists [], [], b. auto.
  - destruct (p c) eqn:Hp.
    + destruct (star p k (is_nl c) s g) as [r |] eqn:E.
      * injection H as ->.
        destruct (IH _ _ _ E) as [t [s' [b' [-> [Ht Hk]]]]].
        exists (c :: t), s', b'. cbn [forallb]. rewrite Hp, Ht. auto.
      * exists [], (c :: s), b. auto.
    + exists [], (c :: s), b. auto.
Qed.

Lemma lazy_star_matches p (k : @cont A) s :
  forall b g x,
    lazy_star p k b s g = Some x ->
    exists t s' b',
      s = t ++ s' /\ forallb p t = true /\ k b' s' g = Some x.
Proof.
  induction s as [| c s IH]; intros b g x H; cbn [lazy_star] in H.
  - destruct (k b [] g) eqn:E; [| discriminate].
    injection H as ->. exists [], [], b. auto.
  - destruct (k b (c :: s) g) eqn:E.
    + injection H as ->. exists [], (c :: s), b. auto.
    + destruct (p c) eqn:Hp; [| discriminate].
      destruct (IH _ _ _ H) as [t [s' [b' [-> [Ht Hk]]]]].
      exists (c :: t), s', b'. cbn [forallb]. rewrite Hp, Ht. auto.
Qed.

(** Whatever the engine returns went through the continuation after a
    match of the pattern. *)
Lemma run_matches r :
  forall (k : @cont A) b s g x,
    run r k b s g = Some x ->
    exists t s' b' g',
      s = t ++ s' /\ matches r t g' /\ k b' s' (g' ++ g) = Some x.
Proof.
  induction r as [| p | | r1 IH1 r2 IH2 | r1 IH1 r2 IH2 | p | p | n r IH];
    intros k b s g x H; cbn [run] in H.
  - exists [], s, b, []. repeat split; [constructor | assumption].
  - destruct s as [| c s]; [discriminate |].
    destruct (p c) eqn:Hp; [| discriminate].
    exists [c], s, (is_nl c), []. repeat split; [now constructor | assumption].
  - destruct b; [| discriminate].
    exists [], s, true, []. repeat split; [constructor | assumption].
  - destruct (IH1 _ _ _ _ _ H) as [t1 [s1 [b1 [g1 [-> [M1 H1]]]]]].
    destruct (IH2 _ _ _ _ _ H1) as [t2 [s2 [b2 [g2 [-> [M2 H2]]]]]].
    exists (t1 ++ t2), s2, b2, (g2 ++ g1).
    rewrite <- !app_assoc. repeat split; [now constructor | assumption].
  - destruct (run r1 k b s g) as [y |] eqn:E.
    + injection H as ->.
      destruct (IH1 _ _ _ _ _ E) as [t [s' [b' [g' [-> [M Hk]]]]]].
      exists t, s', b', g'. repeat split; [now apply M_Alt_l | assumption].
    + destruct (IH2 _ _ _ _ _ H) as [t [s' [b' [g' [-> [M Hk]]]]]].
      exists t, s', b', g'. repeat split; [now apply M_Alt_r | assumption].
  - destruct (star_matches _ _ _ _ _ _ H) as [t [s' [b' [-> [Ht Hk]]]]].
    exists t, s', b', []. repeat split; [now constructor | assumption].
  - destruct (lazy_star_matches _ _ _ _ _ _ H) as [t [s' [b' [-> [Ht Hk]]]]].
    exists t, s', b', []. repeat split; [now constructor | assumption].
  - destruct (IH _ _ _ _ _ H) as [t [s' [b' [g' [-> [M Hk]]]]]].
    exists t, s', b', ((n, t) :: g'). repeat split; [now constructor |].
    rewrite length_app in Hk.
    replace (List.length t + List.length s' - List.length s')%nat
      with (List.length t) in Hk by lia.
    rewrite firstn_app, firstn_all, Nat.sub_diag in Hk.
    cbn [firstn] in Hk. rewrite app_nil_r in Hk. exact Hk.
Qed.

End Matches.

Section Captures.
Import Re.

Lemma attempt_matches r b s s' g :
  attempt r b s = Some (s', g) -> exists t, s = t ++ s' /\ matches r t g.
Proof.
  unfold attempt. intros H.
  destruct (run_matches r _ _ _ _ _ H) as [t [s1 [b' [g' [-> [M Hk]]]]]].
  injection Hk as <- <-. rewrite app_nil_r. now exists t.
Qed.

(** Every match that [finditer] yields is a match of the pattern. *)
Lemma scan_matches r s :
  forall b skip g, In g (scan r b s skip) -> exists t, matches r t g.
Proof.
  induction s as [| c s IH]; intros b skip g Hin.
  - destruct skip; cbn [scan] in Hin; [| contradiction].
    destruct (attempt r b []) as [[s' g'] |] eqn:E; [| contradiction].
    destruct Hin as [<- | []].
    destruct (attempt_matches _ _ _ _ _ E) as [t [_ M]]. now exists t.
  - destruct skip; cbn [scan] in Hin; [| now apply IH in Hin].
    destruct (attempt r b (c :: s)) as [[s' g'] |] eqn:E;
      [| now apply IH in Hin].
    destruct Hin as [<- | Hin]; [| now apply IH in Hin].
    destruct (attempt_matches _ _ _ _ _ E) as [t [_ M]]. now exists t.
Qed.

Lemma matches_Lit w : forall t g, matches (Lit w) t g -> g = [].
Proof.
  induction w as [| c w IH]; intros t g M; cbn [Lit] in M.
  - now inversion M.
  - inversion M as [| | | r1 r2 t1 t2 g1 g2 M1 M2 | | | | |]; subst.
    inversion M1; subst. rewrite (IH _ _ M2). reflexivity.
Qed.

Lemma matches_Star p t g : matches (Star p) t g -> g = [].
Proof. intros M. now inversion M. Qed.

Lemma matches_Chr p t g : matches (Chr p) t g -> g = [].
Proof. intros M. now inversion M. Qed.

Lemma matches_Plus p t g :
  matches (Plus p) t g -> g = [] /\ t <> [] /\ forallb p t = true.
Proof.
  unfold Plus. intros M.
  inversion M as [| | | r1 r2 t1 t2 g1 g2 M1 M2 | | | | |]; subst.
  inversion M1; subst. inversion M2; subst.
  cbn [app forallb]. repeat split; [discriminate |].
  apply andb_true_intro. auto.
Qed.

(** A group around [p+] captures a text that is not empty and made of
    characters of the class. *)
Lemma matches_Grp_Plus n p t g :
  matches (Grp n (Plus p)) t g ->
  exists u, g = [(n, u)] /\ u <> [] /\ forallb p u = true.
Proof.
  intros M. inversion M as [| | | | | | | | n' r' t' g' M']; subst.
  destruct (matches_Plus _ _ _ M') as [-> [Hne Hp]]. now exists t.
Qed.

Lemma matches_Seq r1 r2 t g :
  matches (Seq r1 r2) t g ->
  exists t1 t2 g1 g2,
    t = t1 ++ t2 /\ g = g2 ++ g1 /\ matches r1 t1 g1 /\ matches r2 t2 g2.
Proof.
  intros M. inversion M as [| | | ? ? t1 t2 g1 g2 M1 M2 | | | | |]; subst.
  exists t1, t2, g1, g2. auto.
Qed.

Lemma matches_Alt r1 r2 t g :
  matches (Alt r1 r2) t g -> matches r1 t g \/ matches r2 t g.
Proof. intros M. inversion M; subst; auto. Qed.

Lemma matches_Bol t g : matches Bol t g -> g = [].
Proof. intros M. now inversion M. Qed.

Lemma matches_LazyStar p t g : matches (LazyStar p) t g -> g = [].
Proof. intros M. now inversion M. Qed.

Lemma matches_py_import t g :
  matches py_import t g ->
  exists u, g = [(1%nat, u)] /\ u <> []
            /\ forallb (not_space_nor [","%char]) u = true.
Proof.
  unfold py_import. intros M.
  apply matches_Seq in M. destruct M as [ta [tb [ga [gb [_ [-> [Ma M]]]]]]].
  apply matches_Bol in Ma. subst ga.
  apply matches_Seq in M. destruct M as [tc [td [gc [gd [_ [-> [Mc M]]]]]]].
  apply matches_Star in Mc. subst gc.
  apply matches_Seq in M. destruct M as [te [tf [ge [gf [_ [-> [Me M]]]]]]].
  assert (ge = []) as ->
    by (apply matches_Alt in Me; destruct Me as [Me | Me];
        now apply matches_Lit in Me).
  apply matches_Seq in M. destruct M as [tg [th [gg [gh [_ [-> [Mg M]]]]]]].
  apply matches_Plus in Mg. destruct Mg as [-> _].
  destruct (matches_Grp_Plus _ _ _ _ M) as [u [-> [Hne Hp]]].
  exists u. cbn [app]. auto.
Qed.

Lemma matches_java_import t g :
  matches java_import t g ->
  exists u, g = [(1%nat, u)] /\ u <> []
            /\ forallb (not_space_nor [";"%char]) u = true.
Proof.
  unfold java_import. intros M.
  apply matches_Seq in M. destruct M as [ta [tb [ga [gb [_ [-> [Ma M]]]]]]].
  apply matches_Bol in Ma. subst ga.
  apply matches_Seq in M. destruct M as [tc [td [gc [gd [_ [-> [Mc M]]]]]]].
  apply matches_Star in Mc. subst gc.
  apply matches_Seq in M. destruct M as [te [tf [ge [gf [_ [-> [Me M]]]]]]].
  apply matches_Lit in Me. subst ge.
  apply matches_Seq in M. destruct M as [tg [th [gg [gh [_ [-> [Mg M]]]]]]].
  apply matches_Plus in Mg. destruct Mg as [-> _].
  apply matches_Seq in M. destruct M as [ti [tj [gi [gj [_ [-> [Mi Mj]]]]]]].
  apply matches_Lit in Mj. subst gj.
  destruct (matches_Grp_Plus _ _ _ _ Mi) as [u [-> [Hne Hp]]].
  exists u. cbn [app]. auto.
Qed.

Lemma matches_js_import t g :
  matches js_import t g ->
  exists n u, (n = 1%nat \/ n = 2%nat) /\ g = [(n, u)] /\ u <> []
              /\ forallb (none_of quotes) u = true.
Proof.
  unfold js_import. intros M.
  apply matches_Alt in M. destruct M as [M | M].
  - apply matches_Seq in M. destruct M as [ta [tb [ga [gb [_ [-> [Ma M]]]]]]].
    apply matches_Bol in Ma. subst ga.
    apply matches_Seq in M. destruct M as [tc [td [gc [gd [_ [-> [Mc M]]]]]]].
    apply matches_Star in Mc. subst gc.
    apply matches_Seq in M. destruct M as [te [tf [ge [gf [_ [-> [Me M]]]]]]].
    apply matches_Lit in Me. subst ge.
    apply matches_Seq in M. destruct M as [tg [th [gg [gh [_ [-> [Mg M]]]]]]].
    apply matches_Chr in Mg. subst gg.
    apply matches_Seq in M. destruct M as [ti [tj [gi [gj [_ [-> [Mi M]]]]]]].
    apply matches_LazyStar in Mi. subst gi.
    apply matches_Seq in M. destruct M as [tk [tl [gk [gl [_ [-> [Mk M]]]]]]].
    apply matches_Lit in Mk. subst gk.
    apply matches_Seq in M. destruct M as [tm [tn [gm [gn [_ [-> [Mm M]]]]]]].
    apply matches_Plus in Mm. destruct Mm as [-> _].
    apply matches_Seq in M. destruct M as [to [tp [go [gp [_ [-> [Mo M]]]]]]].
    apply matches_Chr in Mo. subst go.
    apply matches_Seq in M. destruct M as [tq [tr [gq [gr [_ [-> [Mq Mr]]]]]]].
    apply matches_Chr in Mr. subst gr.
    destruct (matches_Grp_Plus _ _ _ _ Mq) as [u [-> [Hne Hp]]].
    exists 1%nat, u. cbn [app]. auto.
  - apply matches_Seq in M. destruct M as [ta [tb [ga [gb [_ [-> [Ma M]]]]]]].
    apply matches_Lit in Ma. subst ga.
    apply matches_Seq in M. destruct M as [tc [td [gc [gd [_ [-> [Mc M]]]]]]].
    apply matches_Chr in Mc. subst gc.
    apply matches_Seq in M. destruct M as [te [tf [ge [gf [_ [-> [Me M]]]]]]].
    apply matches_Seq in M. destruct M as [tg [th [gg [gh [_ [-> [Mg Mh]]]]]]].
    apply matches_Chr in Mg. subst gg.
    apply matches_Lit in Mh. subst gh.
    destruct (matches_Grp_Plus _ _ _ _ Me) as [u [-> [Hne Hp]]].
    exists 2%nat, u. cbn [app]. auto.
Qed.

Lemma forallb_same (p q : ascii -> bool) u :
  (forall c, p c = q c) -> forallb p u = true -> forallb q u = true.
Proof.
  intros H. induction u as [| c u IH]; cbn [forallb]; [reflexivity |].
  rewrite (H c). intros Hc. apply andb_prop in Hc. destruct Hc as [-> Hu].
  now apply IH.
Qed.

Lemma text_not_empty u : u <> [] -> Text.text u <> EmptyString.
Proof. destruct u; [congruence | discriminate]. Qed.

Lemma chars_text u : Text.chars (Text.text u) = u.
Proof. apply list_ascii_of_string_of_list_ascii. Qed.

End Captures.

(** The characters that a counted import name is made of, by the
    extension of the file. *)
Definition import_name_char (extension : string) (c : ascii) : bool :=
  if String.eqb extension ".py" then
    negb (Text.py_isspace c) && negb (Ascii.eqb c ","%char)
  else if String.eqb extension ".java" then
    negb (Text.py_isspace c) && negb (Ascii.eqb c ";"%char)
  else
    negb (Ascii.eqb c "'"%char) && negb (Ascii.eqb c "034"%char).

Lemma filter_all {A : Type} (p : A -> bool) l :
  (forall a, In a l -> p a = true) -> filter p l = l.
Proof.
  induction l as [| a l IH]; intros H; cbn [filter]; [reflexivity |].
  rewrite (H a) by now left. f_equal. apply IH. intros b Hb. apply H.
  now right.
Qed.

(** What a match of the JavaScript pattern gives to [findall]: the name
    in one of the two groups and the empty string in the other. *)
Lemma js_import_tuple content t :
  In t (Re.findall2 Re.js_import content) ->
  exists u, u <> [] /\
            forallb (Re.none_of Re.quotes) u = true /\
            (t = (Text.text u, EmptyString) \/ t = (EmptyString, Text.text u)).
Proof.
  unfold Re.findall2, Re.finditer. intros Hin.
  apply in_map_iff in Hin. destruct Hin as [g [<- Hg]].
  destruct (scan_matches _ _ _ _ _ Hg) as [w M].
  destruct (matches_js_import _ _ M) as [n [u [Hn [-> [Hne Hp]]]]].
  exists u. split; [assumption | split; [assumption |]].
  destruct Hn as [-> | ->]; [now left | now right].
Qed.

(** Whatever a file holds, every match of the pattern of its extension
    yields a name that is counted: the names that [extract_imports]
    counts are the captures of all the matches, in order, the test
    [if imp:] of the JavaScript branch dropping none, since each match of
    that pattern has a name that is not empty in exactly one of its two
    groups.  Every counted name is a non-empty string; a Python name
    holds no white space and no comma, a Java name no white space and no
    semicolon, a JavaScript or TypeScript name no quote. *)
Theorem imported_names_wellformed content extension :
  (forall name,
      In name (imported_names content extension) ->
      name <> EmptyString /\
      forallb (import_name_char extension) (Text.chars name) = true) /\
  (forall t,
      In t (Re.findall2 Re.js_import content) ->
      (fst t <> EmptyString /\ snd t = EmptyString) \/
      (fst t = EmptyString /\ snd t <> EmptyString)) /\
  (Text.mem extension [".js"; ".jsx"; ".ts"; ".tsx"] = true ->
   imported_names content extension =
   map (fun t => if String.eqb (fst t) EmptyString then snd t else fst t)
     (Re.findall2 Re.js_import content)) /\
  List.length (imported_names content extension) =
  (if String.eqb extension ".py"
   then List.length (Re.finditer Re.py_import content)
   else if Text.mem extension [".js"; ".jsx"; ".ts"; ".tsx"]
   then List.length (Re.finditer Re.js_import content)
   else if String.eqb extension ".java"
   then List.length (Re.finditer Re.java_import content)
   else 0%nat).
Proof.
  assert (Hkeep :
            filter (fun imp => negb (String.eqb imp EmptyString))
              (map (fun t => if String.eqb (fst t) EmptyString
                             then snd t else fst t)
                 (Re.findall2 Re.js_import content))
            = map (fun t => if String.eqb (fst t) EmptyString
                            then snd t else fst t)
                (Re.findall2 Re.js_import content)).
  { apply filter_all. intros imp Hin. apply in_map_iff in Hin.
    destruct Hin as [t [<- Ht]].
    destruct (js_import_tuple content t Ht) as [u [Hne [_ [-> | ->]]]];
      pose proof (text_not_empty u Hne) as Hne';
      apply String.eqb_neq in Hne'; cbn [fst snd].
    - now rewrite Hne', Hne'.
    - cbn [String.eqb]. now rewrite Hne'. }
  split; [| split; [| split]].
  - intros name. unfold imported_names, import_name_char, Re.findall1.
    destruct (String.eqb extension ".py") eqn:Epy.
    + unfold Re.finditer. intros Hin.
      apply in_map_iff in Hin. destruct Hin as [g [<- Hg]].
      destruct (scan_matches _ _ _ _ _ Hg) as [t M].
      destruct (matches_py_import _ _ M) as [u [-> [Hne Hp]]].
      cbn [Re.group Nat.eqb]. split; [now apply text_not_empty |].
      rewrite chars_text. revert Hp. apply forallb_same.
      intros c. unfold Re.not_space_nor, Re.none_of, Re.space.
      cbn [existsb]. now rewrite orb_false_r.
    + destruct (Text.mem extension [".js"; ".jsx"; ".ts"; ".tsx"]) eqn:Ejs.
      * assert (Hjava : String.eqb extension ".java" = false).
        { destruct (String.eqb_spec extension ".java") as [-> |];
            [discriminate Ejs | reflexivity]. }
        rewrite Hjava, Hkeep. intros Hin. apply in_map_iff in Hin.
        destruct Hin as [t [<- Ht]].
        destruct (js_import_tuple content t Ht) as [u [Hne [Hp Ht']]].
        assert (Hq : forallb
                       (fun c => negb (Ascii.eqb c "'"%char)
                                 && negb (Ascii.eqb c "034"%char)) u = true).
        { revert Hp. apply forallb_same.
          intros c. unfold Re.none_of, Re.quotes. cbn [existsb].
          rewrite orb_false_r. now rewrite negb_orb. }
        pose proof (text_not_empty u Hne) as Hne'.
        destruct Ht' as [-> | ->]; cbn [fst snd].
        -- destruct (String.eqb_spec (Text.text u) EmptyString) as [E |];
             [contradiction |].
           split; [assumption | now rewrite chars_text].
        -- cbn [String.eqb]. split; [assumption | now rewrite chars_text].
      * destruct (String.eqb extension ".java") eqn:Ejava; [| contradiction].
        unfold Re.finditer. intros Hin.
        apply in_map_iff in Hin. destruct Hin as [g [<- Hg]].
        destruct (scan_matches _ _ _ _ _ Hg) as [t M].
        destruct (matches_java_import _ _ M) as [u [-> [Hne Hp]]].
        cbn [Re.group Nat.eqb]. split; [now apply text_not_empty |].
        rewrite chars_text. revert Hp. apply forallb_same.
        intros c. unfold Re.not_space_nor, Re.none_of, Re.space.
        cbn [existsb]. now rewrite orb_false_r.
  - intros t Ht.
    destruct (js_import_tuple content t Ht) as [u [Hne [_ [-> | ->]]]];
      pose proof (text_not_empty u Hne) as Hne'; cbn [fst snd];
      [left | right]; now split.
  - intros Ejs. unfold imported_names.
    destruct (String.eqb_spec extension ".py") as [-> |];
      [discriminate Ejs |].
    rewrite Ejs. exact Hkeep.
  - unfold imported_names.
    destruct (String.eqb extension ".py");
      [unfold Re.findall1; apply length_map |].
    destruct (Text.mem extension [".js"; ".jsx"; ".ts"; ".tsx"]).
    + rewrite Hkeep. unfold Re.findall2. now rewrite !length_map.
    + destruct (String.eqb extension ".java");
        [unfold Re.findall1; apply length_map | reflexivity].
Qed.

Lemma imported_names_wellformed_witness :
  In "os.path" (imported_names "import os.path, sys" ".py") /\
  "os.path" <> EmptyString /\
  forallb (import_name_char ".py") (Text.chars "os.path") = true.
Proof.
  assert (H : In "os.path" (imported_names "import os.path, sys" ".py"))
    by (vm_compute; left; reflexivity).
  split; [exact H |].
  exact (proj1 (imported_names_wellformed "import os.path, sys" ".py")
           "os.path" H).
Defined.

(** ** The snapshot of a project *)

(** The record that the scan appends for a file of the walk, if any, and
    the names that it counts for it. *)
Definition recorded (cfg : config) (v : visit) : list file_record :=
  match classify cfg (v_file v), v_read v with
  | Skip, _ => []
  | _, ReadFails => []
  | _, ReadOk content st_size last_modified =>
      [ {| File_ := v_file v;
           Full_Path := Path.join (v_root v) (v_file v);
           Relative_Path := rel_join (v_rel v) (v_file v);
           Size := st_size;
           Last_Modified := last_modified;
           Lines := Z.of_nat (count_lines (Text.chars content) false);
           Source_Code := content |} ]
  end.

Definition counted_names (cfg : config) (v : visit) : list string :=
  match classify cfg (v_file v), v_read v with
  | Skip, _ => []
  | _, ReadFails => []
  | _, ReadOk content _ _ =>
      imported_names content (Text.lower (Path.splitext_ext (v_file v)))
  end.

Lemma fold_visit_file cfg vs :
  forall st,
    project_sources (fold_left (visit_file cfg) vs st)
    = project_sources st ++ flat_map (recorded cfg) vs /\
    imports (fold_left (visit_file cfg) vs st)
    = fold_left count_import (flat_map (counted_names cfg) vs) (imports st).
Proof.
  induction vs as [| v vs IH]; intros st; cbn [fold_left flat_map].
  - now rewrite app_nil_r.
  - destruct (IH (visit_file cfg st v)) as [Hs Hi]. rewrite Hs, Hi.
    rewrite fold_left_app.
    unfold visit_file, recorded, counted_names, extract_imports.
    destruct (classify cfg (v_file v)); cbn [app fold_left];
      try (destruct (v_read v); cbn [app fold_left project_sources imports];
           rewrite <- ?app_assoc);
      split; reflexivity.
Qed.

Lemma recorded_length cfg vs :
  List.length (flat_map (recorded cfg) vs)
  = List.length (filter (Spec.successfully_read cfg) vs).
Proof.
  induction vs as [| v vs IH]; [reflexivity |].
  cbn [flat_map filter]. rewrite length_app, IH.
  unfold recorded, Spec.successfully_read.
  destruct (classify cfg (v_file v)); [reflexivity | |];
    destruct (v_read v); reflexivity.
Qed.

Lemma recorded_names cfg vs :
  map File_ (flat_map (recorded cfg) vs)
  = map v_file (filter (Spec.successfully_read cfg) vs).
Proof.
  induction vs as [| v vs IH]; [reflexivity |].
  cbn [flat_map filter]. rewrite map_app, IH.
  unfold recorded, Spec.successfully_read.
  destruct (classify cfg (v_file v)); [reflexivity | |];
    destruct (v_read v); reflexivity.
Qed.

(** [project_sources] holds one record for each file of the walk that the
    classifier does not skip and that could be opened, decoded and
    [stat]ed, in walk order and with nothing else; [file_count] is their
    number. *)
Theorem project_sources_are_the_files_read :
  forall (cfg : config) (entries : list node),
    let d := generate_context_data cfg entries in
    let read :=
      filter (Spec.successfully_read cfg) (walk_project cfg entries) in
    pd_project_sources d
    = flat_map (recorded cfg) (walk_project cfg entries) /\
    map File_ (pd_project_sources d) = map v_file read /\
    SnapshotGenerator.file_count d = Z.of_nat (List.length read).
Proof.
  intros cfg entries d read. subst d read.
  unfold generate_context_data, finish, scan_visits.
  cbn [pd_project_sources SnapshotGenerator.file_count].
  destruct (fold_visit_file cfg (walk_project cfg entries) initial_state)
    as [Hs _].
  cbn [initial_state project_sources app] in Hs. rewrite Hs.
  split; [reflexivity |]. split; [apply recorded_names |].
  now rewrite recorded_length.
Qed.

Lemma keys_count_import names :
  forall imports,
    map fst (fold_left count_import names imports)
    = map fst imports ++ Spec.first_seen (map fst imports) names.
Proof.
  induction names as [| X names IH]; intros imports; cbn [fold_left].
  - cbn. now rewrite app_nil_r.
  - rewrite IH. unfold count_import at 1 2.
    rewrite keys_update, has_mem. cbn [Spec.first_seen].
    destruct (Text.mem X (map fst imports)) eqn:Hm; [reflexivity |].
    rewrite <- app_assoc. cbn [app]. do 2 f_equal.
    apply first_seen_ext. intros y. rewrite mem_app. cbn.
    rewrite orb_false_r. apply orb_comm.
Qed.

Lemma unique_count_import names :
  forall imports,
    unique_keys String.eqb imports ->
    unique_keys String.eqb (fold_left count_import names imports).
Proof.
  induction names as [| X names IH]; intros imports H; [exact H |].
  cbn [fold_left]. apply IH. now apply unique_update_string.
Qed.

Lemma get_None_not_In {V : Type} k (d : list (string * V)) :
  Dict.get String.eqb k d = None -> ~ In k (map fst d).
Proof.
  induction d as [| [k' v] d IH]; cbn; [tauto |].
  destruct (String.eqb_spec k' k) as [-> | Hne]; [discriminate |].
  intros H [E | Hin]; [contradiction | now apply IH].
Qed.

Lemma unique_NoDup {V : Type} (d : list (string * V)) :
  unique_keys String.eqb d -> NoDup (map fst d).
Proof.
  induction d as [| [k v] d IH]; cbn; [constructor |].
  intros [Hk Hd]. constructor; [now apply get_None_not_In | now apply IH].
Qed.

Lemma first_seen_In x l : forall seen, In x (Spec.first_seen seen l) -> In x l.
Proof.
  induction l as [| y l IH]; intros seen H; [contradiction |].
  cbn [Spec.first_seen] in H. destruct (Text.mem y seen).
  - right. now apply IH in H.
  - destruct H as [-> | H]; [now left | right; now apply IH in H].
Qed.

(** [external_libraries] lists each name that was counted in a recorded
    file once, in the order of the first match, with the number of its
    matches over all the recorded files, which is at least 1; the note
    about missing imports is there exactly when nothing was counted. *)
Theorem external_libraries_count_the_matches :
  forall (cfg : config) (entries : list node),
    let d := generate_context_data cfg entries in
    let names := flat_map (counted_names cfg) (walk_project cfg entries) in
    map fst (external_libraries d) = Spec.first_seen [] names /\
    NoDup (map fst (external_libraries d)) /\
    (forall X n, In (X, n) (external_libraries d) ->
       n = Z.of_nat (count_occ string_dec names X) /\ (1 <= n)%Z) /\
    observations d
    = match names with [] => [no_imports_note] | _ :: _ => [] end.
Proof.
  intros cfg entries d names. subst d names.
  unfold generate_context_data, finish, scan_visits.
  cbn [external_libraries observations].
  destruct (fold_visit_file cfg (walk_project cfg entries) initial_state)
    as [_ Hi].
  cbn [initial_state imports] in Hi. rewrite Hi.
  set (names := flat_map (counted_names cfg) (walk_project cfg entries)).
  assert (Hkeys : map fst (fold_left count_import names [])
                  = Spec.first_seen [] names)
    by (rewrite keys_count_import; reflexivity).
  assert (Huniq : unique_keys String.eqb (fold_left count_import names []))
    by (apply unique_count_import; exact I).
  split; [exact Hkeys |]. split; [now apply unique_NoDup |]. split.
  - intros X n Hin.
    pose proof (unique_get_string X n _ Huniq Hin) as Hget.
    pose proof (count_of_fold names [] X) as Hcount.
    unfold Spec.count_of in Hcount. rewrite Hget in Hcount.
    cbn [Dict.get] in Hcount. rewrite Z.add_0_l in Hcount.
    split; [exact Hcount |].
    assert (HX : In X names).
    { apply (first_seen_In X names []). rewrite <- Hkeys.
      apply in_map_iff. now exists (X, n). }
    apply (count_occ_In string_dec) in HX. lia.
  - destruct names as [| X names']; [reflexivity |].
    destruct (fold_left count_import (X :: names') []) eqn:E; [| reflexivity].
    cbn in Hkeys. discriminate Hkeys.
Qed.

(** ** Strings, paths and the names of the snapshot files *)

Section StringFacts.
Local Open Scope string_scope.

Lemma prefix_app p s : String.prefix p (p ++ s) = true.
Proof.
  induction p as [| c p IH]; [now destruct s |].
  cbn. destruct (ascii_dec c c); [exact IH | congruence].
Qed.

Lemma contains_app needle a b : Text.contains needle (a ++ needle ++ b) = true.
Proof.
  induction a as [| c a IH]; cbn [append].
  - destruct (needle ++ b) eqn:E; cbn [Text.contains];
      rewrite <- E, prefix_app; reflexivity.
  - cbn [Text.contains]. rewrite IH. now destruct (String.prefix _ _).
Qed.

Lemma length_append a b :
  String.length (a ++ b) = (String.length a + String.length b)%nat.
Proof. induction a as [| c a IH]; cbn; [reflexivity | now rewrite IH]. Qed.

Lemma substring_all s : String.substring 0 (String.length s) s = s.
Proof. induction s as [| c s IH]; cbn; [reflexivity | now rewrite IH]. Qed.

Lemma substring_skip a n m s :
  String.substring (String.length a + n) m (a ++ s) = String.substring n m s.
Proof. induction a as [| c a IH]; cbn; [reflexivity | exact IH]. Qed.

Lemma substring_take a s :
  String.substring 0 (String.length a) (a ++ s) = a.
Proof. induction a as [| c a IH]; cbn; [now destruct s | now rewrite IH]. Qed.

Lemma substring_split k s :
  (k <= String.length s)%nat ->
  s = String.substring 0 k s ++ String.substring k (String.length s - k) s.
Proof.
  revert k. induction s as [| c s IH]; intros k Hk.
  - cbn in Hk. assert (k = 0%nat) as -> by lia. reflexivity.
  - destruct k as [| k]; cbn [String.substring String.length Nat.sub append].
    + now rewrite substring_all.
    + cbn in Hk. f_equal. apply IH. lia.
Qed.

Lemma endswith_app a p : Text.endswith (a ++ p) p = true.
Proof.
  unfold Text.endswith. rewrite length_append.
  replace (String.length a + String.length p - String.length p)%nat
    with (String.length a + 0)%nat by lia.
  rewrite substring_skip, substring_all, String.eqb_refl.
  rewrite andb_true_r. apply Nat.leb_le. lia.
Qed.

Lemma endswith_split s p :
  Text.endswith s p = true -> exists a, s = a ++ p.
Proof.
  unfold Text.endswith. intros H. apply andb_prop in H.
  destruct H as [Hle He]. apply Nat.leb_le in Hle. apply String.eqb_eq in He.
  exists (String.substring 0 (String.length s - String.length p) s).
  pose proof (substring_split (String.length s - String.length p) s
                ltac:(lia)) as Hs.
  replace (String.length s - (String.length s - String.length p))%nat
    with (String.length p) in Hs by lia.
  rewrite He in Hs. exact Hs.
Qed.

Lemma chars_inj a b : Text.chars a = Text.chars b -> a = b.
Proof.
  unfold Text.chars. intros H.
  rewrite <- (string_of_list_ascii_of_string a),
          <- (string_of_list_ascii_of_string b).
  now rewrite H.
Qed.

Lemma append_inv_tail a b s : a ++ s = b ++ s -> a = b.
Proof.
  intros H. apply chars_inj. apply (f_equal Text.chars) in H.
  rewrite !chars_app in H. now apply app_inv_tail in H.
Qed.

Lemma append_assoc (a b c : string) : (a ++ b) ++ c = a ++ b ++ c.
Proof. induction a as [| x a IH]; cbn; [reflexivity | now rewrite IH]. Qed.

(** A character that does not occur in a string *)
Definition absent (c : ascii) (s : string) : bool :=
  forallb (fun d => negb (Ascii.eqb d c)) (Text.chars s).

Lemma rfind_from_absent c s :
  absent c s = true -> forall i found, Text.rfind_from c s i found = found.
Proof.
  unfold absent, Text.chars.
  induction s as [| d s IH]; intros H i found; cbn in *; [reflexivity |].
  apply andb_prop in H. destruct H as [Hd Hs].
  apply negb_true_iff in Hd. rewrite Hd. now apply IH.
Qed.

Lemma rfind_from_last c a r :
  absent c r = true ->
  forall i found,
    Text.rfind_from c (a ++ String c r) i found
    = (i + Z.of_nat (String.length a))%Z.
Proof.
  intros Hr. induction a as [| d a IH]; intros i found.
  - cbn. rewrite Ascii.eqb_refl, rfind_from_absent by assumption. lia.
  - cbn [append Text.rfind_from String.length]. rewrite IH. lia.
Qed.

(** [s.rfind(c)] is -1 when [c] does not occur, and otherwise the index
    after which it does not occur any more. *)
Lemma rfind_cases c p :
  (absent c p = true /\ Text.rfind c p = (-1)%Z) \/
  (exists a r, p = a ++ String c r /\ absent c r = true
               /\ Text.rfind c p = Z.of_nat (String.length a)).
Proof.
  assert (H : absent c p = true \/
              exists a r, p = a ++ String c r /\ absent c r = true).
  { induction p as [| d p IH]; [now left |].
    destruct IH as [Hp | [a [r [-> Hr]]]].
    - destruct (Ascii.eqb_spec d c) as [-> | Hne].
      + right. exists EmptyString, p. auto.
      + left. unfold absent, Text.chars in *. cbn.
        apply Ascii.eqb_neq in Hne. now rewrite Hne.
    - right. exists (String d a), r. auto. }
  destruct H as [Hp | [a [r [-> Hr]]]].
  - left. split; [assumption |]. unfold Text.rfind.
    now apply rfind_from_absent.
  - right. exists a, r. repeat split; [assumption |].
    unfold Text.rfind. now rewrite rfind_from_last.
Qed.

Lemma from_after a c r :
  Text.from (Z.of_nat (String.length a) + 1) (a ++ String c r) = r.
Proof.
  unfold Text.from.
  replace (Z.to_nat (Z.of_nat (String.length a) + 1))
    with (String.length a + 1)%nat by lia.
  rewrite length_append. cbn [String.length].
  replace (String.length a + S (String.length r) - (String.length a + 1))%nat
    with (String.length r) by lia.
  rewrite substring_skip. cbn. apply substring_all.
Qed.

Lemma from_zero s : Text.from 0 s = s.
Proof.
  unfold Text.from. cbn. rewrite Nat.sub_0_r. apply substring_all.
Qed.

Lemma basename_plain name :
  absent Path.sep name = true -> Path.basename name = name.
Proof.
  intros H. unfold Path.basename, Text.rfind.
  rewrite rfind_from_absent by assumption. apply from_zero.
Qed.

Lemma basename_after_sep a name :
  absent Path.sep name = true ->
  Path.basename (a ++ String Path.sep name) = name.
Proof.
  intros H. unfold Path.basename, Text.rfind.
  rewrite rfind_from_last by assumption. cbn [Z.add]. apply from_after.
Qed.

Lemma prefix_sep c s :
  String.prefix "/" (String c s) = Ascii.eqb c Path.sep.
Proof.
  change (String.prefix "/" (String c s))
    with (if ascii_dec "/"%char c then String.prefix EmptyString s else false).
  destruct (ascii_dec "/"%char c) as [<- | Hne].
  - now destruct s.
  - symmetry. apply Ascii.eqb_neq. unfold Path.sep. congruence.
Qed.

Lemma startswith_absent name :
  absent Path.sep name = true -> Text.startswith name "/" = false.
Proof.
  unfold Text.startswith. destruct name as [| c name]; [reflexivity |].
  rewrite prefix_sep. unfold absent, Text.chars. cbn.
  intros H. apply andb_prop in H. destruct H as [Hc _].
  now apply negb_true_iff in Hc.
Qed.

Lemma startswith_absent_app name rest :
  absent Path.sep name = true ->
  Text.startswith (name ++ "_snapshot_" ++ rest) "/" = false.
Proof.
  unfold Text.startswith. destruct name as [| c name]; [reflexivity |].
  cbn [append]. rewrite prefix_sep. unfold absent, Text.chars. cbn.
  intros H. apply andb_prop in H. destruct H as [Hc _].
  now apply negb_true_iff in Hc.
Qed.

(** The base name of a project path is the name of the project's
    directory. *)
Lemma basename_join dir name :
  absent Path.sep name = true -> Path.basename (Path.join dir name) = name.
Proof.
  intros H. unfold Path.join.
  rewrite (startswith_absent name) by assumption.
  destruct (String.eqb_spec dir EmptyString) as [-> | _];
    [now apply basename_plain |].
  cbn [orb]. destruct (Text.endswith dir "/") eqn:He.
  - destruct (endswith_split _ _ He) as [a ->].
    rewrite append_assoc. cbn [append]. now apply basename_after_sep.
  - cbn [append]. now apply basename_after_sep.
Qed.

(** Every snapshot that a run writes is one that [aggregate_snapshots]
    reads: its name holds [_snapshot_] and ends in [.json], whatever the
    project path and the timestamp. *)
Theorem written_snapshots_pass_the_filter :
  forall (project_path timestamp : string),
    is_snapshot_name (snapshot_file_name project_path timestamp) = true.
Proof.
  intros project_path timestamp.
  unfold is_snapshot_name, snapshot_file_name.
  rewrite contains_app. cbn [andb].
  rewrite <- !append_assoc. apply endswith_app.
Qed.

(** Within a run the snapshot of a project goes to a file of its own,
    and across data sources it does not: two project directories get the
    same snapshot path exactly when they have the same name, whatever the
    source directories they lie in. *)
Theorem snapshot_path_by_directory_name :
  forall (dir1 dir2 name1 name2 timestamp : string),
    absent Path.sep name1 = true -> absent Path.sep name2 = true ->
    (snapshot_file_path (Path.join dir1 name1) timestamp
     = snapshot_file_path (Path.join dir2 name2) timestamp
     <-> name1 = name2).
Proof.
  intros dir1 dir2 name1 name2 timestamp H1 H2.
  unfold snapshot_file_path, snapshot_file_name.
  rewrite !basename_join by assumption. split.
  - intros H. unfold Path.join, temp_snapshots_dir in H.
    rewrite !startswith_absent_app in H by assumption.
    cbn [String.eqb orb] in H.
    change (Text.endswith "com_worktwins_data_tmp" "/") with false in H.
    cbn iota in H.
    apply (f_equal Text.chars) in H. rewrite !chars_app in H.
    apply app_inv_head in H. apply app_inv_head in H.
    apply app_inv_tail in H. now apply chars_inj.
  - now intros ->.
Qed.

Lemma snapshot_path_by_directory_name_witness :
  snapshot_file_path (Path.join "com_worktwins_data_github" "tool") "202401010000"
  = snapshot_file_path (Path.join "/home/u/work" "tool") "202401010000".
Proof.
  apply (snapshot_path_by_directory_name
           "com_worktwins_data_github" "/home/u/work" "tool" "tool"
           "202401010000"); reflexivity.
Defined.

End StringFacts.

(** ** From the scan of a project to the report *)

(** What the aggregator reads of a snapshot. *)
Definition summary_of (file : string) (d : project_data)
  : Spec.valid_snapshot :=
  {| Spec.vs_file := file;
     Spec.vs_language := SnapshotGenerator.programming_language d;
     Spec.vs_file_count := SnapshotGenerator.file_count d;
     Spec.vs_libraries := external_libraries d |}.

Lemma aggregate_file_written st file d :
  aggregate_file st (file, Some (Snapshot.to_json d))
  = aggregate_file st (Spec.snapshot_entry (summary_of file d)).
Proof.
  unfold aggregate_file, Spec.snapshot_entry, summary_of, Snapshot.to_json.
  cbn [fst snd Spec.vs_file Spec.vs_language Spec.vs_file_count
       Spec.vs_libraries].
  destruct (is_snapshot_name file); [| reflexivity].
  unfold aggregate_project, bind, lift, assert, ret.
  cbn -[add_file_count for_each aggregate_library Text.lower].
  reflexivity.
Qed.

(** The report depends on a snapshot only through its language, its
    [file_count] and its libraries: the project name, the recorded
    sources and the observations of the snapshots that the generator
    writes are not read. *)
Theorem report_reads_three_fields :
  forall (snapshots : list (string * project_data)),
    aggregate_snapshots
      (map (fun p => (fst p, Some (Snapshot.to_json (snd p)))) snapshots)
    = aggregate_snapshots
        (map (fun p => Spec.snapshot_entry (summary_of (fst p) (snd p)))
           snapshots).
Proof.
  intros snapshots. unfold aggregate_snapshots. f_equal.
  generalize empty_state.
  induction snapshots as [| [file d] snapshots IH]; intros st;
    [reflexivity |].
  cbn [map fold_left fst snd]. rewrite aggregate_file_written. apply IH.
Qed.

Lemma update_fresh {K V : Type} (eqb : K -> K -> bool) k (dflt : V) f d :
  Dict.get eqb k d = None ->
  Dict.update eqb k dflt f d = d ++ [(k, f dflt)].
Proof.
  induction d as [| [k' v] d IH]; cbn; [reflexivity |].
  destruct (eqb k' k); [discriminate |]. intros H. now rewrite IH.
Qed.

Lemma get_app_other {V : Type} X Y (v : V) acc :
  X <> Y ->
  Dict.get key_eqb (JStr Y) acc = None ->
  Dict.get key_eqb (JStr Y) (acc ++ [(JStr X, v)]) = None.
Proof.
  intros Hne. induction acc as [| [k w] acc IH]; cbn.
  - intros _. apply String.eqb_neq in Hne. now rewrite Hne.
  - destruct (key_eqb k (JStr Y)); [discriminate | exact IH].
Qed.

Definition library_key (e : string * Z) : json * Z := (JStr (fst e), snd e).

(** Libraries with distinct names are appended as they are. *)
Lemma fold_merge_fresh lang libs :
  forall acc,
    unique_keys String.eqb libs ->
    (forall e, In e libs -> Dict.get key_eqb (JStr (fst e)) acc = None) ->
    fold_left (merge_library lang) libs [(lang, acc)]
    = [(lang, acc ++ map library_key libs)].
Proof.
  induction libs as [| [X n] libs IH]; intros acc Hu Hacc.
  - cbn. now rewrite app_nil_r.
  - cbn [fold_left]. destruct Hu as [HX Hu].
    unfold merge_library at 2. cbn [Dict.update fst snd].
    rewrite String.eqb_refl.
    rewrite update_fresh by (apply (Hacc (X, n)); now left).
    rewrite Z.add_0_l. rewrite IH.
    + rewrite <- app_assoc. reflexivity.
    + exact Hu.
    + intros [Y m] HY. cbn [fst]. apply get_app_other.
      * intros ->. apply get_None_not_In in HX. apply HX.
        apply in_map_iff. now exists (Y, m).
      * apply (Hacc (Y, m)). now right.
Qed.

Lemma lower_empty s : Text.lower s = EmptyString -> s = EmptyString.
Proof. destruct s; [reflexivity | discriminate]. Qed.

Lemma language_or_unknown_not_empty l : language_or_unknown l <> EmptyString.
Proof.
  unfold language_or_unknown. destruct l as [s |]; [| discriminate].
  destruct (String.eqb_spec s EmptyString); [discriminate | assumption].
Qed.

(** From the scan to the report.  When the snapshot directory holds the
    snapshot of one project and nothing else, the report is empty if no
    import was counted in the project, and has a single entry otherwise:
    the detected language in lower case (or [unknown]), the number of
    recorded files, and the counted names by decreasing count. *)
Theorem report_of_one_project :
  forall (cfg : config) (entries : list node)
         (project_path timestamp : string),
    let d := generate_context_data cfg entries in
    aggregate_snapshots
      [(snapshot_file_name project_path timestamp,
        Some (Snapshot.written cfg entries))]
    = match external_libraries d with
      | [] => []
      | _ :: _ =>
          [ {| programming_language :=
                 Text.lower (SnapshotGenerator.programming_language d);
               libraries_used :=
                 sort_desc snd (map library_key (external_libraries d));
               file_count := SnapshotGenerator.file_count d |} ]
      end.
Proof.
  intros cfg entries project_path timestamp d.
  unfold aggregate_snapshots, Snapshot.written. fold d.
  cbn [fold_left]. rewrite aggregate_file_written.
  rewrite aggregate_file_valid
    by (cbn [summary_of Spec.vs_file];
        unfold is_snapshot_name, snapshot_file_name;
        rewrite contains_app; cbn [andb];
        rewrite <- !append_assoc; apply endswith_app).
  unfold merge_snapshot, Spec.group_of.
  cbn [summary_of Spec.vs_language Spec.vs_file_count Spec.vs_libraries].
  set (lang := Text.lower (SnapshotGenerator.programming_language d)).
  assert (Hlang : String.eqb lang EmptyString = false).
  { apply String.eqb_neq. intros E. apply lower_empty in E.
    unfold d, generate_context_data, finish in E.
    cbn [SnapshotGenerator.programming_language] in E.
    now apply language_or_unknown_not_empty in E. }
  rewrite Hlang.
  assert (Hu : unique_keys String.eqb (external_libraries d)).
  { unfold d, generate_context_data, finish, scan_visits.
    cbn [external_libraries].
    destruct (fold_visit_file cfg (walk_project cfg entries) initial_state)
      as [_ Hi].
    rewrite Hi. apply unique_count_import. exact I. }
  unfold overall_data. cbn [imports_agg file_counts empty_state].
  destruct (external_libraries d) as [| [X n] libs] eqn:El; [reflexivity |].
  destruct Hu as [HX Hu].
  assert (Hfold : fold_left (merge_library lang) ((X, n) :: libs) []
                  = [(lang, (JStr X, n) :: map library_key libs)]).
  { cbn [fold_left]. unfold merge_library at 2.
    cbn [Dict.update fst snd]. rewrite Z.add_0_l.
    rewrite (fold_merge_fresh lang libs [(JStr X, n)] Hu); [reflexivity |].
    intros [Y m] HY. cbn [fst Dict.get].
    assert (HXY : X <> Y).
    { intros ->. apply get_None_not_In in HX. apply HX.
      apply in_map_iff. now exists (Y, m). }
    apply String.eqb_neq in HXY. cbn [key_eqb]. now rewrite HXY. }
  rewrite Hfold.
  cbn [map sort_desc fold_right insert_desc].
  unfold summarize, file_count_of, sort_desc.
  cbn [fst snd file_counts Dict.get Dict.update fold_right map].
  rewrite String.eqb_refl, Z.add_0_l. reflexivity.
Qed.

(** ** Library entries that the aggregator cannot count *)

(** A snapshot with the three fields that the aggregator reads. *)
Definition snapshot_with (lang : string) (file_count : Z) (libs : list json)
  : json :=
  JObj [("programming_language", JStr lang);
        ("file_count", JNum file_count);
        ("external_libraries", JArr libs)].

Definition library_entry (import_name count : json) : json :=
  JObj [("import_name", import_name); ("count", count)].

(** Values that [+=] can add to an [int]. *)
Definition is_number (j : json) : bool :=
  match j with
  | JNum _ | JBool _ => true
  | _ => false
  end.

(** [imports_agg[lang][X]] read, and nothing stored. *)
Definition touch_library (lang X : string) (st : agg_state) : agg_state :=
  {| imports_agg :=
       Dict.update String.eqb lang []
         (Dict.touch key_eqb (JStr X) 0%Z) (imports_agg st);
     file_counts := file_counts st |}.

Lemma for_each_app {A : Type} (l1 l2 : list A) (body : A -> M unit) st :
  for_each (l1 ++ l2) body st
  = match for_each l1 body st with
    | (st', Some _) => for_each l2 body st'
    | (st', None) => (st', None)
    end.
Proof.
  revert st. induction l1 as [| x l1 IH]; intros st; [reflexivity |].
  cbn [app for_each]. unfold bind.
  destruct (body x st) as [st' [[] |]]; [apply IH | reflexivity].
Qed.

Lemma add_import_not_a_number lang X c st :
  is_number c = false ->
  add_import lang (JStr X) c st = (touch_library lang X st, None).
Proof.
  intros Hc. unfold add_import, bind, set_imports_agg, modify, gets, lift,
    assert, ret, raise.
  cbn [hashable imports_agg file_counts].
  assert (Hadd : forall n, py_add n c = None)
    by (intros n; destruct c; cbn in *; congruence).
  rewrite Hadd. unfold touch_library. f_equal. f_equal.
  unfold Dict.touch at 2. rewrite update_update by apply String.eqb_refl.
  reflexivity.
Qed.

Lemma aggregate_snapshot_with st file lang fc libs :
  is_snapshot_name file = true ->
  String.eqb (Text.lower lang) EmptyString = false ->
  aggregate_file st (file, Some (snapshot_with lang fc libs))
  = fst (for_each libs (aggregate_library (Text.lower lang))
           {| imports_agg := imports_agg st;
              file_counts :=
                Dict.update String.eqb (Text.lower lang) 0%Z
                  (fun v => (v + fc)%Z) (file_counts st) |}).
Proof.
  intros Hname Hlang. unfold aggregate_file, snapshot_with.
  cbn [fst snd]. rewrite Hname.
  unfold aggregate_project, bind, lift, assert, ret.
  cbn -[add_file_count for_each aggregate_library Text.lower].
  rewrite Hlang, add_file_count_number. reflexivity.
Qed.

(** A library entry whose count is not a number ends the aggregation of
    its snapshot with an exception that is caught: the [file_count] and
    the entries before it stay counted, the entries after it are not
    read, and the library itself is left in the dictionary with the count
    it had, 0 if it is new.  So the state is that of the snapshot cut
    before the entry, with the library registered. *)
Theorem count_not_a_number_cuts_the_snapshot :
  forall (st : agg_state) (file lang : string) (fc : Z)
         (before : list (string * Z)) (X : string) (c : json)
         (after : list json),
    is_snapshot_name file = true ->
    String.eqb (Text.lower lang) EmptyString = false ->
    is_number c = false ->
    aggregate_file st
      (file,
       Some (snapshot_with lang fc
               (map Snapshot.library_json before
                ++ library_entry (JStr X) c :: after)))
    = touch_library (Text.lower lang) X
        (aggregate_file st
           (file,
            Some (snapshot_with lang fc
                    (map Snapshot.library_json before)))).
Proof.
  intros st file lang fc before X c after Hname Hlang Hc.
  rewrite !aggregate_snapshot_with by assumption.
  rewrite for_each_app, !for_each_libraries. cbn [for_each fst].
  unfold bind.
  change (aggregate_library (Text.lower lang) (library_entry (JStr X) c))
    with (add_import (Text.lower lang) (JStr X) c).
  now rewrite add_import_not_a_number.
Qed.

Lemma count_not_a_number_cuts_the_snapshot_witness :
  aggregate_snapshots
    [("p_snapshot_202401010000.json",
      Some (snapshot_with "Python" 3
              [library_entry (JStr "os") (JStr "many");
               library_entry (JStr "sys") (JNum 4)]))]
  = [ {| programming_language := "python";
         libraries_used := [(JStr "os", 0%Z)];
         file_count := 3 |} ] /\
  aggregate_file empty_state
    ("p_snapshot_202401010000.json",
     Some (snapshot_with "Python" 3
             (map Snapshot.library_json []
              ++ library_entry (JStr "os") (JStr "many")
                 :: [library_entry (JStr "sys") (JNum 4)])))
  = touch_library "python" "os"
      (aggregate_file empty_state
         ("p_snapshot_202401010000.json",
          Some (snapshot_with "Python" 3 (map Snapshot.library_json [])))).
Proof.
  split; [reflexivity |].
  apply (count_not_a_number_cuts_the_snapshot empty_state
           "p_snapshot_202401010000.json" "Python" 3 [] "os" (JStr "many")
           [library_entry (JStr "sys") (JNum 4)]); reflexivity.
Defined.

(** A library entry that the loop counts: a [dict] that has both keys. *)
Definition well_keyed (lib : json) : bool :=
  match lib with
  | JObj kvs =>
      Dict.has String.eqb "import_name" kvs && Dict.has String.eqb "count" kvs
  | _ => false
  end.

Lemma aggregate_library_skips lang lib st :
  well_keyed lib = false -> aggregate_library lang lib st = (st, Some tt).
Proof.
  unfold well_keyed, aggregate_library, Dict.has.
  destruct lib as [| | | | | kvs]; try reflexivity.
  destruct (Dict.get String.eqb "import_name" kvs);
    destruct (Dict.get String.eqb "count" kvs);
    intros H; cbn in H; try discriminate H; reflexivity.
Qed.

Lemma for_each_well_keyed lang libs :
  forall st,
    for_each libs (aggregate_library lang) st
    = for_each (filter well_keyed libs) (aggregate_library lang) st.
Proof.
  induction libs as [| lib libs IH]; intros st; [reflexivity |].
  cbn [filter for_each]. destruct (well_keyed lib) eqn:Hw.
  - cbn [for_each]. unfold bind.
    destruct (aggregate_library lang lib st) as [st' [[] |]];
      [apply IH | reflexivity].
  - unfold bind. rewrite aggregate_library_skips by assumption. apply IH.
Qed.

(** Entries of [external_libraries] that are not a [dict] with the keys
    [import_name] and [count] are passed over: the snapshot counts as if
    they were not there, whatever else it holds. *)
Theorem malformed_library_entries_are_skipped :
  forall (st : agg_state) (file lang : string) (fc : Z) (libs : list json),
    aggregate_file st (file, Some (snapshot_with lang fc libs))
    = aggregate_file st
        (file, Some (snapshot_with lang fc (filter well_keyed libs))).
Proof.
  intros st file lang fc libs. unfold aggregate_file, snapshot_with.
  cbn [fst snd]. destruct (is_snapshot_name file); [| reflexivity].
  unfold aggregate_project, bind, lift, assert, ret.
  cbn -[add_file_count for_each aggregate_library Text.lower filter].
  destruct (String.eqb (Text.lower lang) EmptyString); [reflexivity |].
  rewrite add_file_count_number. now rewrite for_each_well_keyed.
Qed.

(** ** [is_external_library] *)

Section ExternalLibrary.
Local Open Scope string_scope.

Lemma prefix_split p s :
  String.prefix p s = true -> exists r, s = p ++ r.
Proof.
  revert s. induction p as [| c p IH]; intros s H; [now exists s |].
  destruct s as [| d s]; [discriminate H |].
  change (String.prefix (String c p) (String d s))
    with (if ascii_dec c d then String.prefix p s else false) in H.
  destruct (ascii_dec c d) as [<- |]; [| discriminate H].
  destruct (IH s H) as [r ->]. now exists r.
Qed.

Lemma contains_split needle hay :
  Text.contains needle hay = true -> exists a b, hay = a ++ needle ++ b.
Proof.
  induction hay as [| c hay IH]; cbn [Text.contains].
  - destruct (String.prefix needle EmptyString) eqn:E; [| discriminate].
    intros _. destruct (prefix_split _ _ E) as [r Hr].
    exists EmptyString, r. exact Hr.
  - destruct (String.prefix needle (String c hay)) eqn:E.
    + intros _. destruct (prefix_split _ _ E) as [r Hr].
      exists EmptyString, r. exact Hr.
    + intros H. destruct (IH H) as [a [b ->]]. now exists (String c a), b.
Qed.

(** A string that holds [x ++ needle ++ y] holds [needle]. *)
Lemma contains_inside needle x y hay :
  Text.contains (x ++ needle ++ y) hay = true ->
  Text.contains needle hay = true.
Proof.
  intros H. destruct (contains_split _ _ H) as [a [b ->]].
  replace (a ++ (x ++ needle ++ y) ++ b)
    with ((a ++ x) ++ needle ++ (y ++ b))
    by (now rewrite !append_assoc).
  apply contains_app.
Qed.

Lemma lower_char_idempotent c :
  Text.lower_char (Text.lower_char c) = Text.lower_char c.
Proof. destruct c as [[] [] [] [] [] [] [] []]; reflexivity. Qed.

Lemma lower_idempotent s : Text.lower (Text.lower s) = Text.lower s.
Proof.
  induction s as [| c s IH]; cbn; [reflexivity |].
  now rewrite lower_char_idempotent, IH.
Qed.

Lemma lower_app a b : Text.lower (a ++ b) = Text.lower a ++ Text.lower b.
Proof. induction a as [| c a IH]; cbn; [reflexivity | now rewrite IH]. Qed.

Definition short_exclusions : list string :=
  [ "brainboost"; "goldenthinker"; "smartband"; "papitomarket";
    "pelucadorada"; "formate" ].

(** A library is external unless its name holds, in any case of the
    letters, one of six words; the entry [com_goldenthinker_] of the list
    adds nothing to [goldenthinker], and the answer does not depend on
    the case of the name. *)
Theorem is_external_library_by_substring :
  forall (lib_name : string),
    is_external_library lib_name
    = negb (existsb (fun word => Text.contains word (Text.lower lib_name))
              short_exclusions) /\
    is_external_library (Text.lower lib_name) = is_external_library lib_name.
Proof.
  assert (H : forall lib_name,
             is_external_library lib_name
             = negb (existsb
                       (fun word => Text.contains word (Text.lower lib_name))
                       short_exclusions)).
  { intros lib_name.
    unfold is_external_library, EXCLUDE_SUBSTRINGS, short_exclusions.
    cbn [excluded_by existsb].
    change (Text.lower "com_goldenthinker_") with "com_goldenthinker_".
    change (Text.lower "brainboost") with "brainboost".
    change (Text.lower "goldenthinker") with "goldenthinker".
    change (Text.lower "smartband") with "smartband".
    change (Text.lower "papitomarket") with "papitomarket".
    change (Text.lower "pelucadorada") with "pelucadorada".
    change (Text.lower "formate") with "formate".
    set (L := Text.lower lib_name).
    destruct (Text.contains "com_goldenthinker_" L) eqn:E.
    - rewrite (contains_inside "goldenthinker" "com_" "_" L E).
      now destruct (Text.contains "brainboost" L).
    - repeat match goal with
             | |- context [Text.contains ?w L] =>
                 destruct (Text.contains w L); cbn [orb negb];
                 try reflexivity
             end. }
  intros lib_name. split; [apply H |].
  now rewrite !H, lower_idempotent.
Qed.

(** A name that holds an excluded name is excluded. *)
Theorem external_names_have_external_parts :
  forall (a b c : string),
    is_external_library (a ++ b ++ c) = true ->
    is_external_library b = true.
Proof.
  intros a b c. unfold is_external_library.
  rewrite !negb_true_iff. intros H.
  induction EXCLUDE_SUBSTRINGS as [| w ws IH]; [reflexivity |].
  cbn [excluded_by] in *.
  destruct (Text.contains (Text.lower w) (Text.lower (a ++ b ++ c))) eqn:E;
    [discriminate H |].
  destruct (Text.contains (Text.lower w) (Text.lower b)) eqn:Eb;
    [| now apply IH].
  destruct (contains_split _ _ Eb) as [x [y Hxy]].
  rewrite !lower_app, Hxy in E.
  replace (Text.lower a ++ (x ++ Text.lower w ++ y) ++ Text.lower c)
    with ((Text.lower a ++ x) ++ Text.lower w ++ (y ++ Text.lower c)) in E
    by (now rewrite !append_assoc).
  rewrite contains_app in E. discriminate E.
Qed.

Lemma external_names_have_external_parts_witness :
  is_external_library ("my_" ++ "requests" ++ "_fork") = true /\
  is_external_library "requests" = true.
Proof.
  assert (H : is_external_library ("my_" ++ "requests" ++ "_fork") = true)
    by reflexivity.
  split; [exact H |].
  exact (external_names_have_external_parts "my_" "requests" "_fork" H).
Defined.

End ExternalLibrary.

(** ** Extensions that can be matched *)

Section Extensions.
Local Open Scope string_scope.

Lemma from_at a s : Text.from (Z.of_nat (String.length a)) (a ++ s) = s.
Proof.
  unfold Text.from. rewrite Nat2Z.id, length_append.
  replace (String.length a + String.length s - String.length a)%nat
    with (String.length s) by lia.
  replace (String.length a) with (String.length a + 0)%nat at 1 by lia.
  rewrite substring_skip. apply substring_all.
Qed.

Lemma absent_substring c s :
  absent c s = true ->
  forall n m, absent c (String.substring n m s) = true.
Proof.
  unfold absent, Text.chars.
  induction s as [| d s IH]; intros H n m.
  - now destruct n, m.
  - cbn in H. apply andb_prop in H. destruct H as [Hd Hs].
    destruct n as [| n]; destruct m as [| m]; cbn; try reflexivity.
    + rewrite Hd. apply (IH Hs 0%nat m).
    + apply (IH Hs n 0%nat).
    + apply (IH Hs n (S m)).
Qed.

Lemma absent_app c a b :
  absent c (a ++ b) = absent c a && absent c b.
Proof. unfold absent. rewrite chars_app. apply forallb_app. Qed.

(** Past the last occurrence of a character there is none. *)
Lemma absent_from c p i :
  (Text.rfind c p < i)%Z -> absent c (Text.from i p) = true.
Proof.
  intros Hi. unfold Text.from.
  destruct (rfind_cases c p) as [[Hp _] | [a [r [-> [Hr Hf]]]]].
  - now apply absent_substring.
  - rewrite Hf in Hi.
    replace (Z.to_nat i)
      with (String.length a + (Z.to_nat i - String.length a))%nat by lia.
    rewrite substring_skip.
    destruct (Z.to_nat i - String.length a)%nat as [| k] eqn:Ek; [lia |].
    destruct (String.length (a ++ String c r)
              - (String.length a + S k))%nat;
      cbn [String.substring]; now apply absent_substring.
Qed.

(** What an extension looks like: nothing, or a dot followed by
    characters that are neither a dot nor a separator. *)
Definition extension_shape (e : string) : bool :=
  match e with
  | EmptyString => true
  | String c r =>
      Ascii.eqb c Path.extsep && absent Path.extsep r && absent Path.sep r
  end.

Lemma splitext_ext_shape p : extension_shape (Path.splitext_ext p) = true.
Proof.
  unfold Path.splitext_ext.
  destruct (Text.rfind Path.sep p <? Text.rfind Path.extsep p)%Z eqn:Hlt;
    [| reflexivity].
  destruct (existsb _ _); [| reflexivity].
  apply Z.ltb_lt in Hlt.
  pose proof (absent_from Path.sep p _ Hlt) as Hsep.
  destruct (rfind_cases Path.extsep p) as [[_ Hf] | [a [r [-> [Hr Hf]]]]].
  - pose proof (rfind_cases Path.sep p) as Hc.
    assert (-1 <= Text.rfind Path.sep p)%Z
      by (destruct Hc as [[_ ->] | [a [r [_ [_ ->]]]]]; lia).
    lia.
  - rewrite Hf in *. rewrite from_at in *.
    cbn [extension_shape]. rewrite Ascii.eqb_refl, Hr. cbn [andb].
    unfold absent, Text.chars in Hsep. cbn in Hsep. exact Hsep.
Qed.

Lemma lower_char_keeps c d :
  (c = Path.extsep \/ c = Path.sep) ->
  Ascii.eqb (Text.lower_char d) c = Ascii.eqb d c.
Proof.
  intros [-> | ->]; destruct d as [[] [] [] [] [] [] [] []]; reflexivity.
Qed.

Lemma absent_lower c r :
  (c = Path.extsep \/ c = Path.sep) ->
  absent c (Text.lower r) = absent c r.
Proof.
  intros Hc. unfold absent, Text.chars.
  induction r as [| d r IH]; cbn; [reflexivity |].
  now rewrite lower_char_keeps, IH.
Qed.

(** The strings that the lowered extension of a file name can be. *)
Definition matchable (e : string) : bool :=
  extension_shape e && String.eqb (Text.lower e) e.

Lemma lowered_extension_matchable file :
  matchable (Text.lower (Path.splitext_ext file)) = true.
Proof.
  unfold matchable. rewrite lower_idempotent, String.eqb_refl, andb_true_r.
  pose proof (splitext_ext_shape file) as H.
  destruct (Path.splitext_ext file) as [| c r]; [reflexivity |].
  cbn [Text.lower extension_shape] in *.
  rewrite lower_char_keeps by now left.
  rewrite !absent_lower by auto. exact H.
Qed.

Lemma mem_matchable e l :
  matchable e = true -> Text.mem e (filter matchable l) = Text.mem e l.
Proof.
  intros He. unfold Text.mem.
  induction l as [| w l IH]; [reflexivity |].
  cbn [filter existsb]. destruct (matchable w) eqn:Hw.
  - cbn [existsb]. now rewrite IH.
  - rewrite IH. destruct (String.eqb_spec e w) as [-> |]; [| reflexivity].
    congruence.
Qed.

(** The entries of [include_extensions] that no extension can equal. *)
Definition unmatchable_extensions : list string :=
  [ ".R"; ".P"; ".travis.yml"; "Jenkinsfile"; ".circleci/config.yml";
    ".gitlab-ci.yml"; "azure-pipelines.yml" ].

(** The extension that is looked up is nothing or a dot followed by
    characters in lower case without a further dot or separator, so an
    entry of [include_extensions] of another form never matches: the
    classifier decides as if it were not listed.  In [INCLUDE_EXTENSIONS]
    these are [.R], [.P], [.travis.yml], [Jenkinsfile],
    [.circleci/config.yml], [.gitlab-ci.yml] and [azure-pipelines.yml];
    a file named [Jenkinsfile] is skipped. *)
Theorem unmatchable_extensions_have_no_effect :
  (forall (cfg : config) (file : string),
      classify cfg file
      = classify
          {| root_dir := root_dir cfg;
             avoid_folders := avoid_folders cfg;
             avoid_files := avoid_files cfg;
             include_extensions := filter matchable (include_extensions cfg);
             key_files := key_files cfg |}
          file) /\
  filter (fun e => negb (matchable e)) INCLUDE_EXTENSIONS
  = unmatchable_extensions /\
  (forall project_path,
      classify (default_config project_path) "Jenkinsfile" = Skip).
Proof.
  split; [| split].
  - intros cfg file. unfold classify.
    cbn [avoid_files include_extensions key_files].
    now rewrite mem_matchable by apply lowered_extension_matchable.
  - reflexivity.
  - reflexivity.
Qed.

End Extensions.

(** ** GitLab: the directory of a repository *)

Section RepoName.
Local Open Scope string_scope.

Definition dot_git : list ascii := Text.chars ".git".

(** No occurrence of [.git] starts inside a text that holds none and is
    followed by nothing or by a dot. *)
Lemma no_occurrence_inside p rest :
  Text.contains ".git" p = false ->
  p <> EmptyString ->
  rest = EmptyString \/ (exists r, rest = String "."%char r) ->
  Text.strip_prefix dot_git (Text.chars (p ++ rest)) = None.
Proof.
  intros Hfree Hne Hrest.
  destruct (Text.strip_prefix dot_git (Text.chars (p ++ rest)))
    as [t |] eqn:E; [| reflexivity].
  exfalso. apply strip_prefix_split in E.
  rewrite chars_app in E. unfold dot_git, Text.chars in E.
  assert (Hend : forall a : ascii,
             a <> "."%char ->
             forall w, list_ascii_of_string rest <> a :: w).
  { intros a Ha w. destruct Hrest as [-> | [r ->]]; cbn; congruence. }
  destruct p as [| c1 p]; [contradiction |].
  cbn [list_ascii_of_string app] in E. injection E as -> E.
  destruct p as [| c2 p];
    [cbn in E; now apply Hend in E |].
  cbn [list_ascii_of_string app] in E. injection E as -> E.
  destruct p as [| c3 p];
    [cbn in E; now apply Hend in E |].
  cbn [list_ascii_of_string app] in E. injection E as -> E.
  destruct p as [| c4 p];
    [cbn in E; now apply Hend in E |].
  cbn [list_ascii_of_string app] in E. injection E as -> E.
  revert Hfree. clear.
  change (String "." (String "g" (String "i" (String "t" p))))
    with (EmptyString ++ ".git" ++ p).
  now rewrite contains_app.
Qed.

Lemma append_nil_r p : p ++ EmptyString = p.
Proof. induction p as [| c p IH]; cbn; [| rewrite IH]; reflexivity. Qed.

Lemma contains_tail needle c p :
  Text.contains needle (String c p) = false -> Text.contains needle p = false.
Proof.
  cbn [Text.contains].
  now destruct (String.prefix needle (String c p)).
Qed.

Lemma replace_passes p :
  Text.contains ".git" p = false ->
  forall rest,
    rest = EmptyString \/ (exists r, rest = String "."%char r) ->
    GitLab.replace_from dot_git [] (Text.chars (p ++ rest)) 0
    = (Text.chars p ++ GitLab.replace_from dot_git [] (Text.chars rest) 0)%list.
Proof.
  induction p as [| c p IH]; intros Hfree rest Hrest; [reflexivity |].
  pose proof (no_occurrence_inside (String c p) rest Hfree
                ltac:(discriminate) Hrest) as Hno.
  cbn [append Text.chars list_ascii_of_string] in *.
  cbn [GitLab.replace_from]. unfold Text.chars in Hno. rewrite Hno.
  cbn [app]. f_equal. apply IH; [| assumption].
  now apply contains_tail in Hfree.
Qed.

Lemma replace_drops r :
  GitLab.replace_from dot_git [] (Text.chars (".git" ++ r)) 0
  = GitLab.replace_from dot_git [] (Text.chars r) 0.
Proof.
  cbn [append Text.chars list_ascii_of_string].
  destruct r; reflexivity.
Qed.

Lemma replace_pieces pieces :
  Forall (fun p => Text.contains ".git" p = false) pieces ->
  GitLab.replace_from dot_git [] (Text.chars (String.concat ".git" pieces)) 0
  = Text.chars (String.concat EmptyString pieces).
Proof.
  induction pieces as [| p pieces IH]; intros H; [reflexivity |].
  inversion H as [| ? ? Hp Hrest]; subst.
  destruct pieces as [| q pieces].
  - cbn [String.concat].
    pose proof (replace_passes p Hp EmptyString (or_introl eq_refl)) as H1.
    rewrite append_nil_r in H1. rewrite H1. cbn. apply app_nil_r.
  - change (String.concat ".git" (p :: q :: pieces))
      with (p ++ ".git" ++ String.concat ".git" (q :: pieces)).
    change (String.concat EmptyString (p :: q :: pieces))
      with (p ++ EmptyString ++ String.concat EmptyString (q :: pieces)).
    rewrite replace_passes; [| assumption | right; eexists; reflexivity].
    rewrite replace_drops, (IH Hrest). cbn [append].
    now rewrite chars_app.
Qed.

Lemma absent_concat c sep pieces :
  absent c sep = true ->
  Forall (fun p => absent c p = true) pieces ->
  absent c (String.concat sep pieces) = true.
Proof.
  intros Hsep. induction pieces as [| p pieces IH]; intros H; [reflexivity |].
  inversion H as [| ? ? Hp Hrest]; subst.
  destruct pieces as [| q pieces]; [exact Hp |].
  change (String.concat sep (p :: q :: pieces))
    with (p ++ sep ++ String.concat sep (q :: pieces)).
  rewrite !absent_app, Hp, Hsep. now apply IH.
Qed.

(** The directory into which a repository is cloned is named after the
    last segment of its URL with every occurrence of [.git] taken out,
    not only a final one: a last segment made of pieces joined by [.git]
    gives the pieces put together. *)
Theorem repo_name_drops_every_dot_git :
  forall (base : string) (pieces : list string),
    Forall (fun p => Text.contains ".git" p = false) pieces ->
    Forall (fun p => absent "/"%char p = true) pieces ->
    GitLab.repo_name (base ++ "/" ++ String.concat ".git" pieces)
    = String.concat EmptyString pieces.
Proof.
  intros base pieces Hfree Hsep.
  unfold GitLab.repo_name.
  change (GitLab.last_segment (base ++ "/" ++ String.concat ".git" pieces))
    with (Path.basename
            (base ++ String Path.sep (String.concat ".git" pieces))).
  rewrite basename_after_sep
    by (apply absent_concat; [reflexivity | assumption]).
  unfold GitLab.replace. apply chars_inj. rewrite chars_text.
  now apply replace_pieces.
Qed.

Lemma repo_name_drops_every_dot_git_witness :
  GitLab.repo_name
    ("https://gitlab.com/user" ++ "/"
     ++ String.concat ".git" ["user"; "lab.io"; EmptyString])
  = "userlab.io" /\
  String.concat ".git" ["user"; "lab.io"; EmptyString] = "user.gitlab.io.git".
Proof.
  split; [| reflexivity].
  apply (repo_name_drops_every_dot_git "https://gitlab.com/user"
           ["user"; "lab.io"; EmptyString]).
  - repeat constructor.
  - repeat constructor.
Defined.

End RepoName.

(** ** GitLab: the progress of the clone loop *)

Section CloneProgress.
Local Open Scope Z_scope.

(** A turn at the end of which the repository is counted. *)
Definition succeeds (t : string * GitLab.answers) : bool :=
  match GitLab.clone_or_update (snd t) with
  | GitLab.Counted => true
  | _ => false
  end.

Definition starts (t : string * GitLab.answers) : bool :=
  match GitLab.clone_or_update (snd t) with
  | GitLab.Failed => false
  | _ => true
  end.

Lemma clone_repos_percents turns :
  forall p,
    forallb starts turns = true ->
    1 <= GitLab.total_repos p < 2 ^ 53 ->
    0 <= GitLab.cloned_repos p ->
    GitLab.cloned_repos p + Z.of_nat (List.length turns) < 2 ^ 53 ->
    GitLab.clone_repos true turns p
    = ({| GitLab.total_repos := GitLab.total_repos p;
          GitLab.cloned_repos :=
            GitLab.cloned_repos p
            + Z.of_nat (List.length (filter succeeds turns));
          GitLab.reported :=
            GitLab.reported p
            ++ Binary64.percents (GitLab.total_repos p)
                 (GitLab.cloned_repos p)
                 (List.length (filter succeeds turns)) |},
       Finished).
Proof.
  induction turns as [| [url a] turns IH]; intros p Hs Ht Hc Hlen.
  - cbn. rewrite Z.add_0_r, app_nil_r. now destruct p.
  - cbn [forallb] in Hs. apply andb_prop in Hs. destruct Hs as [Ha Hs].
    cbn [List.length] in Hlen. rewrite Nat2Z.inj_succ in Hlen.
    cbn [GitLab.clone_repos filter].
    change (succeeds (url, a))
      with (match GitLab.clone_or_update a with
            | GitLab.Counted => true
            | _ => false
            end).
    unfold starts in Ha. cbn [snd] in Ha.
    destruct (GitLab.clone_or_update a); [| | discriminate Ha].
    + assert (Hz : (GitLab.total_repos p =? 0) = false)
        by (apply Z.eqb_neq; lia).
      rewrite Hz.
      rewrite (Binary64.progress_value_defined
                 (GitLab.cloned_repos p + 1) (GitLab.total_repos p))
        by lia.
      rewrite IH; cbn [GitLab.total_repos GitLab.cloned_repos
                        GitLab.reported]; try assumption; try lia.
      cbn [List.length Binary64.percents].
      rewrite Nat2Z.inj_succ, <- app_assoc. cbn [app].
      replace (GitLab.cloned_repos p
               + Z.succ (Z.of_nat (List.length (filter succeeds turns))))
        with (GitLab.cloned_repos p + 1
              + Z.of_nat (List.length (filter succeeds turns))) by lia.
      reflexivity.
    + rewrite IH by (try assumption; lia). reflexivity.
Qed.

(** The clone loop of [fetch_data] with a callback, when every [git]
    command can be started: the callback is called once for each
    repository that is cloned or updated to the end, with values that
    never decrease and stay within 0..100; the last value is 100 when
    every repository succeeds, and no value exceeds 99 when one of them
    does not. *)
Theorem clone_progress_counts_successes :
  forall (turns : list (string * GitLab.answers)),
    Z.of_nat (List.length turns) < 2 ^ 53 ->
    forallb starts turns = true ->
    let result := GitLab.fetch_data true turns in
    let done := List.length (filter succeeds turns) in
    snd result = Finished /\
    GitLab.cloned_repos (fst result) = Z.of_nat done /\
    List.length (GitLab.reported (fst result)) = done /\
    Sorted Z.le (GitLab.reported (fst result)) /\
    Forall (fun v => 0 <= v <= 100) (GitLab.reported (fst result)) /\
    (done = List.length turns -> (0 < done)%nat ->
     last (GitLab.reported (fst result)) 0 = 100) /\
    ((done < List.length turns)%nat ->
     Forall (fun v => v <= 99) (GitLab.reported (fst result))).
Proof.
  intros turns Hn Hs result done. subst result done.
  unfold GitLab.fetch_data.
  set (n := Z.of_nat (List.length turns)) in *.
  set (done := List.length (filter succeeds turns)).
  assert (Hdone : (done <= List.length turns)%nat)
    by apply filter_length_le.
  destruct (Z.ltb_spec 0 n) as [Hpos | Hzero].
  - rewrite clone_repos_percents;
      cbn [GitLab.total_repos GitLab.cloned_repos GitLab.reported];
      try assumption; try (fold n; lia).
    fold done. cbn [fst snd GitLab.cloned_repos GitLab.reported app].
    split; [reflexivity |]. split; [lia |].
    split; [apply Binary64.percents_length |].
    split; [apply Binary64.percents_sorted; unfold n in *; lia |].
    split; [apply Binary64.percents_range; unfold n in *; lia |].
    split.
    + intros Hall Hsome. destruct done as [| k] eqn:Ek; [lia |].
      rewrite Binary64.percents_last, Z.add_0_l.
      replace (Z.of_nat (S k)) with n by (unfold n; lia).
      apply Binary64.percent_complete. lia.
    + intros Hless. apply Forall_forall. intros v Hv.
      destruct (In_nth _ _ 0 Hv) as [i [Hi <-]].
      rewrite Binary64.percents_length in Hi.
      rewrite Binary64.percents_nth by assumption.
      apply Binary64.percent_below_100; unfold n in *; lia.
  - assert (Hnil : turns = [])
      by (destruct turns; [reflexivity | unfold n in Hzero; cbn in Hzero; lia]).
    subst turns. cbn. repeat split; try constructor; try lia.
Qed.

Definition cloned_ok : GitLab.answers :=
  {| GitLab.path_exists := false;
     GitLab.git_clone := GitLab.Completed 0 EmptyString;
     GitLab.git_fetch := GitLab.NotStarted;
     GitLab.git_symbolic_ref := GitLab.NotStarted;
     GitLab.git_checkout := fun _ => GitLab.NotStarted;
     GitLab.git_pull := fun _ => GitLab.NotStarted |}.

Definition pull_refused : GitLab.answers :=
  {| GitLab.path_exists := true;
     GitLab.git_clone := GitLab.NotStarted;
     GitLab.git_fetch := GitLab.Completed 0 EmptyString;
     GitLab.git_symbolic_ref :=
       GitLab.Completed 0 ("refs/remotes/origin/main" ++ Spec.nl)%string;
     GitLab.git_checkout :=
       fun b => GitLab.Completed (if String.eqb b "main" then 0 else 1)
                  EmptyString;
     GitLab.git_pull := fun _ => GitLab.Completed 1 EmptyString |}.

Definition three_turns : list (string * GitLab.answers) :=
  [ ("https://gitlab.com/u/a.git", cloned_ok);
    ("https://gitlab.com/u/b.git", pull_refused);
    ("https://gitlab.com/u/c.git", cloned_ok) ].

Lemma clone_progress_counts_successes_witness :
  GitLab.reported (fst (GitLab.fetch_data true three_turns)) = [33; 66] /\
  Forall (fun v => v <= 99)
    (GitLab.reported (fst (GitLab.fetch_data true three_turns))).
Proof.
  split; [vm_compute; reflexivity |].
  destruct (clone_progress_counts_successes three_turns
              ltac:(vm_compute; reflexivity) eq_refl)
    as [_ [_ [_ [_ [_ [_ H]]]]]].
  apply H. vm_compute. lia.
Defined.

End CloneProgress.

(** ** [TechReporter] and the reports of [generate_json_report] *)

Lemma max_by_mtime_In l :
  forall best, In (TechReporter.max_by_mtime best l) (best :: l).
Proof.
  induction l as [| f l IH]; intros best; [now left |].
  cbn [TechReporter.max_by_mtime].
  destruct (IH (if (TechReporter.mtime best <? TechReporter.mtime f)%Z
                then f else best)) as [H | H].
  - destruct (TechReporter.mtime best <? TechReporter.mtime f)%Z;
      rewrite <- H; [right; now left | now left].
  - right. now right.
Qed.

(** [generate_pdf_report] loops over the loaded report as over a list of
    projects, while [generate_json_report] dumps a dictionary with the
    keys [github_user_name] and [programming_languages]: the loop then
    gets the first key, a string, and [project.get] raises.  So when the
    files named [report_*.json] are reports of [generate_json_report],
    [pdf.output] is never reached: no report is found, or the latest
    cannot be loaded, or the exception leaves the method after the two
    cells of the heading. *)
Theorem tech_reporter_never_renders_overall_reports :
  forall (listing : list TechReporter.report_file) (output_succeeds : bool),
    (forall f j,
        In f listing ->
        TechReporter.is_report_name (TechReporter.name f) = true ->
        TechReporter.content f = Some j ->
        exists user data, j = overall_summary user data) ->
    TechReporter.generate_pdf_report listing output_succeeds
      = TechReporter.NoReportFound \/
    TechReporter.generate_pdf_report listing output_succeeds
      = TechReporter.NotLoaded \/
    TechReporter.generate_pdf_report listing output_succeeds
      = TechReporter.Raised [TechReporter.Title; TechReporter.GeneratedOn].
Proof.
  intros listing output_succeeds Hshape.
  unfold TechReporter.generate_pdf_report.
  destruct (filter (fun f => TechReporter.is_report_name (TechReporter.name f))
              listing) as [| first others] eqn:Ef; [now left |].
  right.
  pose proof (max_by_mtime_In others first) as Hin.
  rewrite <- Ef in Hin. apply filter_In in Hin. destruct Hin as [Hin Hname].
  destruct (TechReporter.content (TechReporter.max_by_mtime first others))
    as [data |] eqn:Ec; [| now left].
  right.
  destruct (Hshape _ _ Hin Hname Ec) as [user [summaries ->]].
  reflexivity.
Qed.

Definition one_report : list TechReporter.report_file :=
  [ {| TechReporter.name := "report_local_folder_202401010000.json";
       TechReporter.mtime := 1704067200;
       TechReporter.content :=
         Some (overall_summary "unknown"
                 [ {| programming_language := "python";
                      libraries_used := [(JStr "os", 2%Z)];
                      file_count := 1 |} ]) |} ].

Lemma tech_reporter_never_renders_overall_reports_witness :
  TechReporter.generate_pdf_report one_report true
  = TechReporter.Raised [TechReporter.Title; TechReporter.GeneratedOn] /\
  (TechReporter.generate_pdf_report one_report true
     = TechReporter.NoReportFound \/
   TechReporter.generate_pdf_report one_report true
     = TechReporter.NotLoaded \/
   TechReporter.generate_pdf_report one_report true
     = TechReporter.Raised [TechReporter.Title; TechReporter.GeneratedOn]).
Proof.
  split; [reflexivity |].
  apply (tech_reporter_never_renders_overall_reports one_report true).
  intros f j [<- | []] _ [= <-]. now eexists _, _.
Defined.

(** ** Extensions in capital letters *)

Lemma first_detected_none vs :
  (forall v, In v vs -> detect_programming_language (v_file v) = None) ->
  first_detected vs = None.
Proof.
  induction vs as [| v vs IH]; intros H; [reflexivity |].
  cbn [first_detected]. rewrite (H v) by now left.
  apply IH. intros w Hw. apply H. now right.
Qed.

(** Whether a file is scanned goes by its extension in lower case, but
    the language is looked up under the extension as it is written: when
    the extension of every file that is read has a capital letter, the
    language of the snapshot is [unknown], while the imports of the files
    are counted all the same. *)
Theorem capital_extensions_leave_the_language_unknown :
  forall (cfg : config) (entries : list node),
    (forall v,
        In v (walk_project cfg entries) ->
        Spec.successfully_read cfg v = true ->
        Text.lower (Path.splitext_ext (v_file v))
        <> Path.splitext_ext (v_file v)) ->
    SnapshotGenerator.programming_language (generate_context_data cfg entries)
    = "unknown".
Proof.
  intros cfg entries H.
  unfold generate_context_data, finish, scan_visits.
  cbn [SnapshotGenerator.programming_language].
  rewrite fold_first_match by exact I. cbn [initial_state detected_language].
  unfold first_detected_language. rewrite first_detected_none; [reflexivity |].
  intros v Hv. apply filter_In in Hv. destruct Hv as [Hin Hread].
  destruct (detect_programming_language (v_file v)) as [l |] eqn:Hd;
    [| reflexivity].
  apply detected_extension_is_lower in Hd. now apply H in Hd.
Qed.

Definition capital_project : list node :=
  [ File "MAIN.PY" (ReadOk "import os" 9 "2024-01-01 00:00:00") ].

Lemma capital_extensions_leave_the_language_unknown_witness :
  SnapshotGenerator.programming_language
    (generate_context_data (default_config "proj") capital_project)
  = "unknown" /\
  external_libraries
    (generate_context_data (default_config "proj") capital_project)
  = [("os", 1%Z)].
Proof.
  split; [| reflexivity].
  apply (capital_extensions_leave_the_language_unknown
           (default_config "proj") capital_project).
  intros v [<- | []] _. discriminate.
Defined.

(** ** The number of lines of a file *)

Definition no_break (line : string) : bool :=
  forallb (fun c => negb (is_linebreak c)) (Text.chars line).

Lemma not_break_not_cr c :
  is_linebreak c = false -> Ascii.eqb c "013"%char = false.
Proof.
  intros H. destruct (Ascii.eqb_spec c "013"%char) as [-> |]; [| reflexivity].
  discriminate H.
Qed.

Lemma count_lines_line line :
  no_break line = true ->
  forall rest pending,
    count_lines (Text.chars line ++ "010"%char :: rest) pending
    = S (count_lines rest false).
Proof.
  unfold no_break, Text.chars.
  induction line as [| c line IH]; intros H rest pending.
  - reflexivity.
  - cbn [list_ascii_of_string forallb] in H. apply andb_prop in H.
    destruct H as [Hc Hl]. apply negb_true_iff in Hc.
    cbn [list_ascii_of_string app count_lines].
    rewrite (not_break_not_cr c Hc), Hc. now apply IH.
Qed.

Lemma count_lines_last line :
  no_break line = true ->
  forall pending,
    count_lines (Text.chars line) pending
    = if pending || negb (String.eqb line EmptyString) then 1%nat else 0%nat.
Proof.
  unfold no_break, Text.chars.
  induction line as [| c line IH]; intros H pending.
  - cbn. now destruct pending.
  - cbn [list_ascii_of_string forallb] in H. apply andb_prop in H.
    destruct H as [Hc Hl]. apply negb_true_iff in Hc.
    cbn [list_ascii_of_string count_lines].
    rewrite (not_break_not_cr c Hc), Hc, (IH Hl). cbn [orb].
    now rewrite orb_true_r.
Qed.

(** [Lines] of a file whose lines are separated by line feeds: the
    number of its lines, an empty piece after the last line feed not
    being counted. *)
Theorem lines_of_a_file :
  forall (lines : list string) (last_line : string),
    forallb no_break (lines ++ [last_line]) = true ->
    count_lines (Text.chars (Spec.join_lines (lines ++ [last_line]))) false
    = (List.length lines
       + (if String.eqb last_line EmptyString then 0 else 1))%nat.
Proof.
  induction lines as [| l lines IH]; intros last_line H.
  - cbn [app forallb] in H. apply andb_prop in H. destruct H as [H _].
    cbn [app Spec.join_lines String.concat List.length].
    rewrite (count_lines_last _ H). cbn [orb Nat.add].
    now destruct (String.eqb last_line EmptyString).
  - cbn [app forallb] in H. apply andb_prop in H. destruct H as [Hl H].
    cbn [app List.length Nat.add]. unfold Spec.join_lines in *.
    destruct (lines ++ [last_line]) as [| x rest] eqn:E;
      [now destruct lines |].
    change (String.concat Spec.nl (l :: x :: rest))
      with (l ++ Spec.nl ++ String.concat Spec.nl (x :: rest))%string.
    rewrite chars_app. unfold Spec.nl at 1.
    cbn [append Text.chars list_ascii_of_string].
    change (list_ascii_of_string (String.concat Spec.nl (x :: rest)))
      with (Text.chars (String.concat Spec.nl (x :: rest))).
    rewrite (count_lines_line l Hl). rewrite <- E in *.
    rewrite (IH last_line H). reflexivity.
Qed.

Lemma lines_of_a_file_witness :
  count_lines (Text.chars (Spec.join_lines (["import os"; "x = 1"] ++ [""])))
    false = 2%nat /\
  Spec.join_lines (["import os"; "x = 1"] ++ [""])
  = ("import os" ++ Spec.nl ++ "x = 1" ++ Spec.nl)%string.
Proof.
  split; [| reflexivity].
  apply (lines_of_a_file ["import os"; "x = 1"] EmptyString). reflexivity.
Defined.

(** ** GitLab: the list of the repositories *)

Section Repositories.
Import Json.

(** A user that [_get_list_of_repositories_for_usernames] passes over:
    the look-up gives no id, or one that counts as false. *)
Definition passed_over (g : GitLab.api) (username : string) : Prop :=
  GitLab.get_user_id g username = GitLab.Returns None \/
  exists id, GitLab.get_user_id g username = GitLab.Returns (Some id)
             /\ py_truth id = false.

Lemma list_passes_over requests g skipped :
  Forall (passed_over g) skipped ->
  forall usernames all_repos page_repos,
    GitLab.list_of_repositories requests g (skipped ++ usernames)
      all_repos page_repos
    = GitLab.list_of_repositories requests g usernames all_repos page_repos.
Proof.
  induction 1 as [| u skipped Hu _ IH]; intros usernames all_repos page_repos;
    [reflexivity |].
  cbn [app GitLab.list_of_repositories].
  destruct Hu as [-> | [id [-> Hid]]]; [apply IH |].
  rewrite Hid. apply IH.
Qed.

(** When the request for the first page of the first user that has an
    id does not answer 200, the loop is left before [page_repos] is
    bound, and the message that is logged after the loop reads its
    length: the method raises, and so does [fetch_data], instead of
    going on with the next user. *)
Theorem failed_first_page_raises :
  forall (requests : nat) (g : GitLab.api) (skipped : list string)
         (username : string) (rest : list string) (id : json),
    (0 < requests)%nat ->
    Forall (passed_over g) skipped ->
    GitLab.get_user_id g username = GitLab.Returns (Some id) ->
    py_truth id = true ->
    GitLab.status_code (GitLab.projects_page g id 1) <> 200%Z ->
    GitLab.get_gitlab_repos requests g (skipped ++ username :: rest)
    = GitLab.Raises.
Proof.
  intros requests g skipped username rest id Hreq Hskip Hid Htruth Hstatus.
  unfold GitLab.get_gitlab_repos.
  rewrite list_passes_over by assumption.
  cbn [GitLab.list_of_repositories]. rewrite Hid, Htruth.
  destruct requests as [| requests]; [lia |].
  cbn [GitLab.pages].
  apply Z.eqb_neq in Hstatus. rewrite Hstatus. reflexivity.
Qed.

Definition failing_api : GitLab.api :=
  {| GitLab.users_by_name :=
       fun _ => {| GitLab.status_code := 200;
                   GitLab.body := JArr [JObj [("id", JNum 7)]] |};
     GitLab.projects_page :=
       fun _ _ => {| GitLab.status_code := 429; GitLab.body := JNull |} |}.

Lemma failed_first_page_raises_witness :
  GitLab.get_gitlab_repos 5 failing_api ([] ++ "alice" :: ["bob"])
  = GitLab.Raises.
Proof.
  apply (failed_first_page_raises 5 failing_api [] "alice" ["bob"] (JNum 7)).
  - lia.
  - constructor.
  - reflexivity.
  - reflexivity.
  - discriminate.
Defined.

(** The pages that the API serves for a user: each page a list that is
    not empty, and an empty list after the last. *)
Definition serves (g : GitLab.api) (id : json) (first : nat)
  (served : list (list json)) : Prop :=
  (forall i items,
      nth_error served i = Some items ->
      items <> [] /\
      GitLab.projects_page g id (first + i)
      = {| GitLab.status_code := 200; GitLab.body := JArr items |}) /\
  GitLab.projects_page g id (first + List.length served)
  = {| GitLab.status_code := 200; GitLab.body := JArr [] |}.

Lemma pages_served g id served :
  forall requests first all_repos page_repos,
    serves g id first served ->
    (List.length served < requests)%nat ->
    GitLab.pages requests g id first all_repos page_repos
    = GitLab.Returns (all_repos ++ List.concat served, Some (JArr [])).
Proof.
  induction served as [| items served IH];
    intros requests first all_repos page_repos [Hpages Hlast] Hreq.
  - destruct requests as [| requests]; [cbn in Hreq; lia |].
    cbn [GitLab.pages]. cbn [List.length] in Hlast.
    rewrite Nat.add_0_r in Hlast. rewrite Hlast. cbn.
    now rewrite app_nil_r.
  - destruct requests as [| requests]; [cbn in Hreq; lia |].
    cbn [GitLab.pages].
    destruct (Hpages 0%nat items eq_refl) as [Hne Hpage].
    rewrite Nat.add_0_r in Hpage. rewrite Hpage.
    cbn [GitLab.status_code GitLab.body Z.eqb negb Pos.eqb].
    destruct items as [| x items]; [contradiction |].
    cbn [py_truth negb py_iter GitLab.or_raise].
    rewrite IH.
    + cbn [List.concat]. now rewrite app_assoc.
    + split.
      * intros i its Hi. specialize (Hpages (S i) its Hi).
        now rewrite Nat.add_succ_comm.
      * cbn [List.length] in Hlast. now rewrite Nat.add_succ_comm.
    + cbn [List.length] in Hreq. lia.
Qed.

(** A user as the API knows it: the id that the look-up gives and the
    pages of its projects. *)
Record known_user : Type := {
  username : string;
  user_id : json;
  user_pages : list (list json)
}.

Definition known (g : GitLab.api) (u : known_user) : Prop :=
  GitLab.get_user_id g (username u) = GitLab.Returns (Some (user_id u)) /\
  py_truth (user_id u) = true /\
  serves g (user_id u) 1 (user_pages u).

Lemma list_of_known requests g users :
  Forall (known g) users ->
  Forall (fun u => (List.length (user_pages u) < requests)%nat) users ->
  forall all_repos page_repos,
    GitLab.list_of_repositories requests g (map username users)
      all_repos page_repos
    = GitLab.Returns
        (all_repos ++ List.concat (map (fun u => List.concat (user_pages u)) users)).
Proof.
  induction users as [| u users IH]; intros Hk Hr all_repos page_repos.
  - cbn. now rewrite app_nil_r.
  - inversion Hk as [| ? ? [Hid [Htruth Hserves]] Hk']; subst.
    inversion Hr as [| ? ? Hu Hr']; subst.
    cbn [map GitLab.list_of_repositories]. rewrite Hid, Htruth.
    rewrite (pages_served g (user_id u) (user_pages u)) by assumption.
    cbn [GitLab.or_raise py_len]. rewrite (IH Hk' Hr').
    cbn [map List.concat]. now rewrite app_assoc.
Qed.

(** When every user is found and the API serves the projects of each in
    pages that end with an empty page, [_get_gitlab_repos] returns, given
    requests enough for the pages of each user: the URLs of the projects
    of all the pages, user after user and page after page, and their
    number. *)
Theorem repositories_of_known_users :
  forall (requests : nat) (g : GitLab.api) (users : list known_user)
         (urls : list json),
    Forall (known g) users ->
    Forall (fun u => (List.length (user_pages u) < requests)%nat) users ->
    GitLab.clone_urls_of
      (List.concat (map (fun u => List.concat (user_pages u)) users)) = Some urls ->
    GitLab.get_gitlab_repos requests g (map username users)
    = GitLab.Returns (Z.of_nat (List.length urls), urls).
Proof.
  intros requests g users urls Hk Hr Hurls.
  unfold GitLab.get_gitlab_repos.
  rewrite (list_of_known requests g users Hk Hr). cbn [app].
  now rewrite Hurls.
Qed.

Definition repo (url : string) : json :=
  JObj [("id", JNum 1); ("http_url_to_repo", JStr url)].

Definition two_page_api : GitLab.api :=
  {| GitLab.users_by_name :=
       fun _ => {| GitLab.status_code := 200;
                   GitLab.body := JArr [JObj [("id", JNum 7)]] |};
     GitLab.projects_page :=
       fun _ page =>
         {| GitLab.status_code := 200;
            GitLab.body :=
              match page with
              | 1%nat => JArr [repo "https://gitlab.com/u/a.git";
                               repo "https://gitlab.com/u/b.git"]
              | 2%nat => JArr [repo "https://gitlab.com/u/c.git"]
              | _ => JArr []
              end |} |}.

Definition alice : known_user :=
  {| username := "alice";
     user_id := JNum 7;
     user_pages := [ [repo "https://gitlab.com/u/a.git";
                      repo "https://gitlab.com/u/b.git"];
                     [repo "https://gitlab.com/u/c.git"] ] |}.

Lemma repositories_of_known_users_witness :
  GitLab.get_gitlab_repos 3 two_page_api (map username [alice])
  = GitLab.Returns
      (3%Z, [JStr "https://gitlab.com/u/a.git";
             JStr "https://gitlab.com/u/b.git";
             JStr "https://gitlab.com/u/c.git"]).
Proof.
  apply (repositories_of_known_users 3 two_page_api [alice]
           [JStr "https://gitlab.com/u/a.git";
            JStr "https://gitlab.com/u/b.git";
            JStr "https://gitlab.com/u/c.git"]).
  - constructor; [| constructor].
    split; [reflexivity |]. split; [reflexivity |]. split.
    + intros [| [| i]] items Hi; cbn in Hi;
        [injection Hi as <- | injection Hi as <- | now destruct i].
      * split; [discriminate | reflexivity].
      * split; [discriminate | reflexivity].
    + reflexivity.
  - constructor; [cbn; lia | constructor].
  - reflexivity.
Defined.

End Repositories.
